(** * fold-entity-row: the row-resolution pipeline and the toggle state machine

    A shallow embedding of [src/main.ts] (class [FoldEntityRow]) and the
    properties of its configuration resolver, its asynchronous row pipeline,
    its open/closed toggle and its propagation of the shared [hass] context.

    The component runs on a single-threaded event loop.  Every [async] method
    is embedded as a coroutine cut at its [await]s: the part up to the first
    [await] runs inside the call, each suspended activation is a [Thread]
    recording the program point and the captured locals, and each turn of the
    loop is an [Event].  Continuations that become runnable inside a turn
    (promise reactions) run before the turn ends, in the order in which the
    engine queues them.  Assignments of the reactive property [hass] and the
    update cycles of the Lit element that answer them are modelled on top of
    that, in [Reactive]. *)

From stdpp Require Import base option list gmap strings pretty.
From Stdlib Require Import ZArith Lia Permutation.

#[local] Set Warnings "-register-all".
#[local] Open Scope string_scope.
#[local] Open Scope list_scope.

(** ** JavaScript values, as far as configuration data needs them *)

Module Js.

(** Configuration and [hass] data: what YAML/JSON can express.  An object is
    a finite map from property names to values.  A number is an integer, and
    stands for the JavaScript number of that value; the component does no
    arithmetic on numbers, it tests them for truth and prints them.  Only an
    integer of magnitude below 2^53 ([safe_integer]) is held exactly and
    printed in plain decimal by JavaScript: fractions have no value here, and
    what [to_string] gives for a larger integer is not what JavaScript
    prints, so statements that print a number are about safe integers.
    A string is the UTF-8 text of the JavaScript string. *)
Inductive JsVal :=
| VUndef
| VNull
| VBool (b : bool)
| VNum (n : Z)
| VStr (s : string)
| VArr (l : list JsVal)
| VObj (m : gmap string JsVal).

(** What a [throw] carries: [new Error(msg)], or the engine's [TypeError] for
    a property access on [undefined]/[null]. *)
Inductive Exn :=
| JsError (msg : string)
| JsTypeError.

(** ToBoolean. *)
Definition truthy (v : JsVal) : bool :=
  match v with
  | VUndef | VNull => false
  | VBool b => b
  | VNum n => negb (n =? 0)%Z
  | VStr s => negb (String.eqb s "")
  | VArr _ | VObj _ => true
  end.

(** [a || b] *)
Definition js_or (a b : JsVal) : JsVal := if truthy a then a else b.

Definition nullish (v : JsVal) : bool :=
  match v with VUndef | VNull => true | _ => false end.

(** [a ?? b] *)
Definition coalesce (a b : JsVal) : JsVal := if nullish a then b else a.

(** [v === undefined] *)
Definition is_undefined (v : JsVal) : bool :=
  match v with VUndef => true | _ => false end.

(** [Array.isArray(v)] *)
Definition is_array (v : JsVal) : bool :=
  match v with VArr _ => true | _ => false end.

(** [Number.isSafeInteger(n)] *)
Definition safe_integer (n : Z) : Prop := (- 2 ^ 53 < n < 2 ^ 53)%Z.

(** ToString, as in a template literal or when a value serves as a property
    key.  The case of a number is the one of a safe integer. *)
Fixpoint to_string (v : JsVal) : string :=
  match v with
  | VUndef => "undefined"
  | VNull => "null"
  | VBool true => "true"
  | VBool false => "false"
  | VNum n => pretty n
  | VStr s => s
  | VArr l =>
      String.concat ","
        (List.map (fun x => if nullish x then "" else to_string x) l)
  | VObj _ => "[object Object]"
  end.

(** The position named by a canonical array-index key, below [n]. *)
Definition index_of_key (k : string) (n : nat) : option nat :=
  fst <$> list_find (fun i : nat => pretty i = k) (seq 0 n).

(** JavaScript indexes a string by UTF-16 code units: a code point below
    U+10000 is one unit, whatever the number of bytes of its UTF-8 form, and
    any other code point is a pair of surrogates. *)

(** A continuation byte, [10xxxxxx]. *)
Definition is_cont (a : Ascii.ascii) : bool :=
  (N.land (Ascii.N_of_ascii a) 192 =? 128)%N.

Definition low6 (a : Ascii.ascii) : N := N.land (Ascii.N_of_ascii a) 63.

(** The code point of a sequence of four bytes. *)
Definition code_point4 (a b c d : Ascii.ascii) : N :=
  N.lor (N.shiftl (N.land (Ascii.N_of_ascii a) 7) 18)
    (N.lor (N.shiftl (low6 b) 12) (N.lor (N.shiftl (low6 c) 6) (low6 d))).

(** A single code unit [u] from U+0800 on, as a string: its three bytes.
    This is how a surrogate on its own is written. *)
Definition unit_string (u : N) : string :=
  String (Ascii.ascii_of_N (224 + N.shiftr u 12))
    (String (Ascii.ascii_of_N (128 + N.land (N.shiftr u 6) 63))
       (String (Ascii.ascii_of_N (128 + N.land u 63)) EmptyString)).

(** The code units of a string, each as a string of its own: [s[0]],
    [s[1]], ...  A byte that starts no well-formed sequence is taken as a
    unit by itself. *)
Fixpoint chars (s : string) : list JsVal :=
  match s with
  | EmptyString => []
  | String a r1 =>
      let n := Ascii.N_of_ascii a in
      match r1 with
      | String b r2 =>
          if (192 <=? n)%N && is_cont b then
            if (n <? 224)%N then
              VStr (String a (String b EmptyString)) :: chars r2
            else
              match r2 with
              | String c r3 =>
                  if is_cont c then
                    if (n <? 240)%N then
                      VStr (String a (String b (String c EmptyString)))
                        :: chars r3
                    else
                      match r3 with
                      | String d r4 =>
                          let p := code_point4 a b c d in
                          if is_cont d && (n <? 248)%N
                             && (65536 <=? p)%N && (p <? 1114112)%N
                          then
                            VStr (unit_string
                                    (55296 + N.shiftr (p - 65536) 10))
                              :: VStr (unit_string
                                         (56320 + N.land (p - 65536) 1023))
                              :: chars r4
                          else VStr (String a EmptyString) :: chars r1
                      | EmptyString => VStr (String a EmptyString) :: chars r1
                      end
                  else VStr (String a EmptyString) :: chars r1
              | EmptyString => VStr (String a EmptyString) :: chars r1
              end
          else VStr (String a EmptyString) :: chars r1
      | EmptyString => [VStr (String a EmptyString)]
      end
  end.

(** Own data properties of a value that is neither [undefined] nor [null].
    Inherited prototype members (methods) are not data and are not modelled. *)
Definition get_own (v : JsVal) (k : string) : JsVal :=
  match v with
  | VObj m => default VUndef (m !! k)
  | VArr l =>
      if String.eqb k "length" then VNum (Z.of_nat (length l))
      else default VUndef (index_of_key k (length l) ≫= fun i => l !! i)
  | VStr s =>
      if String.eqb k "length" then VNum (Z.of_nat (length (chars s)))
      else default VUndef
             (index_of_key k (length (chars s)) ≫= fun i => chars s !! i)
  | _ => VUndef
  end.

(** [v.k] / [v[k]]: a [TypeError] on [undefined] and [null]. *)
Definition get_prop (v : JsVal) (k : string) : Exn + JsVal :=
  if nullish v then inl JsTypeError else inr (get_own v k).

(** [v?.k] *)
Definition opt_get (v : JsVal) (k : string) : JsVal :=
  if nullish v then VUndef else get_own v k.

Definition indexed (l : list JsVal) : gmap string JsVal :=
  list_to_map (imap (fun i x => (pretty i, x)) l).

(** The enumerable own properties copied by [Object.assign] and by object
    spread [{...v}]. *)
Definition own_props (v : JsVal) : gmap string JsVal :=
  match v with
  | VObj m => m
  | VArr l => indexed l
  | VStr s => indexed (chars s)
  | _ => ∅
  end.

(** Field of an object held as a map: [o.k]. *)
Definition field (o : gmap string JsVal) (k : string) : JsVal :=
  default VUndef (o !! k).

End Js.
Export Js.

(** ** Module-level definitions of [main.ts] *)

(** [DEFAULT_CONFIG] *)
Definition DEFAULT_CONFIG : gmap string JsVal :=
  <["open" := VBool false]>
    (<["padding" := VNum 24]>
       (<["group_config" := VObj ∅]>
          (<["tap_unfold" := VUndef]> ∅))).

(** [ensureObject(config)] *)
Definition ensureObject (config : JsVal) : JsVal :=
  match config with
  | VUndef => VUndef
  | VStr s => VObj {["entity" := VStr s]}
  | _ => config
  end.

(** [ensureObject(this._config.entity || this._config.head)] (lines 61, 97) *)
Definition head_descriptor (c : gmap string JsVal) : JsVal :=
  ensureObject (js_or (field c "entity") (field c "head")).

(** [this._config.entities || this._config.items] (line 103) *)
Definition explicit_items (c : gmap string JsVal) : JsVal :=
  js_or (field c "entities") (field c "items").

(** [Object.assign({}, DEFAULT_CONFIG, config)] (line 51) *)
Definition merge_config (config : JsVal) : gmap string JsVal :=
  own_props config ∪ DEFAULT_CONFIG.

(** ** The component and its run-time state *)

(** How a header element forwards the user's gesture to [toggle]. *)
Inductive FoldBinding :=
| Unbound
| DelegatedTap     (* nested row config: tap_action = fire-dom-event, fold_row *)
| ActionListener.  (* actionHandlerBind + an "action" listener calling toggle *)

(** [LovelaceElement]: the element returned by [helpers.createRowElement],
    with the slots the component writes. *)
Record Element := mkElement {
  el_config : JsVal;               (* the config it was created from *)
  el_hass : JsVal;                 (* [el.hass] *)
  el_tabIndex : option Z;
  el_role : option string;
  el_ariaLabel : option string;
  el_ariaChecked : option string;
  el_binding : FoldBinding
}.

Definition el_set_hass (v : JsVal) (e : Element) : Element :=
  mkElement e.(el_config) v e.(el_tabIndex) e.(el_role) e.(el_ariaLabel)
    e.(el_ariaChecked) e.(el_binding).

(** [head.ariaLabel = open ? .. : ..; head.ariaChecked = open ? .. : ..] *)
Definition el_set_aria (open : bool) (e : Element) : Element :=
  mkElement e.(el_config) e.(el_hass) e.(el_tabIndex) e.(el_role)
    (Some (if open then "Toggle fold closed" else "Toggle fold open"))
    (Some (if open then "true" else "false")) e.(el_binding).

Definition el_set_switch (b : FoldBinding) (e : Element) : Element :=
  mkElement e.(el_config) e.(el_hass) (Some 0%Z) (Some "switch")
    e.(el_ariaLabel) e.(el_ariaChecked) b.

(** A JavaScript array of row handles: arrays have identity. *)
Record RowArray := mkRowArray { arr_id : nat; arr_elems : list nat }.

(** The inline height of the container. *)
Inductive Height :=
| HeightPx (n : Z)
| HeightAuto.

(** What a settled activation was fulfilled with. *)
Inductive Settled :=
| RUndef
| RRows (a : RowArray)
| RHandle (h : nat).

(** Who receives the element of a [_createRow] call: the header promise
    [this.head], or position [idx] of the [Promise.all] of a loader. *)
Inductive Dest :=
| DHead (p : nat)
| DRow (loader idx : nat).

Inductive CreateStage :=
| AwaitHelpers       (* await window.loadCardHelpers() *)
| AwaitParentCard.   (* await findParentCard(this) *)

Inductive SetupStage :=
| SelectDiv          (* await selectTree(head, "$hui-generic-entity-row$div") *)
| SelectRow.         (* await selectTree(head, "$hui-generic-entity-row") *)

(** An activation of an async method, suspended at an [await] or settled.
    [caller] of a loader is the [toggle] activation awaiting it, if any. *)
Inductive Thread :=
| ThRunning
| ThDone (r : Settled)
| ThFailed (e : Exn)
| ThCreateRow (st : CreateStage) (config : JsVal) (d : Dest)
| ThLoadRowsHass (head : JsVal) (caller : option nat)
| ThLoadRowsAll (slots : list (option nat)) (caller : option nat)
| ThToggleRows
| ThToggleTimer
| ThToggleHead
| ThHeadSetup (st : SetupStage) (h : nat).

(** Reactions registered on a header promise with [.then] or [await]. *)
Inductive HeadCb :=
| CbSetup                (* _load_head: make the header a switch *)
| CbPushHass             (* updated: head.hass = this.hass *)
| CbToggleAria (t : nat). (* toggle: const head = await this.head *)

Inductive HeadPromise :=
| HPending (cbs : list HeadCb)
| HResolved (h : nat).

Inductive Timer :=
| TimerToggle (t : nat)  (* toggle: await new Promise(r => setTimeout(r, 0)) *)
| TimerCollapse.         (* toggle: setTimeout(() => height = "0px", 0) *)

Inductive Effect :=
| EFactory (config : JsVal) (h : nat)  (* helpers.createRowElement(config) *)
| ESetHass (h : nat) (v : JsVal)       (* el.hass = v *)
| EUnhandled (e : Exn).                (* a rejection nobody awaits *)

Record World := mkWorld {
  (* [this.open] *)
  c_open : JsVal;
  (* [this.head]: a header promise, by index in [heads] *)
  c_head : option nat;
  (* [this.rows]; [None] is [undefined] *)
  c_rows : option RowArray;
  (* [this.hass] *)
  c_hass : JsVal;
  (* [this._showContent] *)
  c_showContent : JsVal;
  (* [this._config] *)
  c_config : gmap string JsVal;
  (* [this._hassResolve]: resolves the waiter of that loader *)
  c_hassResolve : option nat;
  (* [this._container.style.overflow] *)
  k_overflow : option string;
  (* [this._container.style.height] *)
  k_height : option Height;
  (* [this._container.scrollHeight], as laid out *)
  k_scrollHeight : Z;
  (* the activations of async methods, by thread id *)
  threads : list Thread;
  (* the header promises created so far *)
  heads : list HeadPromise;
  (* pending [setTimeout(.., 0)] callbacks, oldest first *)
  timers : list Timer;
  (* the heap of row elements, by handle id *)
  handles : list Element;
  (* observable effects, oldest first *)
  trace : list Effect;
  (* identity of the next array allocated *)
  next_arr : nat;
  (* what [findParentCard(this)] resolves to *)
  parentCard : JsVal;
  (* does the header's inner [div] carry an [actionHandler] *)
  head_has_action_handler : bool
}.

(** Field updates ([this.f = x]). *)
Definition set_c_open (x : JsVal) (w : World) : World :=
  mkWorld x (w.(c_head)) (w.(c_rows)) (w.(c_hass)) (w.(c_showContent))
  (w.(c_config)) (w.(c_hassResolve)) (w.(k_overflow)) (w.(k_height))
  (w.(k_scrollHeight)) (w.(threads)) (w.(heads)) (w.(timers)) (w.(handles))
  (w.(trace)) (w.(next_arr)) (w.(parentCard)) (w.(head_has_action_handler)).

Definition set_c_head (x : option nat) (w : World) : World :=
  mkWorld (w.(c_open)) x (w.(c_rows)) (w.(c_hass)) (w.(c_showContent))
  (w.(c_config)) (w.(c_hassResolve)) (w.(k_overflow)) (w.(k_height))
  (w.(k_scrollHeight)) (w.(threads)) (w.(heads)) (w.(timers)) (w.(handles))
  (w.(trace)) (w.(next_arr)) (w.(parentCard)) (w.(head_has_action_handler)).

Definition set_c_rows (x : option RowArray) (w : World) : World :=
  mkWorld (w.(c_open)) (w.(c_head)) x (w.(c_hass)) (w.(c_showContent))
  (w.(c_config)) (w.(c_hassResolve)) (w.(k_overflow)) (w.(k_height))
  (w.(k_scrollHeight)) (w.(threads)) (w.(heads)) (w.(timers)) (w.(handles))
  (w.(trace)) (w.(next_arr)) (w.(parentCard)) (w.(head_has_action_handler)).

Definition set_c_hass (x : JsVal) (w : World) : World :=
  mkWorld (w.(c_open)) (w.(c_head)) (w.(c_rows)) x (w.(c_showContent))
  (w.(c_config)) (w.(c_hassResolve)) (w.(k_overflow)) (w.(k_height))
  (w.(k_scrollHeight)) (w.(threads)) (w.(heads)) (w.(timers)) (w.(handles))
  (w.(trace)) (w.(next_arr)) (w.(parentCard)) (w.(head_has_action_handler)).

Definition set_c_showContent (x : JsVal) (w : World) : World :=
  mkWorld (w.(c_open)) (w.(c_head)) (w.(c_rows)) (w.(c_hass)) x
  (w.(c_config)) (w.(c_hassResolve)) (w.(k_overflow)) (w.(k_height))
  (w.(k_scrollHeight)) (w.(threads)) (w.(heads)) (w.(timers)) (w.(handles))
  (w.(trace)) (w.(next_arr)) (w.(parentCard)) (w.(head_has_action_handler)).

Definition set_c_config (x : gmap string JsVal) (w : World) : World :=
  mkWorld (w.(c_open)) (w.(c_head)) (w.(c_rows)) (w.(c_hass))
  (w.(c_showContent)) x (w.(c_hassResolve)) (w.(k_overflow)) (w.(k_height))
  (w.(k_scrollHeight)) (w.(threads)) (w.(heads)) (w.(timers)) (w.(handles))
  (w.(trace)) (w.(next_arr)) (w.(parentCard)) (w.(head_has_action_handler)).

Definition set_c_hassResolve (x : option nat) (w : World) : World :=
  mkWorld (w.(c_open)) (w.(c_head)) (w.(c_rows)) (w.(c_hass))
  (w.(c_showContent)) (w.(c_config)) x (w.(k_overflow)) (w.(k_height))
  (w.(k_scrollHeight)) (w.(threads)) (w.(heads)) (w.(timers)) (w.(handles))
  (w.(trace)) (w.(next_arr)) (w.(parentCard)) (w.(head_has_action_handler)).

Definition set_k_overflow (x : option string) (w : World) : World :=
  mkWorld (w.(c_open)) (w.(c_head)) (w.(c_rows)) (w.(c_hass))
  (w.(c_showContent)) (w.(c_config)) (w.(c_hassResolve)) x (w.(k_height))
  (w.(k_scrollHeight)) (w.(threads)) (w.(heads)) (w.(timers)) (w.(handles))
  (w.(trace)) (w.(next_arr)) (w.(parentCard)) (w.(head_has_action_handler)).

Definition set_k_height (x : option Height) (w : World) : World :=
  mkWorld (w.(c_open)) (w.(c_head)) (w.(c_rows)) (w.(c_hass))
  (w.(c_showContent)) (w.(c_config)) (w.(c_hassResolve)) (w.(k_overflow)) x
  (w.(k_scrollHeight)) (w.(threads)) (w.(heads)) (w.(timers)) (w.(handles))
  (w.(trace)) (w.(next_arr)) (w.(parentCard)) (w.(head_has_action_handler)).

Definition set_threads (x : list Thread) (w : World) : World :=
  mkWorld (w.(c_open)) (w.(c_head)) (w.(c_rows)) (w.(c_hass))
  (w.(c_showContent)) (w.(c_config)) (w.(c_hassResolve)) (w.(k_overflow))
  (w.(k_height)) (w.(k_scrollHeight)) x (w.(heads)) (w.(timers))
  (w.(handles)) (w.(trace)) (w.(next_arr)) (w.(parentCard))
  (w.(head_has_action_handler)).

Definition set_heads (x : list HeadPromise) (w : World) : World :=
  mkWorld (w.(c_open)) (w.(c_head)) (w.(c_rows)) (w.(c_hass))
  (w.(c_showContent)) (w.(c_config)) (w.(c_hassResolve)) (w.(k_overflow))
  (w.(k_height)) (w.(k_scrollHeight)) (w.(threads)) x (w.(timers))
  (w.(handles)) (w.(trace)) (w.(next_arr)) (w.(parentCard))
  (w.(head_has_action_handler)).

Definition set_timers (x : list Timer) (w : World) : World :=
  mkWorld (w.(c_open)) (w.(c_head)) (w.(c_rows)) (w.(c_hass))
  (w.(c_showContent)) (w.(c_config)) (w.(c_hassResolve)) (w.(k_overflow))
  (w.(k_height)) (w.(k_scrollHeight)) (w.(threads)) (w.(heads)) x
  (w.(handles)) (w.(trace)) (w.(next_arr)) (w.(parentCard))
  (w.(head_has_action_handler)).

Definition set_handles (x : list Element) (w : World) : World :=
  mkWorld (w.(c_open)) (w.(c_head)) (w.(c_rows)) (w.(c_hass))
  (w.(c_showContent)) (w.(c_config)) (w.(c_hassResolve)) (w.(k_overflow))
  (w.(k_height)) (w.(k_scrollHeight)) (w.(threads)) (w.(heads)) (w.(timers))
  x (w.(trace)) (w.(next_arr)) (w.(parentCard))
  (w.(head_has_action_handler)).

Definition set_trace (x : list Effect) (w : World) : World :=
  mkWorld (w.(c_open)) (w.(c_head)) (w.(c_rows)) (w.(c_hass))
  (w.(c_showContent)) (w.(c_config)) (w.(c_hassResolve)) (w.(k_overflow))
  (w.(k_height)) (w.(k_scrollHeight)) (w.(threads)) (w.(heads)) (w.(timers))
  (w.(handles)) x (w.(next_arr)) (w.(parentCard))
  (w.(head_has_action_handler)).

Definition set_next_arr (x : nat) (w : World) : World :=
  mkWorld (w.(c_open)) (w.(c_head)) (w.(c_rows)) (w.(c_hass))
  (w.(c_showContent)) (w.(c_config)) (w.(c_hassResolve)) (w.(k_overflow))
  (w.(k_height)) (w.(k_scrollHeight)) (w.(threads)) (w.(heads)) (w.(timers))
  (w.(handles)) (w.(trace)) x (w.(parentCard))
  (w.(head_has_action_handler)).

(** ** The event loop's plumbing *)

(** Start an activation; its thread id is the next free one. *)
Definition spawn (t : Thread) (w : World) : World :=
  set_threads (w.(threads) ++ [t]) w.

Definition set_thread (tid : nat) (t : Thread) (w : World) : World :=
  set_threads (<[tid := t]> w.(threads)) w.

Definition emit (e : Effect) (w : World) : World :=
  set_trace (w.(trace) ++ [e]) w.

(** Write to the slots of the element with handle [h]. *)
Definition update_handle (h : nat) (f : Element → Element) (w : World)
  : World :=
  set_handles (alter f h w.(handles)) w.

(** [el.hass = this.hass] *)
Definition push_hass (h : nat) (w : World) : World :=
  emit (ESetHass h w.(c_hass)) (update_handle h (el_set_hass w.(c_hass)) w).

(** ** [toggle], from the point where the child rows are loaded *)

(** Lines 207-209: the header is known; the activation ends. *)
Definition toggle_aria (t h : nat) (w : World) : World :=
  set_thread t (ThDone RUndef)
    (update_handle h (el_set_aria (truthy w.(c_open))) w).

(** [const head = await this.head] (line 207). *)
Definition toggle_await_head (t : nat) (w : World) : World :=
  match w.(c_head) with
  | None => emit (EUnhandled JsTypeError) (set_thread t (ThFailed JsTypeError) w)
  | Some p =>
      match w.(heads) !! p with
      | Some (HResolved h) => toggle_aria t h w
      | Some (HPending cbs) =>
          set_thread t ThToggleHead
            (set_heads (<[p := HPending (cbs ++ [CbToggleAria t])]> w.(heads)) w)
      | None =>
          emit (EUnhandled JsTypeError) (set_thread t (ThFailed JsTypeError) w)
      end
  end.

(** Lines 194-210. *)
Definition toggle_commit (t : nat) (newOpen : bool) (w : World) : World :=
  let w := set_k_height
             (Some (if (w.(k_scrollHeight) =? 0)%Z then HeightAuto
                    else HeightPx w.(k_scrollHeight))) w in
  let w := if newOpen then w
           else set_timers (w.(timers) ++ [TimerCollapse]) w in
  let w := set_c_open (VBool newOpen) w in
  if truthy (field w.(c_config) "clickable") then toggle_await_head t w
  else set_thread t (ThDone RUndef) w.

(** Line 191, reached once [await this._load_rows()] is over: the activation
    suspended at that [await] goes on to the next one. *)
Definition toggle_after_rows (t : nat) (w : World) : World :=
  match w.(threads) !! t with
  | Some ThToggleRows =>
      set_thread t ThToggleTimer
        (set_timers (w.(timers) ++ [TimerToggle t]) w)
  | _ => w
  end.

(** ** [_load_rows] *)

(** The loader's promise is fulfilled: whoever awaits it goes on. *)
Definition loader_return (tid : nat) (r : Settled) (caller : option nat)
    (w : World) : World :=
  let w := set_thread tid (ThDone r) w in
  match caller with
  | Some t => toggle_after_rows t w
  | None => w
  end.

(** The loader throws: the rejection passes through an awaiting [toggle] and
    ends up unhandled either way. *)
Definition loader_throw (tid : nat) (e : Exn) (caller : option nat)
    (w : World) : World :=
  let w := set_thread tid (ThFailed e) w in
  let w := match caller with
           | Some t =>
               match w.(threads) !! t with
               | Some ThToggleRows => set_thread t (ThFailed e) w
               | _ => w
               end
           | None => w
           end in
  emit (EUnhandled e) w.

(** Line 118, after [Promise.all]: a new array holding the handles. *)
Definition join_complete (tid : nat) (hs : list nat) (caller : option nat)
    (w : World) : World :=
  let w := set_c_rows (Some (mkRowArray w.(next_arr) hs)) w in
  let w := set_next_arr (S w.(next_arr)) w in
  loader_return tid RUndef caller w.

(** [Promise.all] resolves when no slot is empty. *)
Definition try_join (tid : nat) (w : World) : World :=
  match w.(threads) !! tid with
  | Some (ThLoadRowsAll slots caller) =>
      match mapM id slots with
      | Some hs => join_complete tid hs caller w
      | None => w
      end
  | _ => w
  end.

(** The element of the [idx]-th item arrives. *)
Definition fill_slot (tid idx h : nat) (w : World) : World :=
  match w.(threads) !! tid with
  | Some (ThLoadRowsAll slots caller) =>
      try_join tid (set_thread tid (ThLoadRowsAll (<[idx := Some h]> slots) caller) w)
  | _ => w
  end.

(** Lines 119-121: [items.map(..)] calls [_createRow(ensureObject(i))] once
    per item, in order; every call suspends at once on [loadCardHelpers()]. *)
Definition row_threads (tid : nat) (l : list JsVal) : list Thread :=
  imap (fun k i => ThCreateRow AwaitHelpers (ensureObject i) (DRow tid k)) l.

(** Lines 111-122: [items] is resolved; validate it and create the rows. *)
Definition load_rows_items (tid : nat) (items : JsVal) (caller : option nat)
    (w : World) : World :=
  if is_undefined items then
    loader_throw tid (JsError "No entities specified.") caller w
  else if negb (truthy items) || negb (is_array items) then
    loader_throw tid (JsError "Entities must be a list.") caller w
  else
    match items with
    | VArr l =>
        let w := set_threads (w.(threads) ++ row_threads tid l) w in
        try_join tid
          (set_thread tid (ThLoadRowsAll (replicate (length l) None) caller) w)
    | _ => w
    end.

(** [this.hass.states[head.entity]?.attributes?.entity_id] (line 109) *)
Definition group_members (hass head : JsVal) : Exn + JsVal :=
  match get_prop hass "states" with
  | inl e => inl e
  | inr states =>
      match get_prop states (to_string (get_own head "entity")) with
      | inl e => inl e
      | inr st => inr (opt_get (opt_get st "attributes") "entity_id")
      end
  end.

(** Lines 108-109: the shared context is there; read the group members. *)
Definition load_rows_group (tid : nat) (head : JsVal) (caller : option nat)
    (w : World) : World :=
  let w := set_c_hassResolve None w in
  match group_members w.(c_hass) head with
  | inl e => loader_throw tid e caller w
  | inr items => load_rows_items tid items caller w
  end.

(** [_load_rows()], called by [caller] (or by nobody who awaits it). *)
Definition load_rows (caller : option nat) (w : World) : World :=
  let tid := length w.(threads) in
  let w := spawn ThRunning w in
  match w.(c_rows) with
  | None => loader_throw tid JsTypeError caller w
  | Some rows =>
      if negb (Nat.eqb (length rows.(arr_elems)) 0) then
        loader_return tid (RRows rows) caller w
      else
        let head := head_descriptor w.(c_config) in
        let items := explicit_items w.(c_config) in
        match get_prop head "entity" with
        | inl e => loader_throw tid e caller w
        | inr he =>
            if truthy he && is_undefined items then
              if is_undefined w.(c_hass) then
                set_thread tid (ThLoadRowsHass head caller)
                  (set_c_hassResolve (Some tid) w)
              else load_rows_group tid head caller w
            else load_rows_items tid items caller w
        end
  end.

(** ** [_createRow] and the header promise *)

(** A reaction on the header promise runs with the header element. *)
Definition run_head_cb (h : nat) (w : World) (cb : HeadCb) : World :=
  match cb with
  | CbSetup => spawn (ThHeadSetup SelectDiv h) w
  | CbPushHass => push_hass h w
  | CbToggleAria t =>
      match w.(threads) !! t with
      | Some ThToggleHead => toggle_aria t h w
      | _ => w
      end
  end.

(** [p.then(cb)] *)
Definition then_head (p : nat) (cb : HeadCb) (w : World) : World :=
  match w.(heads) !! p with
  | Some (HResolved h) => run_head_cb h w cb
  | Some (HPending cbs) =>
      set_heads (<[p := HPending (cbs ++ [cb])]> w.(heads)) w
  | None => w
  end.

Definition resolve_head (p h : nat) (w : World) : World :=
  match w.(heads) !! p with
  | Some (HPending cbs) =>
      foldl (run_head_cb h) (set_heads (<[p := HResolved h]> w.(heads)) w) cbs
  | _ => w
  end.

Definition is_head (d : Dest) : bool :=
  match d with DHead _ => true | DRow _ _ => false end.

(** Lines 128-136: the config handed to the row factory. *)
Definition row_config (c : gmap string JsVal) (parent : JsVal) (head : bool)
    (config : JsVal) : JsVal :=
  let state_color :=
    coalesce
      (coalesce (field c "state_color")
                (opt_get (opt_get parent "_config") "state_color"))
      (opt_get (opt_get parent "config") "state_color") in
  let group := if head then ∅ else own_props (field c "group_config") in
  VObj (own_props config ∪ (group ∪ {["state_color" := state_color]})).

(** Lines 128-144 of [_createRow(config, head)], once both awaits are over.
    [applyStyle] only touches styling, which is not part of the state. *)
Definition create_row_finish (tid : nat) (config : JsVal) (d : Dest)
    (w : World) : World :=
  let config := row_config w.(c_config) w.(parentCard) (is_head d) config in
  let h := length w.(handles) in
  let el := mkElement config
              (if truthy w.(c_hass) then w.(c_hass) else VUndef)
              None None None None Unbound in
  let w := emit (EFactory config h) (set_handles (w.(handles) ++ [el]) w) in
  let w := if truthy w.(c_hass) then emit (ESetHass h w.(c_hass)) w else w in
  let w := set_thread tid (ThDone (RHandle h)) w in
  match d with
  | DHead p => resolve_head p h w
  | DRow loader idx => fill_slot loader idx h w
  end.

(** Lines 76-90: the end of the reaction that makes the header a switch. *)
Definition head_setup_finish (tid h : nat) (b : FoldBinding) (w : World)
  : World :=
  set_thread tid (ThDone RUndef)
    (update_handle h
       (fun e => el_set_aria (truthy w.(c_open)) (el_set_switch b e)) w).

(** Lines 65-69: the configuration after the clickability default. *)
Definition resolve_clickable (c : gmap string JsVal) (head : JsVal)
  : gmap string JsVal :=
  if is_undefined (field c "clickable") then
    if is_undefined (get_own head "entity")
       && is_undefined (get_own head "tap_action")
    then <["clickable" := VBool true]> c
    else c
  else c.

(** [_load_head()]: it has no [await] of its own. *)
Definition load_head (w : World) : World :=
  let head := head_descriptor w.(c_config) in
  if negb (truthy head) then
    emit (EUnhandled (JsError "No fold head specified")) w
  else
    let w := set_c_config (resolve_clickable w.(c_config) head) w in
    let p := length w.(heads) in
    let w := set_heads (w.(heads) ++ [HPending []]) w in
    let w := spawn (ThCreateRow AwaitHelpers head (DHead p)) w in
    let w := set_c_head (Some p) w in
    if truthy (field w.(c_config) "clickable") then then_head p CbSetup w
    else w.

(** ** The public entry points *)

(** [setConfig(config)] *)
Definition setConfig (config : JsVal) (w : World) : World :=
  let w := set_c_config (merge_config config) w in
  let w := set_c_open
             (coalesce (coalesce w.(c_open) (field w.(c_config) "open"))
                       (VBool false)) w in
  let w := set_c_showContent w.(c_open) w in
  let w := load_head w in
  let w := set_next_arr (S w.(next_arr))
             (set_c_rows (Some (mkRowArray w.(next_arr) [])) w) in
  if truthy (field w.(c_config) "open") then load_rows None w else w.

(** [toggle(ev)] up to its first [await].  Its callers are listeners of the
    rendered template (lines 270 and 275) and of the header element (line
    84): the component has rendered, and [this._container] (lines 187, 194,
    195, 199) is the container of that rendering. *)
Definition toggle (w : World) : World :=
  let t := length w.(threads) in
  let w := spawn ThRunning w in
  let newOpen := negb (truthy w.(c_open)) in
  let w := set_k_overflow (Some "hidden") w in
  if newOpen then
    load_rows (Some t) (set_thread t ThToggleRows
                          (set_c_showContent (VBool true) w))
  else toggle_commit t newOpen w.

(** [updated(changedProperties)] when [hass] is among the changed properties
    (lines 219-223). *)
Definition updated_hass (w : World) : World :=
  let w := match w.(c_rows) with
           | Some rows => foldl (fun w h => push_hass h w) w rows.(arr_elems)
           | None => w
           end in
  let w := match w.(c_head) with
           | Some p => then_head p CbPushHass w
           | None => w
           end in
  match w.(c_hassResolve) with
  | Some tid =>
      match w.(threads) !! tid with
      | Some (ThLoadRowsHass head caller) => load_rows_group tid head caller w
      | _ => w
      end
  | None => w
  end.

(** [_transitionEnd(ev)] *)
Definition transitionEnd (w : World) : World :=
  let w := set_k_height None w in
  let w := set_k_overflow
             (Some (if truthy w.(c_open) then "initial" else "hidden")) w in
  set_c_showContent w.(c_open) w.

(** An external promise that thread [tid] awaits is fulfilled. *)
Definition external (tid : nat) (w : World) : World :=
  match w.(threads) !! tid with
  | Some (ThCreateRow AwaitHelpers config d) =>
      set_thread tid (ThCreateRow AwaitParentCard config d) w
  | Some (ThCreateRow AwaitParentCard config d) =>
      create_row_finish tid config d w
  | Some (ThHeadSetup SelectDiv h) =>
      if w.(head_has_action_handler)
      then set_thread tid (ThHeadSetup SelectRow h) w
      else head_setup_finish tid h ActionListener w
  | Some (ThHeadSetup SelectRow h) => head_setup_finish tid h DelegatedTap w
  | _ => w
  end.

(** The oldest zero-delay timer fires. *)
Definition timer (w : World) : World :=
  match w.(timers) with
  | [] => w
  | TimerToggle t :: rest =>
      match w.(threads) !! t with
      | Some ThToggleTimer => toggle_commit t true (set_timers rest w)
      | _ => set_timers rest w
      end
  | TimerCollapse :: rest =>
      set_k_height (Some (HeightPx 0)) (set_timers rest w)
  end.

(** One turn of the event loop.  [EvSetHass v] is a change of [hass] as the
    component sees it: the host has assigned [v], another value than the one
    held, and the update cycle of the Lit element has called [updated] with
    "hass" among the changed properties, nothing else having run in between.
    Assignments apart from update cycles are the matter of [Reactive]
    below. *)
Inductive Event :=
| EvSetConfig (config : JsVal)  (* the host calls setConfig *)
| EvSetHass (v : JsVal)         (* hass has changed to v; Lit calls updated *)
| EvToggle                      (* the toggle gesture *)
| EvLoadRows                    (* a direct call of _load_rows *)
| EvTransitionEnd               (* transitionend on the container *)
| EvExternal (tid : nat)        (* an awaited host promise is fulfilled *)
| EvTimer.

Definition step (w : World) (e : Event) : World :=
  match e with
  | EvSetConfig config => setConfig config w
  | EvSetHass v => updated_hass (set_c_hass v w)
  | EvToggle => toggle w
  | EvLoadRows => load_rows None w
  | EvTransitionEnd => transitionEnd w
  | EvExternal tid => external tid w
  | EvTimer => timer w
  end.

Definition run (w : World) (es : list Event) : World := foldl step w es.

(** A freshly constructed element, before the host's first [setConfig]. *)
Definition fresh (pc : JsVal) (scroll : Z) (inner : bool) : World :=
  mkWorld VUndef None None VUndef VUndef ∅ None None None scroll
    [] [] [] [] [] 0 pc inner.

(** ** Auxiliary notions used by the statements *)

(** An object literal. *)
Definition obj (l : list (string * JsVal)) : JsVal := VObj (list_to_map l).

(** [setConfig] up to the call of [_load_head] (lines 51-53). *)
Definition configured (config : JsVal) (w : World) : World :=
  let w := set_c_config (merge_config config) w in
  let w := set_c_open
             (coalesce (coalesce w.(c_open) (field w.(c_config) "open"))
                       (VBool false)) w in
  set_c_showContent w.(c_open) w.

(** [setConfig] up to the decision to load the child rows (lines 51-56). *)
Definition reset_rows (config : JsVal) (w : World) : World :=
  let w := load_head (configured config w) in
  set_next_arr (S w.(next_arr))
    (set_c_rows (Some (mkRowArray w.(next_arr) [])) w).


(** The component right after an unawaited [_load_rows()] has validated the
    item list [l] (lines 111-122): one suspended [_createRow] per item behind
    the loader, which awaits their [Promise.all]; with no item the
    [Promise.all] is already fulfilled and a new empty array is cached. *)
Definition loading (l : list JsVal) (w : World) : World :=
  match l with
  | [] =>
      set_next_arr (S w.(next_arr))
        (set_c_rows (Some (mkRowArray w.(next_arr) []))
           (spawn (ThDone RUndef) w))
  | _ =>
      set_threads
        (w.(threads)
         ++ ThLoadRowsAll (replicate (length l) None) None
            :: row_threads (length w.(threads)) l) w
  end.

(** The loader and the continuations it wakes never touch the elements, the
    header promises, the configuration or the open state. *)
Record loader_frame (w w' : World) : Prop := {
  lf_open : c_open w' = c_open w;
  lf_head : c_head w' = c_head w;
  lf_hass : c_hass w' = c_hass w;
  lf_show : c_showContent w' = c_showContent w;
  lf_config : c_config w' = c_config w;
  lf_heads : heads w' = heads w;
  lf_handles : handles w' = handles w;
  lf_parent : parentCard w' = parentCard w;
  lf_overflow : k_overflow w' = k_overflow w;
  lf_height : k_height w' = k_height w
}.

(** The behaviour asked of two successive calls of the loader on [w]: the
    second call returns the very array the first one cached, leaves it in
    place and calls the row factory no further. *)
Definition second_load_returns_cache (w : World) : Prop :=
  let w1 := load_rows None w in
  let w2 := load_rows None w1 in
  ∃ arr, c_rows w1 = Some arr
         ∧ c_rows w2 = Some arr
         ∧ threads w2 !! length (threads w1) = Some (ThDone (RRows arr))
         ∧ trace w2 = trace w1.

(** A component configured with a section head and an empty [entities]
    list. *)
Definition empty_fold : World :=
  setConfig
    (obj [("head", obj [("type", VStr "section")]); ("entities", VArr [])])
    (fresh VUndef 0 false).

(** The handles the shared context is pushed to at once by [updated]: the
    cached child rows, then the header when its promise is fulfilled. *)
Definition cached_rows (w : World) : list nat :=
  match w.(c_rows) with Some rows => rows.(arr_elems) | None => [] end.

Definition resolved_head (w : World) : list nat :=
  match w.(c_head) with
  | Some p =>
      match w.(heads) !! p with Some (HResolved h) => [h] | _ => [] end
  | None => []
  end.

(** A loader suspended on the waiter for [hass] (line 106). *)
Definition is_waiting (t : Thread) : bool :=
  match t with ThLoadRowsHass _ _ => true | _ => false end.

(** The waiting loaders of [w] are still waiting in [w']. *)
Definition keeps_waiting (w w' : World) : Prop :=
  ∀ tid t, w.(threads) !! tid = Some t → is_waiting t = true →
           w'.(threads) !! tid = Some t.

Definition not_waiting_at (w : World) (tid : nat) : Prop :=
  ∀ t, w.(threads) !! tid = Some t → is_waiting t = false.

(** [rows.forEach(e => e.hass = v)] on the heap. *)
Definition push_handles (v : JsVal) (hs : list nat) (els : list Element)
  : list Element :=
  foldl (fun els h => alter (el_set_hass v) h els) els hs.

(** [w'] has the trace of [w] followed by rejections only: no call of the
    row factory and no write to an element. *)
Definition rejects_only (w w' : World) : Prop :=
  ∃ rest, w'.(trace) = w.(trace) ++ rest
          ∧ Forall (fun x => ∃ e, x = EUnhandled e) rest.

(** [updated] up to the test of the waiter (lines 220-221). *)
Definition pushed (w : World) : World :=
  let w := match w.(c_rows) with
           | Some rows => foldl (fun w h => push_hass h w) w rows.(arr_elems)
           | None => w
           end in
  match w.(c_head) with
  | Some p => then_head p CbPushHass w
  | None => w
  end.

(** How far the [_createRow] of item [k] of loader [L] has come, [cnt]
    external promises before its end, and what slot [k] of the loader's
    [Promise.all] holds: nothing while it runs, and afterwards the handle of
    an element made from the item's effective config. *)
Definition row_state (c : gmap string JsVal) (pc : JsVal) (L : nat)
    (w : World) (k : nat) (item : JsVal) (cnt : nat) (slot : option nat)
  : Prop :=
  match cnt with
  | 0 => ∃ h e, slot = Some h ∧ w.(handles) !! h = Some e
                ∧ e.(el_config) = row_config c pc false (ensureObject item)
  | 1 => slot = None
         ∧ w.(threads) !! (S L + k)
           = Some (ThCreateRow AwaitParentCard (ensureObject item) (DRow L k))
  | 2 => slot = None
         ∧ w.(threads) !! (S L + k)
           = Some (ThCreateRow AwaitHelpers (ensureObject item) (DRow L k))
  | _ => False
  end.

(** The loader [L] of the items [l] and its rows, when row [k] is [cnt k]
    external promises before its end. *)
Definition join_inv (c : gmap string JsVal) (pc : JsVal) (L : nat)
    (l : list JsVal) (cnt : nat → nat) (w : World) : Prop :=
  w.(c_config) = c ∧ w.(parentCard) = pc
  ∧ ∃ slots,
      length slots = length l
      ∧ (∀ k item, l !! k = Some item →
           ∃ slot, slots !! k = Some slot
                   ∧ row_state c pc L w k item (cnt k) slot)
      ∧ match mapM id slots with
        | Some hs =>
            (∃ a, w.(c_rows) = Some (mkRowArray a hs))
            ∧ w.(threads) !! L = Some (ThDone RUndef)
        | None => w.(threads) !! L = Some (ThLoadRowsAll slots None)
        end.

(** The child rows of [w] are elements made from the items [l], one per
    item and in the order of the items. *)
Definition rows_match (c : gmap string JsVal) (pc : JsVal) (l : list JsVal)
    (w : World) : Prop :=
  ∃ a hs, w.(c_rows) = Some (mkRowArray a hs)
          ∧ Forall2 (fun h item =>
                       ∃ e, w.(handles) !! h = Some e
                            ∧ e.(el_config)
                              = row_config c pc false (ensureObject item))
                    hs l.

(** ** Notions for the toggle *)

(** An activation of [toggle] suspended at one of its [await]s. *)
Definition is_toggling (t : Thread) : bool :=
  match t with
  | ThToggleRows | ThToggleTimer | ThToggleHead => true
  | _ => false
  end.


(** The accessibility state of the element [h] tells whether the fold is
    open. *)
Definition aria_ok (w : World) (h : nat) : Prop :=
  ∀ e, w.(handles) !! h = Some e →
       e.(el_ariaChecked) = Some (if truthy w.(c_open) then "true" else "false")
       ∧ e.(el_ariaLabel)
         = Some (if truthy w.(c_open) then "Toggle fold closed"
                 else "Toggle fold open").

(** No [toggle] is in flight. *)
Definition quiet (w : World) : Prop :=
  ∀ t th, w.(threads) !! t = Some th → is_toggling th = false.

(** A fulfilled header promise holds an element of the heap. *)
Definition heads_valid (w : World) : Prop :=
  ∀ p h, w.(heads) !! p = Some (HResolved h) → h < length w.(handles).

(** The reactions left by [toggle] on header promises belong to activations
    that exist. *)
Definition aria_refs_bounded (w : World) : Prop :=
  ∀ p cbs t, w.(heads) !! p = Some (HPending cbs) → CbToggleAria t ∈ cbs →
             t < length w.(threads).

(** The states between two toggles. *)
Definition settled (w : World) : Prop :=
  quiet w ∧ heads_valid w ∧ aria_refs_bounded w.

(** What holds of the component all along the [toggle] started in [w0]:
    that activation, [T], is the only one that can be suspended in [toggle]. *)
Record ti_core (w0 w : World) : Prop := {
  ti_others : ∀ t th, t ≠ length w0.(threads) → w.(threads) !! t = Some th →
                      is_toggling th = false;
  ti_config : w.(c_config) = w0.(c_config);
  ti_head : w.(c_head) = w0.(c_head);
  ti_valid : heads_valid w;
  ti_refs : ∀ p cbs t, w.(heads) !! p = Some (HPending cbs) →
                       CbToggleAria t ∈ cbs →
                       t < length w.(threads)
                       ∧ (t = length w0.(threads) →
                          w.(c_head) = Some p
                          ∧ w.(threads) !! t = Some ThToggleHead)
}.

(** Where [open] stands at each point of that activation: untouched while
    the rows load and the tick passes, negated from the commit on, and with
    the header's accessibility state in line once the activation is over. *)
Definition ti_state (w0 w : World) : Prop :=
  let nb := negb (truthy w0.(c_open)) in
  match w.(threads) !! length w0.(threads) with
  | Some ThToggleRows | Some ThToggleTimer =>
      truthy w0.(c_open) = false ∧ w.(c_open) = w0.(c_open)
  | Some ThToggleHead =>
      w.(c_open) = VBool nb ∧ truthy (field w.(c_config) "clickable") = true
  | Some (ThDone _) =>
      w.(c_open) = VBool nb
      ∧ (truthy (field w.(c_config) "clickable") = true →
         ∃ p h, w.(c_head) = Some p ∧ w.(heads) !! p = Some (HResolved h)
                ∧ aria_ok w h)
  | Some (ThFailed _) => True
  | _ => False
  end.


Definition toggle_inv (w0 w : World) : Prop := ti_core w0 w ∧ ti_state w0 w.

(** [settled], decided. *)
Definition settledb (w : World) : bool :=
  forallb (fun th => negb (is_toggling th)) w.(threads)
  && forallb (fun hp => match hp with
                        | HResolved h => Nat.ltb h (length w.(handles))
                        | HPending cbs =>
                            forallb (fun cb => match cb with
                                               | CbToggleAria t =>
                                                   Nat.ltb t (length w.(threads))
                                               | _ => true
                                               end) cbs
                        end) w.(heads).



(** ** Sample components *)

Definition section_head : JsVal :=
  obj [("type", VStr "section"); ("label", VStr "Y")].

(** Both explicit item sources set. *)
Definition fold_ab : World :=
  setConfig
    (obj [("head", section_head); ("entities", VArr [VStr "light.a"]);
          ("items", VArr [VStr "light.b"])])
    (fresh VUndef 0 false).

(** The same with its one child row loaded. *)
Definition fold_ab_loaded : World :=
  run (load_rows None fold_ab) [EvExternal 2; EvExternal 2].



(** Three entities under a section head, closed. *)
Definition fold_xyz : World :=
  setConfig
    (obj [("head", section_head);
          ("entities", VArr [VStr "light.x"; VStr "light.y"; VStr "light.z"])])
    (fresh VUndef 120 false).

(** The same once its header element is there and has become a switch. *)
Definition fold_xyz_ready : World :=
  run fold_xyz [EvExternal 0; EvExternal 0; EvExternal 1].

(** The host's turns that carry the first [toggle] of [fold_xyz_ready] to
    its end: the factory ends [z], then [x], then [y]; then the tick. *)
Definition z_x_y_then_tick : list Event :=
  [EvExternal 6; EvExternal 6; EvExternal 4; EvExternal 4;
   EvExternal 5; EvExternal 5; EvTimer].

(** [fold_xyz_ready] opened. *)
Definition fold_xyz_open : World :=
  run (toggle fold_xyz_ready) z_x_y_then_tick.

(** A component configured open. *)
Definition fold_open : World :=
  setConfig
    (obj [("head", section_head); ("entities", VArr [VStr "light.a"]);
          ("open", VBool true)])
    (fresh VUndef 0 false).

Definition some_hass : JsVal := obj [("states", obj [])].

(** ** The rendered template and the style class *)

(** What [render()] puts into its template: the attribute values that depend
    on the state, the header shown by [until(this.head, "")] and the child
    rows. *)
Record View := mkView {
  v_aria_expanded : JsVal;       (* #head: aria-expanded=${this.open} *)
  v_head : option nat;           (* the header element, once it is there *)
  v_role : option string;        (* the button's role; [None]: no attribute *)
  v_tabindex : string;           (* the button's tabindex *)
  v_aria_checked : string;       (* the button's aria-checked *)
  v_aria_label : string;         (* the button's aria-label *)
  v_class : string;              (* the button's class *)
  v_aria_hidden : bool;          (* the container's aria-hidden: !this.open *)
  v_style : string;              (* the container's style *)
  v_container_class : string;    (* the container's class *)
  v_rows : option (list nat)     (* this.rows?.map(..) *)
}.

(** [render()] (lines 266-302).  [this._config] is [undefined] until the
    first [setConfig]; a stored configuration has at least the keys of
    [DEFAULT_CONFIG], so the empty map stands for the missing one. *)
Definition render (w : World) : Exn + View :=
  if decide (size w.(c_config) = 0) then inl JsTypeError
  else
    let clickable := truthy (field w.(c_config) "clickable") in
    let open := truthy w.(c_open) in
    inr (mkView
           w.(c_open)
           (match w.(c_head) with
            | Some p =>
                match w.(heads) !! p with
                | Some (HResolved h) => Some h
                | _ => None
                end
            | None => None
            end)
           (if clickable then None else Some "switch")
           (if clickable then "-1" else "0")
           (if open then "true" else "false")
           (if clickable then ""
            else if open then "Toggle fold closed" else "Toggle fold open")
           (if open then "open" else "")
           (negb open)
           ("--row-padding: " +:+ to_string (field w.(c_config) "padding")
              +:+ "px;")
           ("container " +:+ (if open then "expanded" else ""))
           (arr_elems <$> w.(c_rows))).

(** [s.replace(":", "-")]: a string pattern replaces its first occurrence
    only. *)
Fixpoint replace_colon (s : string) : string :=
  match s with
  | EmptyString => EmptyString
  | String a r =>
      if String.eqb (String a EmptyString) ":" then "-" +:+ r
      else String a (replace_colon r)
  end.

(** [config?.type?.replace?.(":", "-")] (line 164): only a string has a
    [replace] method; an own property of that name which is not nullish is
    not callable. *)
Definition type_suffix (config : JsVal) : Exn + JsVal :=
  match opt_get config "type" with
  | VStr s => inr (VStr (replace_colon s))
  | t => if nullish (opt_get t "replace") then inr VUndef else inl JsTypeError
  end.

(** [cls] of [applyStyle] (line 164). *)
Definition cls (config : JsVal) : Exn + string :=
  match type_suffix config with
  | inl e => inl e
  | inr v => inr ("type-fold-entity-row-" +:+ to_string v)
  end.

(** The number of colons of a string. *)
Fixpoint colons (s : string) : nat :=
  match s with
  | EmptyString => 0
  | String a r => (if String.eqb (String a EmptyString) ":" then 1 else 0) + colons r
  end.

(** ** A component with no [toggle] in flight *)

(** A change that, in a component where no [toggle] is in flight, starts
    none and leaves [open] as it is. *)
Definition idle (w w' : World) : Prop :=
  quiet w → quiet w' ∧ c_open w' = c_open w.

(** ** A toggle whose rows cannot be loaded *)

(** The component when a [toggle] that is to open it calls the loader
    (lines 184-190). *)
Definition opening (w : World) : World :=
  set_thread (length w.(threads)) ThToggleRows
    (set_c_showContent (VBool true)
       (set_k_overflow (Some "hidden") (spawn ThRunning w))).

(** [w'] is [w] after a [toggle] that was to open it and whose loader threw
    [e] before any [await]: both activations are rejected, the rejection is
    reported once, and only the first effects of the toggle are there. *)
Definition failed_open (e : Exn) (w w' : World) : Prop :=
  threads w' = threads w ++ [ThFailed e; ThFailed e]
  ∧ trace w' = trace w ++ [EUnhandled e]
  ∧ c_open w' = c_open w
  ∧ c_showContent w' = VBool true
  ∧ k_overflow w' = Some "hidden"
  ∧ k_height w' = k_height w
  ∧ timers w' = timers w
  ∧ handles w' = handles w
  ∧ heads w' = heads w
  ∧ c_rows w' = c_rows w.

(** The turns that are neither a toggle nor a reconfiguration. *)
Definition is_passive (ev : Event) : bool :=
  match ev with EvToggle | EvSetConfig _ => false | _ => true end.

(** ** Loaders that wait for the shared context *)

(** The loader [t], suspended as [th], waits for [hass] but is not the one
    the waiter resumes. *)
Definition stranded (t : nat) (th : Thread) (w : World) : Prop :=
  w.(threads) !! t = Some th ∧ is_waiting th = true
  ∧ w.(c_hassResolve) ≠ Some t.

(** The cache of child rows is an empty array. *)
Definition no_rows (w : World) : Prop :=
  ∃ a, w.(c_rows) = Some (mkRowArray a []).

(** ** References that have a referent *)

(** The handles an activation has captured are elements of the heap. *)
Definition thread_ok (w : World) (th : Thread) : Prop :=
  match th with
  | ThLoadRowsAll slots _ => ∀ h, Some h ∈ slots → h < length w.(handles)
  | ThHeadSetup _ h => h < length w.(handles)
  | _ => True
  end.

(** Nothing the component refers to is missing: a fulfilled header promise
    and the cached rows hold elements of the heap, [this.head] is a header
    promise that exists, the reactions of [toggle] and the waiter for [hass]
    belong to activations that exist, and so do the handles captured by the
    activations. *)
Record well_formed (w : World) : Prop := {
  wf_heads : heads_valid w;
  wf_refs : aria_refs_bounded w;
  wf_head : ∀ p, w.(c_head) = Some p → p < length w.(heads);
  wf_rows : ∀ h, h ∈ cached_rows w → h < length w.(handles);
  wf_threads : ∀ t th, w.(threads) !! t = Some th → thread_ok w th;
  wf_waiter : ∀ t, w.(c_hassResolve) = Some t → t < length w.(threads)
}.

(** ** The reactive property [hass] *)

(** [hass] is a reactive property of the Lit element (line 44): an
    assignment stores the value and, when the value is another than the one
    held, notes "hass" among the changed properties and asks for an update.
    The update cycle that follows renders and then calls
    [updated(changedProperties)], once for all the assignments made since the
    last cycle.  No cycle runs before the element is connected; the changes
    noted wait for the first one. *)
Record Reactive := mkReactive {
  component : World;
  changed_hass : bool   (* [changedProperties.has("hass")] at the next cycle *)
}.

(** [old !== v], the test by which an assignment counts as a change.
    Undefined, null, booleans, numbers and strings are compared by value;
    an object or an array has identity, and the one assigned is another
    object than the one held: the host makes a new [hass] for every change
    of state.  (Assigning the very object held is no change and leaves the
    element as it is.) *)
Definition differs (old v : JsVal) : bool :=
  match old, v with
  | VUndef, VUndef | VNull, VNull => false
  | VBool a, VBool b => negb (Bool.eqb a b)
  | VNum a, VNum b => negb (a =? b)%Z
  | VStr a, VStr b => negb (String.eqb a b)
  | _, _ => true
  end.

(** [this.hass = v] *)
Definition assign_hass (v : JsVal) (r : Reactive) : Reactive :=
  mkReactive (set_c_hass v r.(component))
    (r.(changed_hass) || differs r.(component).(c_hass) v).

(** Assignments made one after the other, with no update cycle between
    them. *)
Definition assign_all (vs : list JsVal) (r : Reactive) : Reactive :=
  foldl (fun r v => assign_hass v r) r vs.

(** Does one of the assignments [vs], made to a property holding [old],
    store another value than the one held. *)
Fixpoint changes (old : JsVal) (vs : list JsVal) : bool :=
  match vs with
  | [] => false
  | v :: vs => differs old v || changes v vs
  end.

(** One update cycle.  [render] comes first: when it throws, [updated] is not
    called and the changes noted are dropped.  Otherwise [updated] runs, and
    does its work on [hass] (lines 219-223) when "hass" is among the changed
    properties. *)
Definition update_cycle (r : Reactive) : Reactive :=
  match render r.(component) with
  | inl _ => mkReactive r.(component) false
  | inr _ =>
      mkReactive
        (if r.(changed_hass) then updated_hass r.(component)
         else r.(component))
        false
  end.

(** The values written to the [hass] of element [h], as a trace records
    them. *)
Definition writes_to (h : nat) (tr : list Effect) : list JsVal :=
  omap (fun x => match x with
                 | ESetHass h' v => if decide (h' = h) then Some v else None
                 | _ => None
                 end) tr.

(** The behaviour asked of assignments of [hass]: each one is pushed, once.
    After the assignments [vs] and the update cycle that follows them, every
    cached child row and the header element have been written the values
    assigned, one write for each assignment. *)
Definition each_assignment_pushed (r : Reactive) (vs : list JsVal) : Prop :=
  let w := r.(component) in
  let w' := (update_cycle (assign_all vs r)).(component) in
  ∀ h, h ∈ cached_rows w ++ resolved_head w →
       writes_to h (drop (length w.(trace)) w'.(trace)) = vs.

(** ** What is asked of [toggle] in every state *)

(** The behaviour asked of [toggle] in [w]: the call, carried on by the turns
    of the host (anything but a further toggle or a reconfiguration), comes
    to commit [open] to the negation of the value it has in [w]. *)
Definition toggle_commits_negation (w : World) : Prop :=
  ∃ es, Forall (fun ev => is_passive ev = true) es
        ∧ c_open (run (toggle w) es) = VBool (negb (truthy (c_open w))).


(** ** Further sample components *)

(** A [hass] in which [group.lights] has two members. *)
Definition lights_hass : JsVal :=
  obj [("states",
        obj [("group.lights",
              obj [("attributes",
                    obj [("entity_id",
                          VArr [VStr "light.a"; VStr "light.b"])])])])].

(** A fold of the members of [group.lights]: before [hass] is known, with a
    loader waiting for it, and once it is known. *)
Definition fold_group : World :=
  setConfig (obj [("entity", VStr "group.lights")]) (fresh VUndef 0 false).

Definition fold_group_waiting : World := load_rows None fold_group.

Definition fold_group_known : World := step fold_group (EvSetHass lights_hass).

(** [fold_xyz_open] closed again. *)
Definition fold_xyz_closed : World :=
  run fold_xyz_open [EvToggle; EvTimer; EvTransitionEnd].

(** [fold_xyz_open] as a reactive element with no change of [hass] noted. *)
Definition xyz_reactive : Reactive := mkReactive fold_xyz_open false.

(** Components that are configured but whose header is not loaded yet: one
    with a section as its head, one with an entity. *)
Definition section_fold : World :=
  configured (obj [("head", section_head)]) (fresh VUndef 0 false).

Definition entity_fold : World :=
  configured (obj [("entity", VStr "light.x")]) (fresh VUndef 0 false).

(** A fold with a [group_config], and one of its rows. *)
Definition grouped_config : gmap string JsVal :=
  merge_config
    (obj [("head", section_head);
          ("group_config", obj [("secondary_info", VStr "last-changed")])]).

Definition light_a_row : JsVal :=
  obj [("entity", VStr "light.a"); ("secondary_info", VStr "none")].

(** * Properties *)

#[local] Arguments head_descriptor : simpl never.
#[local] Arguments explicit_items : simpl never.
#[local] Arguments merge_config : simpl never.
#[local] Arguments resolve_clickable : simpl never.
#[local] Arguments row_config : simpl never.
#[local] Arguments group_members : simpl never.
#[local] Arguments field : simpl never.

(** ** Values and lists *)

Lemma is_undefined_spec v : is_undefined v = true ↔ v = VUndef.
Proof. destruct v; simpl; split; congruence. Qed.

Lemma is_undefined_false v : is_undefined v = false ↔ v ≠ VUndef.
Proof. destruct v; simpl; split; congruence. Qed.

Lemma truthy_not_nullish v : truthy v = true → nullish v = false.
Proof. by destruct v. Qed.

Lemma truthy_ensureObject v :
  truthy (ensureObject v)
  = truthy v || match v with VStr _ => true | _ => false end.
Proof.
  destruct v; simpl; try reflexivity; try by rewrite orb_false_r.
  by rewrite orb_true_r.
Qed.

Lemma insert_at_length {A} (l r : list A) (x y : A) :
  <[length l := y]> (l ++ x :: r) = l ++ y :: r.
Proof. rewrite <-(Nat.add_0_r (length l)), insert_app_r. reflexivity. Qed.

Lemma lookup_at_length {A} (l r : list A) (x : A) :
  (l ++ x :: r) !! length l = Some x.
Proof. by rewrite list_lookup_middle. Qed.

(** ** The configuration *)

Lemma merge_config_field_new (config : JsVal) (k : string) :
  DEFAULT_CONFIG !! k = None →
  field (merge_config config) k = field (own_props config) k.
Proof.
  intros Hk. unfold field, merge_config.
  rewrite lookup_union, Hk. by destruct (own_props config !! k).
Qed.

Lemma head_descriptor_entity c :
  truthy (field c "entity") = true →
  head_descriptor c = ensureObject (field c "entity").
Proof. intros H. unfold head_descriptor, js_or. by rewrite H. Qed.

Lemma head_descriptor_head c :
  truthy (field c "entity") = false →
  head_descriptor c = ensureObject (field c "head").
Proof. intros H. unfold head_descriptor, js_or. by rewrite H. Qed.

Lemma resolve_clickable_other c head k :
  k ≠ "clickable" → field (resolve_clickable c head) k = field c k.
Proof.
  intros Hk. unfold resolve_clickable, field.
  repeat case_match; try done; by rewrite lookup_insert_ne in * by done.
Qed.

(** ** What the row loader leaves alone *)

Lemma loader_frame_refl w : loader_frame w w.
Proof. by split. Qed.

Lemma loader_frame_trans w1 w2 w3 :
  loader_frame w1 w2 → loader_frame w2 w3 → loader_frame w1 w3.
Proof. intros [] []. split; congruence. Qed.

Lemma toggle_after_rows_frame t w : loader_frame w (toggle_after_rows t w).
Proof. unfold toggle_after_rows. repeat case_match; by split. Qed.

Lemma loader_return_frame tid r caller w :
  loader_frame w (loader_return tid r caller w).
Proof.
  unfold loader_return. destruct caller; [|by split].
  eapply loader_frame_trans; [|apply toggle_after_rows_frame]. by split.
Qed.

Lemma loader_throw_frame tid e caller w :
  loader_frame w (loader_throw tid e caller w).
Proof. unfold loader_throw. repeat case_match; by split. Qed.

Lemma join_complete_frame tid hs caller w :
  loader_frame w (join_complete tid hs caller w).
Proof.
  unfold join_complete.
  eapply loader_frame_trans; [|apply loader_return_frame]. by split.
Qed.

Lemma try_join_frame tid w : loader_frame w (try_join tid w).
Proof.
  unfold try_join. repeat case_match; try apply loader_frame_refl.
  apply join_complete_frame.
Qed.

Lemma load_rows_items_frame tid items caller w :
  loader_frame w (load_rows_items tid items caller w).
Proof.
  unfold load_rows_items.
  repeat case_match; try apply loader_throw_frame; try apply loader_frame_refl.
  eapply loader_frame_trans; [|apply try_join_frame]. by split.
Qed.

Lemma load_rows_group_frame tid head caller w :
  loader_frame w (load_rows_group tid head caller w).
Proof.
  unfold load_rows_group. case_match.
  - eapply loader_frame_trans; [|apply loader_throw_frame]. by split.
  - eapply loader_frame_trans; [|apply load_rows_items_frame]. by split.
Qed.

Lemma load_rows_frame caller w : loader_frame w (load_rows caller w).
Proof.
  unfold load_rows. cbn zeta.
  repeat case_match;
    (eapply loader_frame_trans;
     [| first [ apply loader_throw_frame | apply loader_return_frame
              | apply load_rows_group_frame | apply load_rows_items_frame
              | apply loader_frame_refl ] ]); by split.
Qed.

(** ** [_load_head] and [setConfig], unfolded *)

Lemma load_head_missing w :
  truthy (head_descriptor (c_config w)) = false →
  load_head w = emit (EUnhandled (JsError "No fold head specified")) w.
Proof. intros H. unfold load_head. by rewrite H. Qed.

Lemma load_head_present w :
  truthy (head_descriptor (c_config w)) = true →
  let head := head_descriptor (c_config w) in
  let c' := resolve_clickable (c_config w) head in
  load_head w
  = set_c_head (Some (length (heads w)))
      (spawn (ThCreateRow AwaitHelpers head (DHead (length (heads w))))
         (set_heads
            (heads w ++ [HPending (if truthy (field c' "clickable")
                                   then [CbSetup] else [])])
            (set_c_config c' w))).
Proof.
  intros H head c'. unfold load_head. rewrite H. cbn [negb]. cbn zeta.
  fold head. fold c'. cbn -[resolve_clickable head_descriptor field truthy].
  destruct (truthy (field c' "clickable")); [|reflexivity].
  unfold then_head. cbn -[resolve_clickable head_descriptor field truthy].
  rewrite lookup_at_length.
  unfold set_heads. cbn -[resolve_clickable head_descriptor field truthy].
  by rewrite insert_at_length.
Qed.

Lemma load_head_field w k :
  k ≠ "clickable" →
  field (c_config (load_head w)) k = field (c_config w) k.
Proof.
  intros Hk. destruct (truthy (head_descriptor (c_config w))) eqn:E.
  - rewrite load_head_present by done. simpl. by apply resolve_clickable_other.
  - by rewrite load_head_missing.
Qed.

Lemma load_head_rows w : c_rows (load_head w) = c_rows w.
Proof.
  destruct (truthy (head_descriptor (c_config w))) eqn:E.
  - by rewrite load_head_present.
  - by rewrite load_head_missing.
Qed.

Lemma load_head_open w : c_open (load_head w) = c_open w.
Proof.
  destruct (truthy (head_descriptor (c_config w))) eqn:E.
  - by rewrite load_head_present.
  - by rewrite load_head_missing.
Qed.

Lemma load_head_next_arr w : next_arr (load_head w) = next_arr w.
Proof.
  destruct (truthy (head_descriptor (c_config w))) eqn:E.
  - by rewrite load_head_present.
  - by rewrite load_head_missing.
Qed.

Lemma load_head_handles w : handles (load_head w) = handles w.
Proof.
  destruct (truthy (head_descriptor (c_config w))) eqn:E.
  - by rewrite load_head_present.
  - by rewrite load_head_missing.
Qed.

Lemma setConfig_unfold config w :
  setConfig config w
  = if truthy (field (c_config (reset_rows config w)) "open")
    then load_rows None (reset_rows config w) else reset_rows config w.
Proof. reflexivity. Qed.

Lemma reset_rows_open config w :
  field (c_config (reset_rows config w)) "open"
  = field (merge_config config) "open".
Proof. unfold reset_rows. simpl. by rewrite load_head_field. Qed.

Lemma reset_rows_rows config w :
  c_rows (reset_rows config w) = Some (mkRowArray (next_arr w) []).
Proof. unfold reset_rows. simpl. by rewrite load_head_next_arr. Qed.

Lemma setConfig_config config w :
  c_config (setConfig config w) = c_config (load_head (configured config w)).
Proof.
  rewrite setConfig_unfold. case_match; [|done].
  by rewrite (lf_config _ _ (load_rows_frame _ _)).
Qed.

Lemma setConfig_open config w :
  c_open (setConfig config w)
  = coalesce (coalesce (c_open w) (field (merge_config config) "open"))
      (VBool false).
Proof.
  rewrite setConfig_unfold.
  assert (c_open (reset_rows config w)
          = coalesce (coalesce (c_open w) (field (merge_config config) "open"))
              (VBool false)) as <-.
  { unfold reset_rows. simpl. by rewrite load_head_open. }
  case_match; [|done]. by rewrite (lf_open _ _ (load_rows_frame _ _)).
Qed.

(** ** [_load_rows], unfolded *)

Lemma load_rows_cached caller w arr :
  c_rows w = Some arr → arr_elems arr ≠ [] →
  load_rows caller w
  = loader_return (length (threads w)) (RRows arr) caller (spawn ThRunning w).
Proof.
  intros Hr Hne. unfold load_rows. cbn zeta. simpl. rewrite Hr.
  destruct (arr_elems arr) eqn:E; [done|]. reflexivity.
Qed.

Lemma loader_return_spawned r w :
  loader_return (length (threads w)) r None (spawn ThRunning w)
  = spawn (ThDone r) w.
Proof.
  unfold loader_return, set_thread, spawn. simpl.
  by rewrite insert_at_length.
Qed.

Lemma loader_throw_spawned e w :
  loader_throw (length (threads w)) e None (spawn ThRunning w)
  = emit (EUnhandled e) (spawn (ThFailed e) w).
Proof.
  unfold loader_throw, set_thread, spawn, emit. simpl.
  by rewrite insert_at_length.
Qed.

(** The loader past its guard, with a fold head to look at. *)
Lemma load_rows_uncached caller w a :
  c_rows w = Some (mkRowArray a []) →
  nullish (head_descriptor (c_config w)) = false →
  let tid := length (threads w) in
  let head := head_descriptor (c_config w) in
  let items := explicit_items (c_config w) in
  load_rows caller w
  = if truthy (get_own head "entity") && is_undefined items then
      if is_undefined (c_hass w) then
        set_thread tid (ThLoadRowsHass head caller)
          (set_c_hassResolve (Some tid) (spawn ThRunning w))
      else load_rows_group tid head caller (spawn ThRunning w)
    else load_rows_items tid items caller (spawn ThRunning w).
Proof.
  intros Hr Hh tid head items. unfold load_rows. cbn zeta. simpl.
  rewrite Hr. simpl. unfold get_prop. by rewrite Hh.
Qed.

(** The loader on a component without a fold head: [head.entity] is a
    property access on [undefined]. *)
Lemma load_rows_no_head w a :
  c_rows w = Some (mkRowArray a []) →
  nullish (head_descriptor (c_config w)) = true →
  load_rows None w
  = emit (EUnhandled JsTypeError) (spawn (ThFailed JsTypeError) w).
Proof.
  intros Hr Hh. unfold load_rows. cbn zeta. simpl. rewrite Hr. simpl.
  unfold get_prop. rewrite Hh. apply loader_throw_spawned.
Qed.

Lemma mapM_replicate_None {A} n :
  mapM id (replicate (S n) (@None A)) = None.
Proof. reflexivity. Qed.

(** Creating the rows of an item list, called by nobody who awaits it. *)
Lemma load_rows_items_array w l :
  load_rows_items (length (threads w)) (VArr l) None (spawn ThRunning w)
  = loading l w.
Proof.
  unfold load_rows_items, loading. simpl.
  unfold try_join, set_thread, spawn. simpl.
  rewrite <-app_assoc. simpl. rewrite insert_at_length, lookup_at_length.
  destruct l as [|i l].
  - simpl. unfold join_complete, loader_return, set_thread. simpl.
    by rewrite insert_at_length.
  - cbn [length]. by rewrite mapM_replicate_None.
Qed.

Lemma load_rows_threads_prefix w :
  ∃ new, threads (load_rows None w) = threads w ++ new.
Proof.
  unfold load_rows, load_rows_group, load_rows_items, try_join, join_complete,
    loader_throw, loader_return, spawn, set_thread, emit; simpl.
  repeat case_match; simpl;
    rewrite ?insert_at_length; try (eexists; reflexivity).
  all: rewrite <-?app_assoc in *; simpl in *;
    rewrite ?insert_at_length, ?lookup_at_length in *; simplify_eq.
  all: try (eexists; reflexivity).
Qed.

(** ** The fold head *)

(** C5: a configuration with neither [entity] nor [head] makes [setConfig]
    surface "No fold head specified" as the rejection of the unawaited
    [_load_head()], and nothing of a header is created: no header promise, no
    [_createRow] activation, no element (an eager row load then fails on
    [head.entity] as well).  When [entity] holds a value that counts as
    present for [||] (any entity id) the header descriptor is made from it,
    whatever [head] is; otherwise it is made from [head]. *)
Theorem missing_head_and_entity_priority (w : World) (config : JsVal) :
  let c := merge_config config in
  let w' := setConfig config w in
  (field (own_props config) "entity" = VUndef →
   field (own_props config) "head" = VUndef →
   let eager := truthy (field c "open") in
   trace w' = trace w ++ EUnhandled (JsError "No fold head specified")
                :: (if eager then [EUnhandled JsTypeError] else [])
   ∧ threads w' = threads w ++ (if eager then [ThFailed JsTypeError] else [])
   ∧ heads w' = heads w ∧ c_head w' = c_head w ∧ handles w' = handles w)
  ∧ (truthy (field (own_props config) "entity") = true →
     head_descriptor c = ensureObject (field (own_props config) "entity")
     ∧ c_head w' = Some (length (heads w))
     ∧ (∃ cbs, heads w' !! length (heads w) = Some (HPending cbs))
     ∧ threads w' !! length (threads w)
       = Some (ThCreateRow AwaitHelpers
                 (ensureObject (field (own_props config) "entity"))
                 (DHead (length (heads w)))))
  ∧ (truthy (field (own_props config) "entity") = false →
     head_descriptor c = ensureObject (field (own_props config) "head")).
Proof.
  intros c w'.
  assert (He : field c "entity" = field (own_props config) "entity")
    by (by apply merge_config_field_new).
  assert (Hh : field c "head" = field (own_props config) "head")
    by (by apply merge_config_field_new).
  split; [|split].
  - intros Hne Hnh eager.
    assert (Hd : head_descriptor c = VUndef).
    { unfold head_descriptor. by rewrite He, Hh, Hne, Hnh. }
    subst w'. rewrite setConfig_unfold, reset_rows_open. fold c eager.
    assert (Hr : reset_rows config w
                 = set_next_arr (S (next_arr w))
                     (set_c_rows (Some (mkRowArray (next_arr w) []))
                        (emit (EUnhandled (JsError "No fold head specified"))
                           (configured config w)))).
    { unfold reset_rows. rewrite load_head_missing; [done|].
      simpl. fold c. by rewrite Hd. }
    rewrite Hr. destruct eager.
    + erewrite load_rows_no_head; [| reflexivity | simpl; fold c; by rewrite Hd].
      simpl. rewrite <-app_assoc. done.
    + simpl. by rewrite app_nil_r.
  - intros Ht. rewrite <-He in Ht.
    pose proof (head_descriptor_entity c Ht) as Hd. rewrite He in Hd.
    split; [done|].
    assert (Htd : truthy (head_descriptor c) = true).
    { rewrite Hd, truthy_ensureObject, <-He, Ht. done. }
    subst w'. rewrite setConfig_unfold.
    assert (H2 : c_head (reset_rows config w) = Some (length (heads w))
                 ∧ (∃ cbs, heads (reset_rows config w) !! length (heads w)
                           = Some (HPending cbs))
                 ∧ threads (reset_rows config w)
                   = threads w ++ [ThCreateRow AwaitHelpers
                      (ensureObject (field (own_props config) "entity"))
                      (DHead (length (heads w)))]).
    { unfold reset_rows. rewrite load_head_present by done.
      simpl. fold c. rewrite Hd, lookup_at_length. eauto. }
    destruct H2 as (H2a & H2b & H2c).
    case_match.
    + pose proof (load_rows_frame None (reset_rows config w)) as F.
      rewrite (lf_head _ _ F), (lf_heads _ _ F).
      destruct (load_rows_threads_prefix (reset_rows config w)) as [new ->].
      rewrite H2c, <-app_assoc. simpl.
      by rewrite lookup_at_length.
    + rewrite H2c. by rewrite lookup_at_length.
  - intros Hf. rewrite <-He in Hf. rewrite <-Hh. by apply head_descriptor_head.
Qed.

(** C6: with [clickable] unset, the configuration resolved by [setConfig]
    has [clickable = true] exactly when the normalized head descriptor has
    neither an [entity] nor a [tap_action] field, and is otherwise left unset,
    which every test of it reads as false; so the head [{entity: "light.x"}]
    is not clickable and the head [{type: "section", label: "Y"}] is.  A
    [clickable] that is set is never overridden. *)
Theorem clickable_default (w : World) (config : JsVal) :
  let c := merge_config config in
  let head := head_descriptor c in
  let clickable' := field (c_config (setConfig config w)) "clickable" in
  (truthy head = true → field (own_props config) "clickable" = VUndef →
   (clickable' = VBool true
    ↔ get_own head "entity" = VUndef ∧ get_own head "tap_action" = VUndef)
   ∧ (clickable' ≠ VBool true → clickable' = VUndef))
  ∧ (field (own_props config) "clickable" ≠ VUndef →
     clickable' = field (own_props config) "clickable")
  ∧ (field (own_props config) "clickable" = VUndef →
     head = obj [("entity", VStr "light.x")] →
     truthy clickable' = false)
  ∧ (field (own_props config) "clickable" = VUndef →
     head = obj [("type", VStr "section"); ("label", VStr "Y")] →
     clickable' = VBool true).
Proof.
  intros c head clickable'.
  assert (Hc : field c "clickable" = field (own_props config) "clickable")
    by (by apply merge_config_field_new).
  assert (Hset : truthy head = true →
                 clickable' = field (resolve_clickable c head) "clickable").
  { intros Ht. subst clickable'. rewrite setConfig_config.
    by rewrite load_head_present. }
  assert (Hdef : truthy head = true →
                 field (own_props config) "clickable" = VUndef →
                 (clickable' = VBool true
                  ↔ get_own head "entity" = VUndef
                    ∧ get_own head "tap_action" = VUndef)
                 ∧ (clickable' ≠ VBool true → clickable' = VUndef)).
  { intros Ht Hu. rewrite (Hset Ht). unfold resolve_clickable.
    rewrite Hc, Hu. cbn [is_undefined].
    destruct (is_undefined (get_own head "entity")) eqn:E1;
      destruct (is_undefined (get_own head "tap_action")) eqn:E2;
      cbn [andb].
    - apply is_undefined_spec in E1, E2.
      unfold field. rewrite lookup_insert_eq. simpl. by repeat split.
    - rewrite Hc, Hu. split; [split|]; [done| |done].
      intros [_ H]. by rewrite H in E2.
    - rewrite Hc, Hu. split; [split|]; [done| |done].
      intros [H _]. by rewrite H in E1.
    - rewrite Hc, Hu. split; [split|]; [done| |done].
      intros [H _]. by rewrite H in E1. }
  split; [exact Hdef|]. split; [|split].
  - intros Hne. subst clickable'. rewrite setConfig_config.
    destruct (truthy head) eqn:Ht.
    + rewrite load_head_present by done. simpl. fold c head.
      unfold resolve_clickable. rewrite Hc.
      destruct (field (own_props config) "clickable"); done.
    + by rewrite load_head_missing.
  - intros Hu Hh.
    assert (Ht : truthy head = true) by (by rewrite Hh).
    rewrite (Hset Ht). unfold resolve_clickable. rewrite Hc, Hu, Hh.
    cbn [is_undefined]. replace (get_own _ "entity") with (VStr "light.x")
      by (vm_compute; reflexivity).
    cbn [is_undefined andb]. by rewrite Hc, Hu.
  - intros Hu Hh.
    assert (Ht : truthy head = true) by (by rewrite Hh).
    apply (Hdef Ht Hu). by rewrite Hh.
Qed.

(** ** Reconfiguration *)

(** C10: a repeated [setConfig] keeps the component's [open] when it is
    set and takes the new configuration's [open] (default [false]) only when
    it never was; whether the child rows are loaded at once depends on the new
    configuration's [open] alone.  So an open component reconfigured with
    [open = false] stays open with an empty child-row list, and the only
    activation that may have been started is the header's [_createRow]. *)
Theorem reconfigure_keeps_open (w : World) (config : JsVal) :
  let c := merge_config config in
  let w' := setConfig config w in
  (nullish (c_open w) = false → c_open w' = c_open w)
  ∧ (nullish (c_open w) = true →
     c_open w' = coalesce (field c "open") (VBool false))
  ∧ (truthy (field c "open") = true →
     w' = load_rows None (reset_rows config w))
  ∧ (truthy (field c "open") = false → w' = reset_rows config w)
  ∧ c_rows (reset_rows config w) = Some (mkRowArray (next_arr w) [])
  ∧ (c_open w = VBool true → truthy (field c "open") = false →
     c_open w' = VBool true
     ∧ c_rows w' = Some (mkRowArray (next_arr w) [])
     ∧ handles w' = handles w
     ∧ ∀ t, t ∈ drop (length (threads w)) (threads w') →
            ∃ head p, t = ThCreateRow AwaitHelpers head (DHead p)).
Proof.
  intros c w'. subst c w'.
  split; [|split; [|split; [|split; [|split]]]].
  - intros Hn. rewrite setConfig_open. unfold coalesce at 2. rewrite Hn.
    unfold coalesce. by rewrite Hn.
  - intros Hn. rewrite setConfig_open. unfold coalesce at 2. by rewrite Hn.
  - intros Ht. by rewrite setConfig_unfold, reset_rows_open, Ht.
  - intros Ht. by rewrite setConfig_unfold, reset_rows_open, Ht.
  - apply reset_rows_rows.
  - intros Ho Ht. rewrite setConfig_open, Ho.
    rewrite setConfig_unfold, reset_rows_open, Ht.
    split; [done|]. split; [apply reset_rows_rows|].
    unfold reset_rows. simpl. rewrite load_head_handles. split; [done|].
    intros t.
    destruct (truthy (head_descriptor (c_config (configured config w)))) eqn:E.
    + rewrite load_head_present by done. simpl.
      rewrite drop_app_length. intros ->%list_elem_of_singleton. eauto.
    + rewrite load_head_missing by done. simpl.
      rewrite drop_all. by intros ?%elem_of_nil.
Qed.

(** ** The source of the child items *)

Lemma load_rows_explicit w a l :
  c_rows w = Some (mkRowArray a []) →
  nullish (head_descriptor (c_config w)) = false →
  explicit_items (c_config w) = VArr l →
  load_rows None w = loading l w.
Proof.
  intros Hr Hh He. rewrite (load_rows_uncached None w a Hr Hh), He.
  cbn [is_undefined]. rewrite andb_false_r. apply load_rows_items_array.
Qed.

(** C3: an explicitly empty [entities] list (or, with [entities] absent, an
    explicitly empty [items] list) is the item source: the loader caches a new
    empty array and is done; it creates no waiter for [hass], reads no group
    and starts no [_createRow], whatever the next sources hold. *)
Theorem empty_list_is_a_source (w : World) (a : nat) :
  c_rows w = Some (mkRowArray a []) →
  nullish (head_descriptor (c_config w)) = false →
  field (c_config w) "entities" = VArr []
  ∨ (truthy (field (c_config w) "entities") = false
     ∧ field (c_config w) "items" = VArr []) →
  load_rows None w
  = set_next_arr (S (next_arr w))
      (set_c_rows (Some (mkRowArray (next_arr w) []))
         (spawn (ThDone RUndef) w)).
Proof.
  intros Hr Hh Hsrc.
  rewrite (load_rows_explicit w a [] Hr Hh); [done|].
  unfold explicit_items, js_or.
  destruct Hsrc as [He|[Hf Hi]]; [by rewrite He|by rewrite Hf].
Qed.

(** ** Rejected item sources *)


(** ** The cache of child rows *)

(** C2, as stated, fails on an empty item list: the first call caches a new
    empty array and so does the second, which returns [undefined]. *)
Lemma second_load_of_empty_list_differs :
  ¬ second_load_returns_cache empty_fold.
Proof.
  intros (arr & H1 & H2 & _). vm_compute in H1, H2. congruence.
Qed.

(** C2 (amended): once the cache holds at least one handle, a further call
    of the loader returns that very array and changes nothing else: the cached
    list stays in place, no [_createRow] is started and the row factory is not
    called.  While the cache is empty the call resolves the item source again;
    when that is an explicit empty list it caches another new empty array and
    returns [undefined], again without a call of the row factory. *)
Theorem cached_rows_are_returned (w : World) (arr : RowArray) :
  c_rows w = Some arr →
  (arr_elems arr ≠ [] → load_rows None w = spawn (ThDone (RRows arr)) w)
  ∧ (arr_elems arr = [] →
     nullish (head_descriptor (c_config w)) = false →
     explicit_items (c_config w) = VArr [] →
     let w' := load_rows None w in
     c_rows w' = Some (mkRowArray (next_arr w) [])
     ∧ threads w' = threads w ++ [ThDone RUndef]
     ∧ trace w' = trace w ∧ handles w' = handles w).
Proof.
  intros Hr. split.
  - intros Hne. rewrite (load_rows_cached None w arr Hr Hne).
    apply loader_return_spawned.
  - intros He Hh Hi w'. subst w'. destruct arr as [a elems].
    simpl in He. subst elems.
    rewrite (load_rows_uncached None w a Hr Hh), Hi.
    cbn [is_undefined]. rewrite andb_false_r.
    by rewrite load_rows_items_array.
Qed.

(** ** Pushing the shared context *)

Lemma el_set_hass_idem v e : el_set_hass v (el_set_hass v e) = el_set_hass v e.
Proof. reflexivity. Qed.

Lemma el_set_hass_self e : el_set_hass (el_hass e) e = e.
Proof. by destruct e. Qed.

Lemma length_push_handles v hs els :
  length (push_handles v hs els) = length els.
Proof.
  revert els. induction hs as [|h hs IH]; intros els; [done|].
  simpl. fold (push_handles v hs (alter (el_set_hass v) h els)).
  by rewrite IH, length_alter.
Qed.

Lemma push_handles_lookup v hs els h :
  push_handles v hs els !! h
  = (if decide (h ∈ hs) then el_set_hass v else id) <$> els !! h.
Proof.
  revert els. induction hs as [|h0 hs IH]; intros els.
  - simpl. by destruct (els !! h).
  - simpl. fold (push_handles v hs (alter (el_set_hass v) h0 els)).
    rewrite IH. destruct (decide (h = h0)) as [->|Hne].
    + rewrite list_lookup_alter_eq.
      destruct (decide (h0 ∈ h0 :: hs)) as [_|Hn];
        [|by destruct Hn; left].
      by destruct (els !! h0), (decide (h0 ∈ hs)).
    + rewrite list_lookup_alter_ne by done.
      destruct (decide (h ∈ hs)) as [Hin|Hn], (decide (h ∈ h0 :: hs))
        as [Hin'|Hn']; try done.
      * by destruct Hn'; right.
      * apply elem_of_cons in Hin' as [?|?]; done.
Qed.

(** [rows.forEach((e) => (e.hass = this.hass))], all at once. *)
Lemma push_all hs w :
  foldl (fun w h => push_hass h w) w hs
  = set_trace (trace w ++ ((fun h => ESetHass h (c_hass w)) <$> hs))
      (set_handles (push_handles (c_hass w) hs (handles w)) w).
Proof.
  revert w. induction hs as [|h hs IH]; intros w.
  - simpl. rewrite app_nil_r. by destruct w.
  - simpl. rewrite IH. unfold push_hass, emit, update_handle. simpl.
    by rewrite <-app_assoc.
Qed.

(** ** Loaders that wait for the shared context stay suspended *)

Lemma kw_refl w : keeps_waiting w w.
Proof. by intros tid t. Qed.

Lemma kw_trans w1 w2 w3 :
  keeps_waiting w1 w2 → keeps_waiting w2 w3 → keeps_waiting w1 w3.
Proof. intros H1 H2 tid t Ht Hw. eauto. Qed.

Lemma kw_threads w w' : threads w' = threads w → keeps_waiting w w'.
Proof. intros E tid t. by rewrite E. Qed.

Lemma kw_app w w' new :
  threads w' = threads w ++ new → keeps_waiting w w'.
Proof. intros E tid t Ht _. rewrite E. by apply lookup_app_l_Some. Qed.

Lemma kw_set_thread tid t w :
  not_waiting_at w tid → keeps_waiting w (set_thread tid t w).
Proof.
  intros Hn tid' t' Ht Hw. unfold set_thread. simpl.
  rewrite list_lookup_insert_ne; [done|].
  intros ->. specialize (Hn _ Ht). congruence.
Qed.

Lemma nwa_lookup w tid t :
  threads w !! tid = Some t → is_waiting t = false → not_waiting_at w tid.
Proof. intros Ht Hw t' Ht'. congruence. Qed.

Lemma nwa_threads w w' tid :
  threads w' = threads w → not_waiting_at w tid → not_waiting_at w' tid.
Proof. intros E H t. rewrite E. apply H. Qed.

Lemma kw_set_thread_of tid t w w1 :
  threads w1 = threads w → not_waiting_at w tid →
  keeps_waiting w (set_thread tid t w1).
Proof.
  intros E Hn. eapply (kw_trans _ w1); [by apply kw_threads|].
  apply kw_set_thread. by eapply nwa_threads.
Qed.

Lemma nwa_fresh w (tid : nat) :
  (length (threads w) ≤ tid)%nat → not_waiting_at w tid.
Proof. intros Hl t Ht. apply lookup_lt_Some in Ht. lia. Qed.

Ltac kw_mid :=
  lazymatch goal with
  | |- keeps_waiting ?w (?f ?w1) => eapply (kw_trans w w1)
  end.

Lemma kw_toggle_after_rows t w : keeps_waiting w (toggle_after_rows t w).
Proof.
  unfold toggle_after_rows. repeat case_match; try apply kw_refl.
  eapply kw_trans; [|apply kw_set_thread]; [by apply kw_threads|].
  by eapply nwa_lookup.
Qed.

Lemma kw_loader_return tid r caller w :
  not_waiting_at w tid → keeps_waiting w (loader_return tid r caller w).
Proof.
  intros Hn. unfold loader_return.
  destruct caller; [eapply kw_trans; [|apply kw_toggle_after_rows]|];
    by apply kw_set_thread.
Qed.

Lemma kw_loader_throw tid e caller w :
  not_waiting_at w tid → keeps_waiting w (loader_throw tid e caller w).
Proof.
  intros Hn. unfold loader_throw. cbn zeta.
  set (w1 := set_thread tid (ThFailed e) w).
  assert (H1 : keeps_waiting w w1) by (by apply kw_set_thread).
  eapply kw_trans; [exact H1|]. clearbody w1.
  eapply (kw_trans _ (match caller with Some t => _ | None => _ end));
    [|by apply kw_threads].
  destruct caller as [t|]; [|apply kw_refl].
  destruct (threads w1 !! t) as [[]|] eqn:Ht; try apply kw_refl.
  apply kw_set_thread. by eapply nwa_lookup.
Qed.

Lemma kw_join_complete tid hs caller w :
  not_waiting_at w tid → keeps_waiting w (join_complete tid hs caller w).
Proof.
  intros Hn. unfold join_complete.
  eapply kw_trans; [|apply kw_loader_return]; [by apply kw_threads|done].
Qed.

Lemma kw_try_join tid w : keeps_waiting w (try_join tid w).
Proof.
  unfold try_join. repeat case_match; try apply kw_refl.
  apply kw_join_complete. by eapply nwa_lookup.
Qed.

Lemma kw_fill_slot tid idx h w : keeps_waiting w (fill_slot tid idx h w).
Proof.
  unfold fill_slot. repeat case_match; try apply kw_refl.
  eapply kw_trans; [|apply kw_try_join].
  apply kw_set_thread. by eapply nwa_lookup.
Qed.

Lemma row_threads_not_waiting tid l t :
  t ∈ row_threads tid l → is_waiting t = false.
Proof.
  unfold row_threads. intros (k & Hk)%list_elem_of_lookup.
  rewrite list_lookup_imap in Hk. destruct (l !! k); by simplify_eq/=.
Qed.

Lemma kw_load_rows_items tid items caller w :
  not_waiting_at w tid → keeps_waiting w (load_rows_items tid items caller w).
Proof.
  intros Hn. unfold load_rows_items.
  repeat case_match; try (by apply kw_loader_throw); try apply kw_refl.
  eapply kw_trans; [|apply kw_try_join].
  match goal with
  | |- keeps_waiting _ (set_thread _ _ ?w1) =>
      eapply (kw_trans _ w1); [by eapply kw_app|]
  end.
  apply kw_set_thread. simpl. intros t Ht.
  apply lookup_app_Some in Ht as [Ht|[_ Ht]]; [by apply Hn|].
  eapply row_threads_not_waiting, list_elem_of_lookup_2, Ht.
Qed.

Lemma kw_load_rows_group tid head caller w :
  not_waiting_at w tid → keeps_waiting w (load_rows_group tid head caller w).
Proof.
  intros Hn. unfold load_rows_group. cbn zeta.
  set (w1 := set_c_hassResolve None w).
  assert (H1 : keeps_waiting w w1) by (by apply kw_threads).
  assert (Hn1 : not_waiting_at w1 tid) by (by eapply nwa_threads).
  eapply kw_trans; [exact H1|]. clearbody w1.
  case_match; [by apply kw_loader_throw|by apply kw_load_rows_items].
Qed.

Lemma kw_load_rows caller w : keeps_waiting w (load_rows caller w).
Proof.
  unfold load_rows. cbn zeta.
  assert (Hs : keeps_waiting w (spawn ThRunning w)) by (by eapply kw_app).
  assert (Hn : not_waiting_at (spawn ThRunning w) (length (threads w))).
  { eapply nwa_lookup; [apply lookup_at_length|done]. }
  eapply kw_trans; [exact Hs|].
  repeat case_match;
    try (by apply kw_loader_throw); try (by apply kw_loader_return);
    try (by apply kw_load_rows_group); try (by apply kw_load_rows_items).
  by apply kw_set_thread_of.
Qed.

Lemma kw_toggle_aria t h w :
  not_waiting_at w t → keeps_waiting w (toggle_aria t h w).
Proof.
  intros Hn. unfold toggle_aria. by apply kw_set_thread_of.
Qed.

Lemma kw_toggle_await_head t w :
  not_waiting_at w t → keeps_waiting w (toggle_await_head t w).
Proof.
  intros Hn. unfold toggle_await_head.
  repeat case_match; try (by apply kw_toggle_aria).
  - by apply kw_set_thread_of.
  - eapply (kw_trans _ (set_thread t (ThFailed JsTypeError) w));
      [by apply kw_set_thread|by apply kw_threads].
  - eapply (kw_trans _ (set_thread t (ThFailed JsTypeError) w));
      [by apply kw_set_thread|by apply kw_threads].
Qed.

Lemma kw_toggle_commit t b w :
  not_waiting_at w t → keeps_waiting w (toggle_commit t b w).
Proof.
  intros Hn. unfold toggle_commit. cbn zeta.
  case_match.
  - match goal with
    | |- keeps_waiting _ (toggle_await_head _ ?w1) =>
        assert (E : threads w1 = threads w) by (by destruct b);
        eapply (kw_trans _ w1); [by apply kw_threads|]
    end.
    apply kw_toggle_await_head. by eapply nwa_threads.
  - apply kw_set_thread_of; [by destruct b|done].
Qed.

Lemma kw_run_head_cb h w cb : keeps_waiting w (run_head_cb h w cb).
Proof.
  destruct cb; simpl.
  - by eapply kw_app.
  - by apply kw_threads.
  - repeat case_match; try apply kw_refl.
    apply kw_toggle_aria. by eapply nwa_lookup.
Qed.

Lemma kw_foldl_head_cb h cbs w :
  keeps_waiting w (foldl (run_head_cb h) w cbs).
Proof.
  revert w. induction cbs as [|cb cbs IH]; intros w; [apply kw_refl|].
  simpl. eapply kw_trans; [apply kw_run_head_cb|apply IH].
Qed.

Lemma kw_resolve_head p h w : keeps_waiting w (resolve_head p h w).
Proof.
  unfold resolve_head. repeat case_match; try apply kw_refl.
  eapply kw_trans; [|apply kw_foldl_head_cb]. by apply kw_threads.
Qed.

Lemma kw_then_head p cb w : keeps_waiting w (then_head p cb w).
Proof.
  unfold then_head.
  destruct (heads w !! p) as [[cbs|h]|]; [|apply kw_run_head_cb|apply kw_refl].
  by apply kw_threads.
Qed.

Lemma kw_create_row_finish tid config d w :
  not_waiting_at w tid → keeps_waiting w (create_row_finish tid config d w).
Proof.
  intros Hn. unfold create_row_finish. cbn zeta.
  match goal with
  | |- keeps_waiting _ (match d with DHead p => resolve_head p ?h ?w1
                                   | DRow l i => fill_slot l i ?h' ?w2 end) =>
      assert (keeps_waiting w w1) as Hk
  end.
  { apply kw_set_thread_of; [by case_match|done]. }
  destruct d; (eapply kw_trans; [exact Hk|]);
    [apply kw_resolve_head|apply kw_fill_slot].
Qed.

Lemma kw_head_setup_finish tid h b w :
  not_waiting_at w tid → keeps_waiting w (head_setup_finish tid h b w).
Proof.
  intros Hn. unfold head_setup_finish. by apply kw_set_thread_of.
Qed.

Lemma kw_load_head w : keeps_waiting w (load_head w).
Proof.
  destruct (truthy (head_descriptor (c_config w))) eqn:E.
  - rewrite load_head_present by done. by eapply kw_app.
  - rewrite load_head_missing by done. by apply kw_threads.
Qed.

(** Only an assignment of [hass] wakes a loader that waits for it. *)
Lemma kw_step w ev :
  (∀ v, ev ≠ EvSetHass v) → keeps_waiting w (step w ev).
Proof.
  intros Hev. destruct ev as [config|v| | | |tid|]; simpl.
  - rewrite setConfig_unfold.
    assert (keeps_waiting w (reset_rows config w)) as Hr.
    { unfold reset_rows. eapply kw_trans; [|by apply kw_threads].
      eapply kw_trans; [|apply kw_load_head]. by apply kw_threads. }
    case_match; [|done]. eapply kw_trans; [exact Hr|apply kw_load_rows].
  - by destruct (Hev v).
  - unfold toggle. cbn zeta.
    eapply kw_trans; [by eapply (kw_app _ (spawn ThRunning w))|].
    case_match.
    + eapply kw_trans; [|apply kw_load_rows].
      apply kw_set_thread_of; [done|].
      eapply nwa_lookup; [apply lookup_at_length|done].
    + kw_mid; [by apply kw_threads|]. apply kw_toggle_commit.
      eapply nwa_lookup; [apply lookup_at_length|done].
  - apply kw_load_rows.
  - by apply kw_threads.
  - unfold external. repeat case_match; try apply kw_refl.
    + apply kw_set_thread. by eapply nwa_lookup.
    + apply kw_create_row_finish. by eapply nwa_lookup.
    + apply kw_set_thread. by eapply nwa_lookup.
    + apply kw_head_setup_finish. by eapply nwa_lookup.
    + apply kw_head_setup_finish. by eapply nwa_lookup.
  - unfold timer. repeat case_match; try apply kw_refl; try (by apply kw_threads).
    match goal with
    | |- keeps_waiting _ (toggle_commit _ _ ?w1) =>
        eapply (kw_trans _ w1); [by apply kw_threads|]
    end.
    apply kw_toggle_commit. by eapply nwa_lookup.
Qed.

(** ** What the loader adds to the trace *)

Lemma ro_refl w : rejects_only w w.
Proof. exists []. by rewrite app_nil_r. Qed.

Lemma ro_same w w' : trace w' = trace w → rejects_only w w'.
Proof. intros E. exists []. by rewrite app_nil_r. Qed.

Lemma ro_trans w1 w2 w3 :
  rejects_only w1 w2 → rejects_only w2 w3 → rejects_only w1 w3.
Proof.
  intros (r1 & E1 & F1) (r2 & E2 & F2). exists (r1 ++ r2).
  split; [by rewrite E2, E1, app_assoc|by apply Forall_app].
Qed.

Lemma ro_toggle_after_rows t w : rejects_only w (toggle_after_rows t w).
Proof. unfold toggle_after_rows. repeat case_match; by apply ro_same. Qed.

Lemma ro_loader_return tid r caller w :
  rejects_only w (loader_return tid r caller w).
Proof.
  unfold loader_return. destruct caller; [|by apply ro_same].
  eapply ro_trans; [|apply ro_toggle_after_rows]. by apply ro_same.
Qed.

Lemma ro_loader_throw tid e caller w :
  rejects_only w (loader_throw tid e caller w).
Proof.
  exists [EUnhandled e]. split; [|by repeat constructor; eauto].
  unfold loader_throw. simpl. by repeat case_match.
Qed.

Lemma ro_try_join tid w : rejects_only w (try_join tid w).
Proof.
  unfold try_join, join_complete. repeat case_match; try apply ro_refl.
  eapply ro_trans; [|apply ro_loader_return]. by apply ro_same.
Qed.

Lemma ro_load_rows_items tid items caller w :
  rejects_only w (load_rows_items tid items caller w).
Proof.
  unfold load_rows_items.
  repeat case_match; try apply ro_loader_throw; try apply ro_refl.
  eapply ro_trans; [|apply ro_try_join]. by apply ro_same.
Qed.

Lemma ro_load_rows_group tid head caller w :
  rejects_only w (load_rows_group tid head caller w).
Proof.
  unfold load_rows_group. cbn zeta.
  case_match; (eapply ro_trans; [|first [apply ro_loader_throw
                                        |apply ro_load_rows_items]]);
    by apply ro_same.
Qed.

Lemma load_rows_group_hassResolve tid head caller w :
  c_hassResolve (load_rows_group tid head caller w) = None.
Proof.
  unfold load_rows_group, load_rows_items, loader_throw, try_join,
    join_complete, loader_return, toggle_after_rows.
  simpl. repeat case_match; reflexivity.
Qed.

(** ** The loader that was waiting goes on *)

Lemma set_thread_lookup tid t w :
  tid < length (threads w) → threads (set_thread tid t w) !! tid = Some t.
Proof. intros H. by apply list_lookup_insert_eq. Qed.

Lemma toggle_after_rows_lookup t tid x w :
  threads w !! tid = Some x → x ≠ ThToggleRows →
  threads (toggle_after_rows t w) !! tid = Some x.
Proof.
  intros Hx Hne. unfold toggle_after_rows.
  destruct (threads w !! t) as [[]|] eqn:Ht; try done.
  simpl. rewrite list_lookup_insert_ne; [done|]. intros ->. congruence.
Qed.

Lemma loader_return_lookup tid r caller w :
  tid < length (threads w) →
  threads (loader_return tid r caller w) !! tid = Some (ThDone r).
Proof.
  intros Hl. unfold loader_return. cbn zeta.
  destruct caller as [t|]; [|by apply set_thread_lookup].
  apply toggle_after_rows_lookup; [by apply set_thread_lookup|done].
Qed.

Lemma loader_throw_lookup tid e caller w :
  tid < length (threads w) →
  threads (loader_throw tid e caller w) !! tid = Some (ThFailed e).
Proof.
  intros Hl. unfold loader_throw. cbn zeta.
  pose proof (set_thread_lookup tid (ThFailed e) w Hl) as Hs.
  set (w1 := set_thread tid (ThFailed e) w) in *. clearbody w1.
  change (threads (emit ?x ?y)) with (threads y).
  destruct caller as [t|]; [|exact Hs].
  destruct (threads w1 !! t) as [[]|] eqn:Ht; try exact Hs.
  simpl. rewrite list_lookup_insert_ne; [exact Hs|]. intros ->. congruence.
Qed.

Lemma load_rows_items_resumes tid items caller w :
  tid < length (threads w) →
  ∃ t, threads (load_rows_items tid items caller w) !! tid = Some t
       ∧ is_waiting t = false.
Proof.
  intros Hl. unfold load_rows_items.
  destruct items as [| |b|n|s|l|m]; cbn [is_undefined is_array negb];
    rewrite ?orb_true_r;
    try (eexists; split; [by apply loader_throw_lookup|done]).
  cbn [truthy negb orb].
  set (w1 := set_threads _ w).
  set (t1 := ThLoadRowsAll _ _).
  assert (Hs : threads (set_thread tid t1 w1) !! tid = Some t1).
  { apply set_thread_lookup. subst w1. simpl. rewrite length_app. lia. }
  unfold try_join. rewrite Hs. subst t1. cbn match.
  destruct (mapM id _) as [hs|]; [|by eexists].
  unfold join_complete. exists (ThDone RUndef). split; [|reflexivity].
  apply loader_return_lookup. subst w1. simpl.
  rewrite length_insert, length_app. lia.
Qed.

Lemma load_rows_group_resumes tid head caller w :
  tid < length (threads w) →
  ∃ t, threads (load_rows_group tid head caller w) !! tid = Some t
       ∧ is_waiting t = false.
Proof.
  intros Hl. unfold load_rows_group. cbn zeta. case_match.
  - eexists. split; [by apply loader_throw_lookup|done].
  - by apply load_rows_items_resumes.
Qed.

(** ** [updated] after an assignment of [hass] *)

Lemma then_head_push p w :
  then_head p CbPushHass w
  = match heads w !! p with
    | Some (HResolved h) => push_hass h w
    | Some (HPending cbs) =>
        set_heads (<[p := HPending (cbs ++ [CbPushHass])]> (heads w)) w
    | None => w
    end.
Proof. unfold then_head. by repeat case_match. Qed.

Lemma updated_hass_unfold w :
  updated_hass w
  = match c_hassResolve (pushed w) with
    | Some tid =>
        match threads (pushed w) !! tid with
        | Some (ThLoadRowsHass head caller) =>
            load_rows_group tid head caller (pushed w)
        | _ => pushed w
        end
    | None => pushed w
    end.
Proof. reflexivity. Qed.

Lemma pushed_spec w :
  let w1 := pushed w in
  handles w1
  = push_handles (c_hass w) (resolved_head w)
      (push_handles (c_hass w) (cached_rows w) (handles w))
  ∧ trace w1
    = trace w ++ ((fun h => ESetHass h (c_hass w))
                    <$> (cached_rows w ++ resolved_head w))
  ∧ threads w1 = threads w ∧ c_hassResolve w1 = c_hassResolve w
  ∧ c_head w1 = c_head w ∧ c_hass w1 = c_hass w ∧ c_rows w1 = c_rows w
  ∧ heads w1
    = match c_head w with
      | Some p =>
          match heads w !! p with
          | Some (HPending cbs) =>
              <[p := HPending (cbs ++ [CbPushHass])]> (heads w)
          | _ => heads w
          end
      | None => heads w
      end.
Proof.
  unfold pushed, cached_rows, resolved_head. cbn zeta.
  set (w0 := match c_rows w with Some rows => _ | None => w end).
  assert (H0 : w0 = set_trace
                      (trace w ++ ((fun h => ESetHass h (c_hass w))
                                     <$> cached_rows w))
                      (set_handles
                         (push_handles (c_hass w) (cached_rows w) (handles w))
                         w)).
  { subst w0. unfold cached_rows. destruct (c_rows w) as [rows|].
    - apply push_all.
    - simpl. rewrite app_nil_r. by destruct w. }
  clearbody w0. subst w0. unfold cached_rows. simpl.
  destruct (c_head w) as [p|] eqn:Ehd; simpl.
  - rewrite then_head_push. simpl.
    destruct (heads w !! p) as [[cbs|h]|]; simpl;
      rewrite ?fmap_app, ?app_nil_r, ?app_assoc; done.
  - by rewrite app_nil_r.
Qed.

(** The header promises that are fulfilled stay so, with the same element. *)
Lemma pushed_resolved w p h :
  heads w !! p = Some (HResolved h) → heads (pushed w) !! p = Some (HResolved h).
Proof.
  intros Hp. destruct (pushed_spec w) as (_ & _ & _ & _ & _ & _ & _ & ->).
  destruct (c_head w) as [p'|]; [|done].
  destruct (heads w !! p') as [[cbs|h']|] eqn:E; try done.
  rewrite list_lookup_insert_ne; [done|]. intros ->. congruence.
Qed.

Lemma updated_hass_frame w :
  loader_frame (pushed w) (updated_hass w)
  ∧ rejects_only (pushed w) (updated_hass w).
Proof.
  rewrite updated_hass_unfold.
  destruct (c_hassResolve (pushed w)) as [tid|];
    [|split; [apply loader_frame_refl|apply ro_refl]].
  destruct (threads (pushed w) !! tid) as [[]|];
    try (split; [apply loader_frame_refl|apply ro_refl]).
  split; [apply load_rows_group_frame|apply ro_load_rows_group].
Qed.

(** A reaction [head => head.hass = this.hass] left on a pending header
    promise writes the context of the day to the element it is given. *)
Lemma resolve_head_pushes p h cbs w :
  heads w !! p = Some (HPending cbs) → CbPushHass ∈ cbs →
  ∀ e, handles (resolve_head p h w) !! h = Some e → el_hass e = c_hass w.
Proof.
  intros Hp Hin. unfold resolve_head. rewrite Hp.
  set (w1 := set_heads _ w).
  change (c_hass w) with (c_hass w1). clearbody w1. clear Hp.
  assert (Hkeep : ∀ cbs w2,
            (∀ e, handles w2 !! h = Some e → el_hass e = c_hass w2) →
            c_hass (foldl (run_head_cb h) w2 cbs) = c_hass w2
            ∧ ∀ e, handles (foldl (run_head_cb h) w2 cbs) !! h = Some e →
                   el_hass e = c_hass w2).
  { clear. intros cbs. induction cbs as [|cb cbs IH]; intros w2 Hq; [done|].
    simpl.
    assert (c_hass (run_head_cb h w2 cb) = c_hass w2
            ∧ ∀ e, handles (run_head_cb h w2 cb) !! h = Some e →
                   el_hass e = c_hass w2) as [Hc Hq'].
    { destruct cb as [| |t]; simpl; [done| |].
      - split; [done|]. intros e. rewrite list_lookup_alter_eq.
        destruct (handles w2 !! h); by intros [= <-].
      - destruct (threads w2 !! t) as [[]|]; try done.
        split; [done|]. simpl. intros e. rewrite list_lookup_alter_eq.
        destruct (handles w2 !! h) as [e0|] eqn:E; intros [= <-].
        simpl. by apply Hq. }
    rewrite <-Hc in Hq'. destruct (IH _ Hq') as [IH1 IH2].
    by rewrite IH1, Hc in *. }
  revert w1. induction cbs as [|cb cbs IH]; intros w1; [by apply elem_of_nil in Hin|].
  simpl. apply elem_of_cons in Hin as [<-|Hin].
  - apply (proj2 (Hkeep cbs (push_hass h w1)
                    ltac:(simpl; intros e; rewrite list_lookup_alter_eq;
                          destruct (handles w1 !! h); by intros [= <-]))).
  - intros e He. rewrite (IH Hin _ e He).
    destruct cb as [| |t]; simpl; try done. by repeat case_match.
Qed.

(** A change of [hass], as [updated] handles it: the value is written to
    every cached child row and to the header element once each, in that
    order; a header promise still pending gets one more reaction, which
    writes the value to the element when it arrives.  Nothing else is written
    to an element, the row factory is not called, every element is the one it
    was up to its [hass] slot, [this.head] and the fulfilled header promises
    are unchanged, and so is [this.rows] unless a waiting loader goes on.  A
    loader waiting for the context is resumed and the waiter is cleared. *)
Lemma updated_pushes_hass (w : World) (v : JsVal) :
  let w' := updated_hass (set_c_hass v w) in
  let targets := cached_rows w ++ resolved_head w in
  c_hass w' = v
  ∧ (∀ h e, h ∈ targets → handles w' !! h = Some e → el_hass e = v)
  ∧ (∃ rest, trace w' = trace w ++ ((fun h => ESetHass h v) <$> targets) ++ rest
             ∧ Forall (fun x => ∃ e, x = EUnhandled e) rest)
  ∧ (length (handles w') = length (handles w)
     ∧ ∀ h e', handles w' !! h = Some e' →
               ∃ e, handles w !! h = Some e ∧ e' = el_set_hass (el_hass e') e)
  ∧ (c_head w' = c_head w
     ∧ (∀ p h, heads w !! p = Some (HResolved h) →
               heads w' !! p = Some (HResolved h))
     ∧ (c_hassResolve w = None → c_rows w' = c_rows w))
  ∧ (∀ p cbs, c_head w = Some p → heads w !! p = Some (HPending cbs) →
       heads w' !! p = Some (HPending (cbs ++ [CbPushHass]))
       ∧ ∀ h e, handles (resolve_head p h w') !! h = Some e →
                el_hass e = v)
  ∧ (∀ tid head caller, c_hassResolve w = Some tid →
       threads w !! tid = Some (ThLoadRowsHass head caller) →
       c_hassResolve w' = None
       ∧ ∃ t, threads w' !! tid = Some t ∧ is_waiting t = false).
Proof.
  intros w' targets. subst w'.
  set (w0 := set_c_hass v w).
  destruct (pushed_spec w0)
    as (Hh & Ht & Hth & Hres & Hhd & Hha & Hrows & Hheads).
  destruct (updated_hass_frame w0) as [F (rest & Hrest & Hrej)].
  change (c_hass w0) with v in *. change (handles w0) with (handles w) in *.
  change (cached_rows w0) with (cached_rows w) in *.
  change (resolved_head w0) with (resolved_head w) in *.
  change (trace w0) with (trace w) in *. change (heads w0) with (heads w) in *.
  change (c_head w0) with (c_head w) in *.
  change (threads w0) with (threads w) in *.
  change (c_hassResolve w0) with (c_hassResolve w) in *.
  change (c_rows w0) with (c_rows w) in *.
  assert (Hlook : ∀ h, handles (updated_hass w0) !! h
            = (if decide (h ∈ resolved_head w) then el_set_hass v else id)
              <$> ((if decide (h ∈ cached_rows w) then el_set_hass v else id)
                   <$> handles w !! h)).
  { intros h. by rewrite (lf_handles _ _ F), Hh, !push_handles_lookup. }
  split; [by rewrite (lf_hass _ _ F)|].
  split.
  { intros h e Hin. rewrite Hlook.
    destruct (handles w !! h) as [e0|]; [|done]. simpl.
    apply elem_of_app in Hin.
    destruct (decide (h ∈ resolved_head w)), (decide (h ∈ cached_rows w));
      try (by intros [= <-]). by destruct Hin. }
  split.
  { exists rest. split; [|done]. by rewrite Hrest, Ht, <-app_assoc. }
  split.
  { split.
    - by rewrite (lf_handles _ _ F), Hh, !length_push_handles.
    - intros h e'. rewrite Hlook.
      destruct (handles w !! h) as [e0|]; [|done]. simpl.
      intros [= <-]. exists e0. split; [done|].
      destruct (decide (h ∈ resolved_head w)), (decide (h ∈ cached_rows w));
        simpl; by destruct e0. }
  split.
  { split; [by rewrite (lf_head _ _ F)|]. split.
    - intros p h Hp. rewrite (lf_heads _ _ F). by apply pushed_resolved.
    - intros Hnone. rewrite updated_hass_unfold, Hres, Hnone. done. }
  split.
  { intros p cbs Hc Hp.
    assert (Hp' : heads (updated_hass w0) !! p
                  = Some (HPending (cbs ++ [CbPushHass]))).
    { rewrite (lf_heads _ _ F), Hheads, Hc, Hp.
      apply list_lookup_insert_eq. by eapply lookup_lt_Some. }
    split; [done|]. intros h e He.
    rewrite (resolve_head_pushes p h _ _ Hp' ltac:(set_solver) e He).
    by rewrite (lf_hass _ _ F). }
  intros tid head caller Hr Hw.
  rewrite updated_hass_unfold, Hres, Hr, Hth, Hw.
  split; [apply load_rows_group_hassResolve|].
  apply load_rows_group_resumes. rewrite Hth. by eapply lookup_lt_Some.
Qed.

(** ** Assignments of [hass] and the update cycle *)

Lemma assign_all_component vs : ∀ r v,
  component (assign_all (vs ++ [v]) r) = set_c_hass v (component r).
Proof.
  induction vs as [|x vs IH]; intros r v; [done|].
  change (assign_all ((x :: vs) ++ [v]) r)
    with (assign_all (vs ++ [v]) (assign_hass x r)).
  by rewrite IH.
Qed.

Lemma assign_all_changed vs : ∀ r,
  changed_hass (assign_all vs r)
  = changed_hass r || changes (c_hass (component r)) vs.
Proof.
  induction vs as [|x vs IH]; intros r; [by rewrite orb_false_r|].
  change (assign_all (x :: vs) r) with (assign_all vs (assign_hass x r)).
  rewrite IH. simpl. by rewrite orb_assoc.
Qed.

Lemma update_cycle_unchanged r :
  changed_hass r = false ∨ size (c_config (component r)) = 0 →
  update_cycle r = mkReactive (component r) false.
Proof.
  intros H. unfold update_cycle, render.
  destruct (decide (size (c_config (component r)) = 0)); [done|].
  destruct H as [->|]; done.
Qed.

Lemma update_cycle_changed r :
  changed_hass r = true → size (c_config (component r)) ≠ 0 →
  update_cycle r = mkReactive (updated_hass (component r)) false.
Proof.
  intros Hc Hs. unfold update_cycle, render.
  destruct (decide (size (c_config (component r)) = 0)); [done|].
  by rewrite Hc.
Qed.

(** The turn [EvSetHass v] is an assignment of [v] that is a change, and the
    update cycle after it. *)
Lemma change_then_cycle w v b :
  differs (c_hass w) v = true → size (c_config w) ≠ 0 →
  update_cycle (assign_hass v (mkReactive w b))
  = mkReactive (step w (EvSetHass v)) false.
Proof.
  intros Hd Hs. rewrite update_cycle_changed; [done| |done].
  simpl. rewrite Hd. apply orb_true_r.
Qed.

(** C9: assignments of [hass] store the value and note the change; it is
    the update cycle that pushes, once for all the assignments made since the
    last one.  When one of them was a change and the component has a
    configuration to render, [updated] writes the value assigned last to
    every cached child row and to the header element once each, in that
    order; a header promise still pending gets one more reaction, which
    writes that value to the element when it arrives.  Nothing else is
    written to an element, the row factory is not called, every element is
    the one it was up to its [hass] slot, [this.head] and the fulfilled
    header promises are unchanged, and so is [this.rows] unless a waiting
    loader goes on; a loader waiting for the context is resumed and the
    waiter is cleared.  When no assignment was a change, or [render] throws
    for want of a configuration, nothing is pushed and nothing resumed.  No
    assignment by itself, and no other turn, resumes a waiting loader. *)
Theorem hass_update_is_propagated (r : Reactive) (vs : list JsVal)
    (v : JsVal) :
  let w := component r in
  let r1 := assign_all (vs ++ [v]) r in
  let w' := component (update_cycle r1) in
  let targets := cached_rows w ++ resolved_head w in
  component r1 = set_c_hass v w
  ∧ changed_hass r1 = changed_hass r || changes (c_hass w) (vs ++ [v])
  ∧ changed_hass (update_cycle r1) = false
  ∧ (changed_hass r1 = false ∨ size (c_config w) = 0 → w' = set_c_hass v w)
  ∧ (changed_hass r1 = true → size (c_config w) ≠ 0 →
     c_hass w' = v
     ∧ (∀ h e, h ∈ targets → handles w' !! h = Some e → el_hass e = v)
     ∧ (∃ rest,
          trace w' = trace w ++ ((fun h => ESetHass h v) <$> targets) ++ rest
          ∧ Forall (fun x => ∃ e, x = EUnhandled e) rest)
     ∧ (length (handles w') = length (handles w)
        ∧ ∀ h e', handles w' !! h = Some e' →
                  ∃ e, handles w !! h = Some e
                       ∧ e' = el_set_hass (el_hass e') e)
     ∧ (c_head w' = c_head w
        ∧ (∀ p h, heads w !! p = Some (HResolved h) →
                  heads w' !! p = Some (HResolved h))
        ∧ (c_hassResolve w = None → c_rows w' = c_rows w))
     ∧ (∀ p cbs, c_head w = Some p → heads w !! p = Some (HPending cbs) →
          heads w' !! p = Some (HPending (cbs ++ [CbPushHass]))
          ∧ ∀ h e, handles (resolve_head p h w') !! h = Some e →
                   el_hass e = v)
     ∧ (∀ tid head caller, c_hassResolve w = Some tid →
          threads w !! tid = Some (ThLoadRowsHass head caller) →
          c_hassResolve w' = None
          ∧ ∃ t, threads w' !! tid = Some t ∧ is_waiting t = false))
  ∧ keeps_waiting w (component r1)
  ∧ (∀ ev, (∀ v', ev ≠ EvSetHass v') → keeps_waiting w (step w ev)).
Proof.
  intros w r1 w' targets.
  assert (H1 : component r1 = set_c_hass v w) by apply assign_all_component.
  split; [done|]. split; [apply assign_all_changed|].
  split.
  { unfold update_cycle. by destruct (render (component r1)). }
  split.
  { intros H. subst w'. rewrite update_cycle_unchanged; [done|].
    by rewrite H1. }
  split.
  { intros Hc Hs. subst w'.
    rewrite update_cycle_changed by (by rewrite ?H1).
    cbn [component]. rewrite H1. apply updated_pushes_hass. }
  split; [|apply kw_step].
  rewrite H1. by apply kw_threads.
Qed.

(** ** The order of the child rows *)

Lemma mapM_id_None_at (slots : list (option nat)) k :
  slots !! k = Some None → mapM id slots = None.
Proof.
  intros Hk. destruct (mapM id slots) as [hs|] eqn:E; [|done].
  apply mapM_Some in E.
  destruct (Forall2_lookup_l _ _ _ _ _ E Hk) as (h & _ & Hh). done.
Qed.

Lemma row_threads_lookup L l k item :
  l !! k = Some item →
  row_threads L l !! k
  = Some (ThCreateRow AwaitHelpers (ensureObject item) (DRow L k)).
Proof. intros Hk. unfold row_threads. by rewrite list_lookup_imap, Hk. Qed.

(** Right after validation every row is two promises before its end. *)
Lemma join_inv_loading w l :
  l ≠ [] →
  join_inv (c_config w) (parentCard w) (length (threads w)) l (fun _ => 2)
    (loading l w).
Proof.
  intros Hne. unfold loading. destruct l as [|i l]; [done|].
  split; [done|]. split; [done|].
  exists (replicate (length (i :: l)) None).
  split; [by rewrite length_replicate|]. split.
  - intros k item Hk. exists None. split.
    + apply lookup_replicate_2. by eapply lookup_lt_Some.
    + split; [done|]. simpl threads.
      rewrite lookup_app_r by lia.
      replace (S (length (threads w)) + k - length (threads w)) with (S k)
        by lia.
      simpl. by apply (row_threads_lookup _ (i :: l)).
  - cbn [length]. rewrite mapM_replicate_None. simpl.
    by rewrite lookup_at_length.
Qed.

(** The end of the [_createRow] of a child row whose loader awaits the
    [Promise.all]: a new element, made from the effective config, fills the
    row's slot, and the loader caches the array once no slot is empty. *)
Lemma create_row_finish_row tid config L k w slots :
  tid ≠ L → threads w !! L = Some (ThLoadRowsAll slots None) →
  let h := length (handles w) in
  let slots' := <[k := Some h]> slots in
  let w' := create_row_finish tid config (DRow L k) w in
  c_config w' = c_config w ∧ parentCard w' = parentCard w
  ∧ (∃ el, handles w' = handles w ++ [el]
           ∧ el_config el
             = row_config (c_config w) (parentCard w) false config)
  ∧ (∀ t, t ≠ tid → t ≠ L → threads w' !! t = threads w !! t)
  ∧ match mapM id slots' with
    | Some hs =>
        c_rows w' = Some (mkRowArray (next_arr w) hs)
        ∧ threads w' !! L = Some (ThDone RUndef)
    | None =>
        c_rows w' = c_rows w
        ∧ threads w' !! L = Some (ThLoadRowsAll slots' None)
    end.
Proof.
  intros Hne HL h slots' w'. subst w'.
  unfold create_row_finish. cbn zeta. cbn [is_head].
  set (el := mkElement _ _ _ _ _ _ _).
  set (w1 := set_thread tid _ _).
  assert (H1 : c_config w1 = c_config w ∧ parentCard w1 = parentCard w
               ∧ handles w1 = handles w ++ [el] ∧ c_rows w1 = c_rows w
               ∧ next_arr w1 = next_arr w
               ∧ threads w1 = <[tid := ThDone (RHandle h)]> (threads w)).
  { subst w1. by case_match. }
  destruct H1 as (Hc & Hp & Hh & Hr & Hn & Ht). clearbody w1.
  assert (HL1 : threads w1 !! L = Some (ThLoadRowsAll slots None)).
  { by rewrite Ht, list_lookup_insert_ne. }
  assert (HLlt : L < length (threads w1)) by (by eapply lookup_lt_Some).
  unfold fill_slot. rewrite HL1. fold slots'.
  unfold try_join. rewrite set_thread_lookup by done.
  subst slots' h. destruct (mapM id _) as [hs|].
  - unfold join_complete, loader_return. simpl.
    rewrite Hc, Hp, Hh, Hn. repeat split; eauto.
    + intros t Ht1 Ht2.
      rewrite !list_lookup_insert_ne by done. rewrite Ht.
      by rewrite list_lookup_insert_ne.
    + rewrite list_lookup_insert_eq; [done|]. by rewrite length_insert.
  - simpl. rewrite Hc, Hp, Hh, Hr. repeat split; eauto.
    + intros t Ht1 Ht2.
      rewrite list_lookup_insert_ne by done. rewrite Ht.
      by rewrite list_lookup_insert_ne.
    + by rewrite list_lookup_insert_eq.
Qed.

Lemma row_state_mono c pc L w w' k item cnt slot :
  (∀ h e, handles w !! h = Some e → handles w' !! h = Some e) →
  threads w' !! (S L + k) = threads w !! (S L + k) →
  row_state c pc L w k item cnt slot → row_state c pc L w' k item cnt slot.
Proof.
  intros Hh Ht. unfold row_state.
  destruct cnt as [|[|[|]]]; [|by rewrite Ht..|done].
  intros (h & e & ? & ? & ?). eauto 6.
Qed.

(** One external promise of row [k0] is fulfilled. *)
Lemma join_inv_step c pc L l cnt w k0 :
  k0 < length l → cnt k0 ≠ 0 →
  join_inv c pc L l cnt w →
  join_inv c pc L l (fun k => if decide (k = k0) then pred (cnt k) else cnt k)
    (external (S L + k0) w).
Proof.
  intros Hk0 Hcnt (Hc & Hpc & slots & Hlen & Hrows & Hloader).
  destruct (lookup_lt_is_Some_2 l k0 Hk0) as [item0 Hitem0].
  destruct (Hrows k0 item0 Hitem0) as (slot0 & Hslot0 & Hst0).
  unfold row_state in Hst0.
  destruct (cnt k0) as [|[|[|n]]] eqn:Ecnt; [done| | |done].
  - (* the row ends *)
    destruct Hst0 as [-> Hth0].
    pose proof (mapM_id_None_at _ _ Hslot0) as Hnone.
    rewrite Hnone in Hloader.
    unfold external. rewrite Hth0.
    destruct (create_row_finish_row (S L + k0) (ensureObject item0) L k0 w
                slots ltac:(lia) Hloader)
      as (Hc' & Hp' & (el & Hh' & Hel) & Hth' & Hjoin).
    set (w' := create_row_finish _ _ _ w) in *. clearbody w'.
    split; [congruence|]. split; [congruence|].
    exists (<[k0 := Some (length (handles w))]> slots).
    split; [by rewrite length_insert|].
    split.
    { intros k item Hitem. destruct (decide (k = k0)) as [->|Hne].
      + exists (Some (length (handles w))). split.
        * apply list_lookup_insert_eq. lia.
        * rewrite Ecnt. simpl. exists (length (handles w)), el.
          split; [done|]. split; [by rewrite Hh', lookup_at_length|].
          rewrite Hel, Hc, Hpc. congruence.
      + destruct (Hrows k item Hitem) as (slot & Hslot & Hst).
        exists slot. split; [by rewrite list_lookup_insert_ne|].
        eapply (row_state_mono _ _ _ w); [| |exact Hst].
        * intros h e He. rewrite Hh'. by apply lookup_app_l_Some.
        * apply Hth'; lia. }
    revert Hjoin.
    destruct (mapM id (<[k0:=Some (length (handles w))]> slots));
      intros [? ?]; eauto.
  - (* the row goes on to its second await *)
    destruct Hst0 as [-> Hth0].
    unfold external. rewrite Hth0.
    split; [done|]. split; [done|].
    exists slots. split; [done|]. split.
    + intros k item Hitem. destruct (decide (k = k0)) as [->|Hne].
      * exists None. split; [done|]. rewrite Ecnt. simpl. split; [done|].
        replace item with item0 by congruence.
        apply list_lookup_insert_eq. by eapply lookup_lt_Some.
      * destruct (Hrows k item Hitem) as (slot & Hslot & Hst).
        exists slot. split; [done|].
        eapply (row_state_mono _ _ _ w); [done| |exact Hst].
        simpl. apply list_lookup_insert_ne. lia.
    + destruct (mapM id slots).
      * destruct Hloader as [Hr HL]. split; [done|]. simpl.
        rewrite list_lookup_insert_ne by lia. done.
      * simpl. rewrite list_lookup_insert_ne by lia. done.
Qed.

Lemma join_inv_ext c pc L l cnt cnt' w :
  (∀ k, cnt k = cnt' k) → join_inv c pc L l cnt w → join_inv c pc L l cnt' w.
Proof.
  intros E (Hc & Hpc & slots & Hlen & Hrows & Hloader).
  split; [done|]. split; [done|]. exists slots. split; [done|].
  split; [|done]. intros k item Hk. rewrite <-E. by apply Hrows.
Qed.

(** The promises of the rows are fulfilled in the order [s]. *)
Lemma join_inv_run c pc L l s : ∀ w,
  (∀ x, x ∈ s → ∃ k, k < length l ∧ x = S L + k) →
  join_inv c pc L l (fun k => count_occ Nat.eq_dec s (S L + k)) w →
  join_inv c pc L l (fun _ => 0) (run w (EvExternal <$> s)).
Proof.
  induction s as [|x s IH]; intros w Hs Hinv; [done|].
  destruct (Hs x ltac:(left)) as (k0 & Hk0 & ->).
  cbn [fmap list_fmap run foldl step]. apply IH.
  - intros y Hy. apply Hs. by right.
  - assert (Hpos : count_occ Nat.eq_dec (S L + k0 :: s) (S L + k0) ≠ 0)
      by (by rewrite count_occ_cons_eq).
    pose proof (join_inv_step c pc L l
                  (fun k => count_occ Nat.eq_dec (S L + k0 :: s) (S L + k))
                  w k0 Hk0 Hpos Hinv) as Hst.
    eapply join_inv_ext; [|exact Hst].
    intros k. cbn beta. destruct (decide (k = k0)) as [->|Hne].
    + by rewrite count_occ_cons_eq.
    + rewrite count_occ_cons_neq; [done|lia].
Qed.

Lemma join_inv_done c pc L l w :
  join_inv c pc L l (fun _ => 0) w → rows_match c pc l w.
Proof.
  intros (Hc & Hpc & slots & Hlen & Hrows & Hloader).
  assert (Hall : ∀ k slot, slots !! k = Some slot → is_Some slot).
  { intros k slot Hk.
    destruct (lookup_lt_is_Some_2 l k) as [item Hitem].
    { rewrite <-Hlen. by eapply lookup_lt_Some. }
    destruct (Hrows k item Hitem) as (slot' & Hk' & h & e & -> & _).
    rewrite Hk in Hk'. injection Hk' as ->. eauto. }
  destruct (mapM id slots) as [hs|] eqn:E.
  - destruct Hloader as [[a Hr] _]. exists a, hs. split; [done|].
    apply mapM_Some in E.
    apply Forall2_same_length_lookup. split.
    { rewrite <-Hlen. symmetry. by eapply Forall2_length. }
    intros k h item Hh Hitem.
    destruct (Hrows k item Hitem) as (slot & Hk & h' & e & -> & He & Hcfg).
    destruct (Forall2_lookup_l _ _ _ _ _ E Hk) as (h'' & Hh'' & Heq).
    simpl in Heq. rewrite Hh in Hh''. simplify_eq. eauto.
  - assert (is_Some (mapM id slots)) as [? ?]; [|congruence].
    apply mapM_is_Some, Forall_lookup. intros k slot Hk. by eapply Hall.
Qed.

Lemma schedule_of_rows (L n : nat) (sched : list nat) :
  sched ≡ₚ seq (S L) n ++ seq (S L) n →
  (∀ x, x ∈ sched → ∃ k, k < n ∧ x = S L + k)
  ∧ ∀ k, k < n → count_occ Nat.eq_dec sched (S L + k) = 2.
Proof.
  intros Hp. split.
  - intros x Hx. rewrite Hp in Hx.
    assert (x ∈ seq (S L) n) as Hin by (apply elem_of_app in Hx; tauto).
    apply elem_of_seq in Hin. exists (x - S L). lia.
  - intros k Hk.
    rewrite (proj1 (Permutation_count_occ Nat.eq_dec _ _) Hp).
    rewrite count_occ_app.
    assert (count_occ Nat.eq_dec (seq (S L) n) (S L + k) = 1) as ->; [|done].
    apply NoDup_count_occ'; [apply seq_NoDup|]. apply in_seq. lia.
Qed.

(** C7: whatever the order in which the external promises of the
    concurrent [_createRow] calls are fulfilled, the array the loader caches
    holds one element per item, the [k]-th made from the effective config of
    the [k]-th item; so with [entities = [x, y, z]] and a factory that ends
    [z] before [x] before [y] the rows are still those of [x], [y], [z]. *)
Theorem rows_keep_item_order (w : World) (a : nat) (l : list JsVal)
    (sched : list nat) :
  c_rows w = Some (mkRowArray a []) →
  nullish (head_descriptor (c_config w)) = false →
  explicit_items (c_config w) = VArr l →
  let L := length (threads w) in
  sched ≡ₚ seq (S L) (length l) ++ seq (S L) (length l) →
  let w' := run (load_rows None w) (EvExternal <$> sched) in
  rows_match (c_config w) (parentCard w) l w'
  ∧ length (cached_rows w') = length l.
Proof.
  intros Hr Hh He L Hp w'. subst w'.
  rewrite (load_rows_explicit w a l Hr Hh He).
  assert (Hm : rows_match (c_config w) (parentCard w) l
                 (run (loading l w) (EvExternal <$> sched))).
  { destruct l as [|i l].
    - apply Permutation_nil_r in Hp as ->. simpl.
      exists (next_arr w), []. by split.
    - destruct (schedule_of_rows L _ sched Hp) as [Hs Hcnt].
      apply (join_inv_done _ _ L), join_inv_run; [done|].
      pose proof (join_inv_loading w (i :: l) ltac:(done)) as Hinv.
      destruct Hinv as (Hc & Hpc & slots & Hlen & Hrows & Hloader).
      split; [done|]. split; [done|]. exists slots. split; [done|].
      split; [|done]. intros k item Hk.
      rewrite Hcnt by (by eapply lookup_lt_Some). by apply Hrows. }
  split; [done|]. destruct Hm as (a' & hs & Hrows & Hf).
  unfold cached_rows. rewrite Hrows. simpl. by eapply Forall2_length.
Qed.

Lemma lookup_after_length {A} (l : list A) (x y : A) (r : list A) :
  (l ++ x :: y :: r) !! S (length l) = Some y.
Proof.
  rewrite (lookup_app_r l) by lia.
  by replace (S (length l) - length l) with 1 by lia.
Qed.

Lemma insert_after_length {A} (l : list A) (x y z : A) (r : list A) :
  <[S (length l) := z]> (l ++ x :: y :: r) = l ++ x :: z :: r.
Proof.
  replace (S (length l)) with (length l + 1) by lia.
  by rewrite insert_app_r.
Qed.

(** The loader of a single item, run to its end. *)
Lemma single_row_run_world w item :
  let L := length (threads w) in
  let h := length (handles w) in
  let config := row_config (c_config w) (parentCard w) false
                  (ensureObject item) in
  let el := mkElement config (if truthy (c_hass w) then c_hass w else VUndef)
              None None None None Unbound in
  run (loading [item] w) [EvExternal (S L); EvExternal (S L)]
  = set_next_arr (S (next_arr w))
      (set_c_rows (Some (mkRowArray (next_arr w) [h]))
         (set_threads (threads w ++ [ThDone RUndef; ThDone (RHandle h)])
            (set_trace
               (trace w ++ EFactory config h
                  :: (if truthy (c_hass w) then [ESetHass h (c_hass w)]
                      else []))
               (set_handles (handles w ++ [el]) w)))).
Proof.
  intros L h config el. subst L. unfold loading, row_threads.
  cbn [length replicate imap app run foldl step].
  unfold external at 2. cbn [threads set_threads].
  rewrite lookup_after_length. unfold set_thread.
  cbn [threads set_threads]. rewrite insert_after_length.
  unfold external. cbn [threads set_threads].
  rewrite lookup_after_length.
  unfold create_row_finish. cbn zeta. cbn [is_head].
  fold config h. unfold fill_slot, set_thread, emit.
  cbn [c_hass set_handles set_trace set_threads threads].
  destruct (truthy (c_hass w)) eqn:Eh;
    cbn [c_hass set_handles set_trace set_threads threads];
    rewrite insert_after_length, lookup_at_length;
    cbn [threads set_threads]; rewrite insert_at_length;
    unfold try_join; cbn [threads set_threads];
    rewrite lookup_at_length; cbn [list_insert insert mapM];
    unfold join_complete, loader_return, set_thread; simpl;
    rewrite insert_at_length, <-?app_assoc; reflexivity.
Qed.

(** One call of the row factory, with the effective config of that item,
    and one cached row. *)
Lemma single_row_run w item :
  let L := length (threads w) in
  let h := length (handles w) in
  let config := row_config (c_config w) (parentCard w) false
                  (ensureObject item) in
  let w' := run (loading [item] w) [EvExternal (S L); EvExternal (S L)] in
  c_rows w' = Some (mkRowArray (next_arr w) [h])
  ∧ (∃ el, handles w' = handles w ++ [el] ∧ el_config el = config)
  ∧ trace w'
    = trace w ++ EFactory config h
        :: (if truthy (c_hass w) then [ESetHass h (c_hass w)] else []).
Proof.
  intros L h config w'. subst w'. rewrite single_row_run_world.
  simpl. eauto.
Qed.

(** ** The members of the head's group *)

Lemma truthy_get_own_not_nullish v k :
  truthy (get_own v k) = true → nullish v = false.
Proof. by destruct v. Qed.

Lemma load_rows_of_group caller w a :
  c_rows w = Some (mkRowArray a []) →
  truthy (get_own (head_descriptor (c_config w)) "entity") = true →
  explicit_items (c_config w) = VUndef →
  load_rows caller w
  = if is_undefined (c_hass w) then
      set_thread (length (threads w))
        (ThLoadRowsHass (head_descriptor (c_config w)) caller)
        (set_c_hassResolve (Some (length (threads w))) (spawn ThRunning w))
    else load_rows_group (length (threads w)) (head_descriptor (c_config w))
           caller (spawn ThRunning w).
Proof.
  intros Hr He Hi.
  rewrite (load_rows_uncached caller w a Hr)
    by (by eapply truthy_get_own_not_nullish).
  by rewrite He, Hi.
Qed.

Lemma group_members_unfold hass head :
  group_members hass head
  = if nullish hass then inl JsTypeError
    else if nullish (get_own hass "states") then inl JsTypeError
    else inr (opt_get
                (opt_get
                   (get_own (get_own hass "states")
                      (to_string (get_own head "entity")))
                   "attributes")
                "entity_id").
Proof.
  unfold group_members, get_prop.
  destruct (nullish hass); [done|].
  by destruct (nullish (get_own hass "states")).
Qed.

(** C1: the loader takes its items from [entities] when that is a list,
    else from [items] when [entities] is absent (or falsy) and [items] is a
    list, else, when [items] is absent too and the head names an entity [s],
    from the members of that group as [hass] has them, that is from
    [hass.states[s].attributes.entity_id] (line 109); while [hass] is not
    there it waits for it, as the one waiter.  In each case the [_createRow]
    activations the loader starts are exactly those of that one list, in
    order, whatever the other sources hold; with an explicit list [hass] is
    not read and no waiter is set.  With [entities = [a]] and [items = [b]]
    the only child row requested is the one of [a]: run to its end the loader
    has called the row factory once, with the effective config of [a], and
    caches that one element. *)
Theorem item_source_priority (w : World) (a : nat) (l : list JsVal) :
  c_rows w = Some (mkRowArray a []) →
  nullish (head_descriptor (c_config w)) = false →
  let c := c_config w in
  let head := head_descriptor c in
  let L := length (threads w) in
  (field c "entities" = VArr l → load_rows None w = loading l w)
  ∧ (truthy (field c "entities") = false → field c "items" = VArr l →
     load_rows None w = loading l w)
  ∧ (truthy (field c "entities") = false → field c "items" = VUndef →
     ∀ s, get_own head "entity" = VStr s → s ≠ "" →
     (c_hass w = VUndef →
      load_rows None w
      = set_thread L (ThLoadRowsHass head None)
          (set_c_hassResolve (Some L) (spawn ThRunning w)))
     ∧ (nullish (c_hass w) = false →
        nullish (get_own (c_hass w) "states") = false →
        opt_get
          (opt_get (get_own (get_own (c_hass w) "states") s) "attributes")
          "entity_id" = VArr l →
        load_rows None w = loading l (set_c_hassResolve None w)))
  ∧ (∀ ea eb, field c "entities" = VArr [ea] → field c "items" = VArr [eb] →
     let h := length (handles w) in
     let config := row_config c (parentCard w) false (ensureObject ea) in
     let w' := run (load_rows None w) [EvExternal (S L); EvExternal (S L)] in
     drop L (threads (load_rows None w))
     = [ThLoadRowsAll [None] None;
        ThCreateRow AwaitHelpers (ensureObject ea) (DRow L 0)]
     ∧ cached_rows w' = [h]
     ∧ (∃ el, handles w' = handles w ++ [el] ∧ el_config el = config)
     ∧ trace w'
       = trace w ++ EFactory config h
           :: (if truthy (c_hass w) then [ESetHass h (c_hass w)] else [])).
Proof.
  intros Hr Hh c head L.
  pose proof (λ l', load_rows_explicit w a l' Hr Hh) as Hexp. fold c in Hexp.
  split; [|split; [|split]].
  - intros He. apply Hexp. unfold explicit_items, js_or. by rewrite He.
  - intros Hf Hi. apply Hexp. unfold explicit_items, js_or. by rewrite Hf.
  - intros Hf Hi s Hs Hne.
    assert (Ht : truthy (get_own head "entity") = true).
    { rewrite Hs. simpl. apply negb_true_iff. by apply String.eqb_neq. }
    assert (Hx : explicit_items c = VUndef)
      by (unfold explicit_items, js_or; by rewrite Hf).
    rewrite (load_rows_of_group None w a Hr Ht Hx). fold c head L. split.
    + by intros ->.
    + intros Hn1 Hn2 Hm.
      destruct (is_undefined (c_hass w)) eqn:Eh.
      { apply is_undefined_spec in Eh. by rewrite Eh in Hn1. }
      unfold load_rows_group. cbn zeta.
      change (c_hass (set_c_hassResolve None (spawn ThRunning w)))
        with (c_hass w).
      rewrite group_members_unfold, Hn1, Hn2, Hs. cbn [to_string].
      rewrite Hm. apply (load_rows_items_array (set_c_hassResolve None w)).
  - intros ea eb He _ h config w'. subst w' L. rewrite (Hexp [ea]).
    + split; [unfold loading; simpl; by rewrite drop_app_length|].
      destruct (single_row_run w ea) as (Hrows & Hel & Htr).
      unfold cached_rows. rewrite Hrows. done.
    + unfold explicit_items, js_or. by rewrite He.
Qed.

(** ** Changes that are none of [toggle]'s business *)

















(** No reaction of [T] is pending unless [T] awaits the header. *)
Lemma toggle_inv_no_ref w0 w p cbs th :
  toggle_inv w0 w → threads w !! length (threads w0) = Some th →
  th ≠ ThToggleHead → heads w !! p = Some (HPending cbs) →
  CbToggleAria (length (threads w0)) ∉ cbs.
Proof.
  intros [C _] Hth Hne Hp Hin.
  destruct (ti_refs _ _ C p cbs _ Hp Hin) as [_ HT].
  destruct (HT eq_refl) as [_ HT']. congruence.
Qed.














(** ** The toggle from its start to its end *)

Lemma settledb_spec w : settledb w = true → settled w.
Proof.
  unfold settledb. intros [Hq Hh]%andb_true_iff.
  rewrite forallb_forall in Hq, Hh. repeat split.
  - intros t th Ht. apply list_elem_of_lookup_2, list_elem_of_In, Hq in Ht.
    by apply negb_true_iff.
  - intros p h Hp. apply list_elem_of_lookup_2, list_elem_of_In, Hh in Hp.
    by apply Nat.ltb_lt.
  - intros p cbs t Hp Hin.
    apply list_elem_of_lookup_2, list_elem_of_In, Hh in Hp.
    rewrite forallb_forall in Hp. apply list_elem_of_In, Hp in Hin.
    by apply Nat.ltb_lt.
Qed.








Lemma toggle_await_head_open t w : c_open (toggle_await_head t w) = c_open w.
Proof. unfold toggle_await_head, toggle_aria. by repeat case_match. Qed.

Lemma toggle_commit_open t b w : c_open (toggle_commit t b w) = VBool b.
Proof.
  unfold toggle_commit. cbn zeta.
  case_match; [by rewrite toggle_await_head_open|done].
Qed.




(** ** Instances *)

Lemma missing_head_and_entity_priority_witness :
  trace (setConfig (obj [("entities", VArr [VStr "light.a"])])
           (fresh VUndef 0 false))
  = [EUnhandled (JsError "No fold head specified")]
  ∧ threads (setConfig (obj [("entity", VStr "light.x");
                             ("head", obj [("type", VStr "section")])])
               (fresh VUndef 0 false)) !! 0
    = Some (ThCreateRow AwaitHelpers (obj [("entity", VStr "light.x")])
              (DHead 0)).
Proof.
  split.
  - destruct (missing_head_and_entity_priority (fresh VUndef 0 false)
                (obj [("entities", VArr [VStr "light.a"])])) as [H _].
    destruct H as [H _]; [reflexivity|reflexivity|exact H].
  - destruct (missing_head_and_entity_priority (fresh VUndef 0 false)
                (obj [("entity", VStr "light.x");
                      ("head", obj [("type", VStr "section")])]))
      as (_ & H & _).
    destruct H as (_ & _ & _ & H); [reflexivity|exact H].
Defined.

Lemma item_source_priority_witness :
  load_rows None fold_ab = loading [VStr "light.a"] fold_ab
  ∧ cached_rows
      (run (load_rows None fold_ab)
         [EvExternal (S (length (threads fold_ab)));
          EvExternal (S (length (threads fold_ab)))])
    = [length (handles fold_ab)]
  ∧ load_rows None fold_group_known
    = loading [VStr "light.a"; VStr "light.b"]
        (set_c_hassResolve None fold_group_known)
  ∧ c_hassResolve (load_rows None fold_group)
    = Some (length (threads fold_group)).
Proof.
  destruct (item_source_priority fold_ab 0 [VStr "light.a"]
              ltac:(vm_compute; reflexivity) ltac:(vm_compute; reflexivity))
    as (H1 & _ & _ & H4).
  split; [|split; [|split]].
  - apply H1. vm_compute. reflexivity.
  - destruct (H4 (VStr "light.a") (VStr "light.b")
                ltac:(vm_compute; reflexivity) ltac:(vm_compute; reflexivity))
      as (_ & H & _).
    exact H.
  - destruct (item_source_priority fold_group_known 0
                [VStr "light.a"; VStr "light.b"]
                ltac:(vm_compute; reflexivity) ltac:(vm_compute; reflexivity))
      as (_ & _ & H3 & _).
    destruct (H3 ltac:(vm_compute; reflexivity) ltac:(vm_compute; reflexivity)
                "group.lights" ltac:(vm_compute; reflexivity)
                ltac:(discriminate)) as [_ H].
    apply H; vm_compute; reflexivity.
  - destruct (item_source_priority fold_group 0 []
                ltac:(vm_compute; reflexivity) ltac:(vm_compute; reflexivity))
      as (_ & _ & H3 & _).
    destruct (H3 ltac:(vm_compute; reflexivity) ltac:(vm_compute; reflexivity)
                "group.lights" ltac:(vm_compute; reflexivity)
                ltac:(discriminate)) as [H _].
    rewrite H by (vm_compute; reflexivity). reflexivity.
Defined.

Lemma cached_rows_are_returned_witness :
  load_rows None fold_ab_loaded
  = spawn (ThDone (RRows (mkRowArray 1 [0]))) fold_ab_loaded
  ∧ c_rows (load_rows None empty_fold)
    = Some (mkRowArray (next_arr empty_fold) []).
Proof.
  split.
  - apply (cached_rows_are_returned fold_ab_loaded (mkRowArray 1 [0])
             ltac:(vm_compute; reflexivity)).
    discriminate.
  - apply (cached_rows_are_returned empty_fold (mkRowArray 0 [])
             ltac:(vm_compute; reflexivity)).
    + reflexivity.
    + vm_compute. reflexivity.
    + vm_compute. reflexivity.
Defined.

Lemma empty_list_is_a_source_witness :
  load_rows None empty_fold
  = set_next_arr (S (next_arr empty_fold))
      (set_c_rows (Some (mkRowArray (next_arr empty_fold) []))
         (spawn (ThDone RUndef) empty_fold)).
Proof.
  apply (empty_list_is_a_source empty_fold 0).
  - vm_compute. reflexivity.
  - vm_compute. reflexivity.
  - left. vm_compute. reflexivity.
Defined.


Lemma clickable_default_witness :
  truthy (field (c_config (setConfig (obj [("entity", VStr "light.x")])
                              (fresh VUndef 0 false))) "clickable") = false
  ∧ field (c_config (setConfig (obj [("head", section_head)])
                       (fresh VUndef 0 false))) "clickable" = VBool true.
Proof.
  split.
  - destruct (clickable_default (fresh VUndef 0 false)
                (obj [("entity", VStr "light.x")])) as (_ & _ & H & _).
    apply H; vm_compute; reflexivity.
  - destruct (clickable_default (fresh VUndef 0 false)
                (obj [("head", section_head)])) as (_ & _ & _ & H).
    apply H; vm_compute; reflexivity.
Defined.

Lemma reconfigure_keeps_open_witness :
  c_open (setConfig
            (obj [("head", section_head); ("entities", VArr [VStr "light.a"]);
                  ("open", VBool false)]) fold_open) = VBool true
  ∧ c_rows (setConfig
              (obj [("head", section_head);
                    ("entities", VArr [VStr "light.a"]);
                    ("open", VBool false)]) fold_open)
    = Some (mkRowArray (next_arr fold_open) []).
Proof.
  destruct (reconfigure_keeps_open fold_open
              (obj [("head", section_head);
                    ("entities", VArr [VStr "light.a"]);
                    ("open", VBool false)])) as (_ & _ & _ & _ & _ & H).
  destruct H as (Ho & Hr & _); [vm_compute; reflexivity..|].
  split; [exact Ho|exact Hr].
Defined.

Lemma rows_keep_item_order_witness :
  rows_match (c_config fold_xyz) (parentCard fold_xyz)
    [VStr "light.x"; VStr "light.y"; VStr "light.z"]
    (run (load_rows None fold_xyz) (EvExternal <$> [4; 4; 2; 2; 3; 3])).
Proof.
  apply (rows_keep_item_order fold_xyz 0
           [VStr "light.x"; VStr "light.y"; VStr "light.z"]
           [4; 4; 2; 2; 3; 3]).
  - vm_compute. reflexivity.
  - vm_compute. reflexivity.
  - vm_compute. reflexivity.
  - apply (bool_decide_unpack _). vm_compute. reflexivity.
Defined.


Lemma hass_update_is_propagated_witness :
  let r := update_cycle (assign_all [some_hass; lights_hass] xyz_reactive) in
  c_hass (component r) = lights_hass
  ∧ (∀ e, handles (component r) !! 0 = Some e → el_hass e = lights_hass)
  ∧ (∀ e, handles (component r) !! 2 = Some e → el_hass e = lights_hass)
  ∧ component (update_cycle (assign_all [VUndef] xyz_reactive))
    = set_c_hass VUndef (component xyz_reactive).
Proof.
  intros r. subst r.
  destruct (hass_update_is_propagated xyz_reactive [some_hass] lights_hass)
    as (_ & Hc & _ & _ & H & _).
  destruct H as (Hh & Hpush & _).
  { vm_compute. reflexivity. }
  { vm_compute. discriminate. }
  split; [exact Hh|]. split; [|split].
  - intros e. apply Hpush. apply list_elem_of_In. vm_compute. auto 10.
  - intros e. apply Hpush. apply list_elem_of_In. vm_compute. auto 10.
  - destruct (hass_update_is_propagated xyz_reactive [] VUndef)
      as (_ & _ & _ & H' & _).
    apply H'. left. vm_compute. reflexivity.
Defined.

(** * Further properties of the component *)

(** ** Normalized descriptors *)

Lemma ensureObject_idem v : ensureObject (ensureObject v) = ensureObject v.
Proof. by destruct v. Qed.

Lemma row_threads_ensureObject tid l :
  row_threads tid (ensureObject <$> l) = row_threads tid l.
Proof.
  unfold row_threads. apply list_eq. intros k.
  rewrite !list_lookup_imap, list_lookup_fmap.
  destruct (l !! k); simpl; [|done]. by rewrite ensureObject_idem.
Qed.

(** X1: an entity id is a shorthand for the descriptor [{entity: id}]:
    [ensureObject] turns the one into the other, never returns a string and
    leaves what it returns unchanged when applied again; so the loader starts
    the same row creations for a list of ids and descriptors as for the list of
    their normalized descriptors. *)
Theorem entity_id_is_shorthand (v : JsVal) (l : list JsVal) (tid : nat)
    (caller : option nat) (w : World) :
  ensureObject (ensureObject v) = ensureObject v
  ∧ (∀ s, ensureObject (VStr s) = obj [("entity", VStr s)])
  ∧ (∀ s, ensureObject v ≠ VStr s)
  ∧ load_rows_items tid (VArr (ensureObject <$> l)) caller w
    = load_rows_items tid (VArr l) caller w.
Proof.
  split; [apply ensureObject_idem|]. split; [done|].
  split; [by destruct v|].
  unfold load_rows_items. cbn [is_undefined truthy is_array negb orb].
  by rewrite row_threads_ensureObject, length_fmap.
Qed.

(** ** The configuration handed to the row factory *)

(** X2: in the configuration [_createRow] hands to the row factory, a key
    of the row's own descriptor wins; for a child row the keys of
    [group_config] come next, while the header ignores [group_config]
    altogether; [state_color] is otherwise inherited, from the fold's own
    configuration unless it is nullish there, then from the parent card's
    [_config], then from its [config]; any other key is absent. *)
Theorem row_config_precedence (c : gmap string JsVal) (parent config : JsVal)
    (head : bool) (k : string) :
  let r := row_config c parent head config in
  let group := own_props (field c "group_config") in
  let inherited :=
    coalesce
      (coalesce (field c "state_color")
                (opt_get (opt_get parent "_config") "state_color"))
      (opt_get (opt_get parent "config") "state_color") in
  (∀ v, own_props config !! k = Some v → get_own r k = v)
  ∧ (own_props config !! k = None → head = false →
     ∀ v, group !! k = Some v → get_own r k = v)
  ∧ (own_props config !! k = None → head = true ∨ group !! k = None →
     get_own r k = if String.eqb k "state_color" then inherited else VUndef)
  ∧ row_config c parent true config
    = row_config (delete "group_config" c) parent true config
  ∧ (nullish (field c "state_color") = false →
     inherited = field c "state_color").
Proof.
  intros r group inherited. subst r. unfold row_config. cbn [get_own].
  fold group. fold inherited.
  split; [|split; [|split; [|split]]].
  - intros v Hk. by rewrite (lookup_union_Some_l _ _ _ _ Hk).
  - intros Hk -> v Hg.
    rewrite lookup_union_r by done.
    by rewrite (lookup_union_Some_l _ _ _ _ Hg).
  - intros Hk Hg. rewrite lookup_union_r by done.
    assert (Hg' : (if head then ∅ else group) !! k = None)
      by (destruct head, Hg; done).
    rewrite lookup_union_r by done.
    destruct (String.eqb_spec k "state_color") as [->|Hne].
    + by rewrite lookup_singleton_eq.
    + by rewrite lookup_singleton_ne.
  - unfold field. by rewrite lookup_delete_ne.
  - intros Hn. subst inherited. unfold coalesce at 2. rewrite Hn.
    unfold coalesce. by rewrite Hn.
Qed.

(** ** The stored configuration *)

Lemma load_head_config w :
  c_config (load_head w)
  = if truthy (head_descriptor (c_config w))
    then resolve_clickable (c_config w) (head_descriptor (c_config w))
    else c_config w.
Proof.
  destruct (truthy (head_descriptor (c_config w))) eqn:E.
  - by rewrite load_head_present.
  - by rewrite load_head_missing.
Qed.

Lemma merge_config_field config k :
  field (merge_config config) k
  = match own_props config !! k with
    | Some v => v
    | None => field DEFAULT_CONFIG k
    end.
Proof.
  unfold merge_config, field.
  destruct (own_props config !! k) as [v|] eqn:E.
  - by rewrite (lookup_union_Some_l _ _ _ _ E).
  - by rewrite lookup_union_r.
Qed.

(** X3: [setConfig] replaces the stored configuration as a whole: what it
    stores depends on the new configuration alone, not on the component's
    previous state.  Apart from [clickable], every key reads as the new
    configuration has it (also when it is set to [undefined]) and otherwise as
    [DEFAULT_CONFIG] has it; so an absent [padding] is 24, an absent [open] is
    [false] and an absent [group_config] is the empty object. *)
Theorem setConfig_replaces_config (config : JsVal) (w w' : World)
    (k : string) :
  c_config (setConfig config w) = c_config (setConfig config w')
  ∧ (k ≠ "clickable" →
     field (c_config (setConfig config w)) k
     = match own_props config !! k with
       | Some v => v
       | None => field DEFAULT_CONFIG k
       end)
  ∧ (own_props config !! "padding" = None →
     field (c_config (setConfig config w)) "padding" = VNum 24)
  ∧ (own_props config !! "open" = None →
     field (c_config (setConfig config w)) "open" = VBool false)
  ∧ (own_props config !! "group_config" = None →
     field (c_config (setConfig config w)) "group_config" = VObj ∅).
Proof.
  assert (Hk : ∀ k', k' ≠ "clickable" →
            field (c_config (setConfig config w)) k'
            = match own_props config !! k' with
              | Some v => v
              | None => field DEFAULT_CONFIG k'
              end).
  { intros k' Hne. rewrite setConfig_config, load_head_field by done.
    apply merge_config_field. }
  split; [by rewrite !setConfig_config, !load_head_config|].
  split; [apply Hk|].
  split; [|split]; intros Hn; rewrite Hk, Hn by done; reflexivity.
Qed.

(** ** The style class of a row *)

Lemma replace_colon_colons s : colons (replace_colon s) = pred (colons s).
Proof.
  induction s as [|a s IH]; [done|]. cbn [replace_colon colons].
  destruct (String.eqb (String a "") ":") eqn:E.
  - reflexivity.
  - cbn [colons]. by rewrite E.
Qed.

Lemma replace_colon_length s :
  String.length (replace_colon s) = String.length s.
Proof.
  induction s as [|a s IH]; [done|]. cbn [replace_colon].
  destruct (String.eqb (String a "") ":"); simpl; [done|]. by rewrite IH.
Qed.

Lemma replace_colon_none s : colons s = 0 → replace_colon s = s.
Proof.
  induction s as [|a s IH]; [done|]. cbn [replace_colon colons].
  destruct (String.eqb (String a "") ":"); [done|].
  intros H. by rewrite IH.
Qed.

(** X13: the class [applyStyle] derives from a row's [type]: the type
    with its first colon, and only that one, turned into a dash, so a type
    without a colon is kept, a custom type [custom:name] gives
    [type-fold-entity-row-custom-name], and a missing type gives
    [type-fold-entity-row-undefined].  The only failure is a [TypeError], for
    a type that is not a string and has a [replace] property of its own. *)
Theorem style_class_of_type (config : JsVal) :
  (∀ s, opt_get config "type" = VStr s →
     cls config = inr ("type-fold-entity-row-" +:+ replace_colon s)
     ∧ colons (replace_colon s) = pred (colons s)
     ∧ String.length (replace_colon s) = String.length s
     ∧ (colons s = 0 → replace_colon s = s))
  ∧ (∀ name, opt_get config "type" = VStr ("custom:" +:+ name) →
     cls config = inr ("type-fold-entity-row-custom-" +:+ name))
  ∧ (nullish (opt_get config "type") = true →
     cls config = inr "type-fold-entity-row-undefined")
  ∧ (∀ e, cls config = inl e →
     e = JsTypeError
     ∧ nullish (opt_get (opt_get config "type") "replace") = false).
Proof.
  unfold cls, type_suffix.
  split; [|split; [|split]].
  - intros s ->. split; [done|].
    split; [apply replace_colon_colons|].
    split; [apply replace_colon_length|apply replace_colon_none].
  - by intros name ->.
  - intros Hn. by destruct (opt_get config "type").
  - intros e.
    destruct (opt_get config "type") as [| | | | |l|m]; try done.
    + destruct (nullish (opt_get (VArr l) "replace")) eqn:E; [done|].
      by intros [= <-].
    + destruct (nullish (opt_get (VObj m) "replace")) eqn:E; [done|].
      by intros [= <-].
Qed.

(** ** What happens while no toggle is in flight *)

Lemma idle_refl w : idle w w.
Proof. by intros Hq. Qed.

Lemma idle_trans w1 w2 w3 : idle w1 w2 → idle w2 w3 → idle w1 w3.
Proof.
  intros H12 H23 Hq. destruct (H12 Hq) as [Hq2 E2].
  destruct (H23 Hq2) as [Hq3 E3]. split; [done|congruence].
Qed.

Lemma idle_threads w w' :
  c_open w' = c_open w → threads w' = threads w → idle w w'.
Proof. intros Ho Et Hq. split; [|done]. intros t th. rewrite Et. apply Hq. Qed.

Lemma idle_set_thread tid th w :
  is_toggling th = false → idle w (set_thread tid th w).
Proof.
  intros Hth Hq. split; [|done]. intros t x. unfold set_thread. simpl.
  intros [[_ [<- _]]|[_ Hx]]%list_lookup_insert_Some; [done|].
  by eapply Hq.
Qed.

Lemma idle_set_thread_of tid th w w1 :
  c_open w1 = c_open w → threads w1 = threads w → is_toggling th = false →
  idle w (set_thread tid th w1).
Proof.
  intros Ho Et Hth. eapply (idle_trans _ w1); [by apply idle_threads|].
  by apply idle_set_thread.
Qed.

Lemma idle_app w w' new :
  c_open w' = c_open w → threads w' = threads w ++ new →
  Forall (fun th => is_toggling th = false) new → idle w w'.
Proof.
  intros Ho Et Hn Hq. split; [|done]. intros t th. rewrite Et.
  intros [Ht|[_ Ht]]%lookup_app_Some; [by eapply Hq|].
  rewrite Forall_forall in Hn. eapply Hn, list_elem_of_lookup_2, Ht.
Qed.

Ltac idle_mid :=
  lazymatch goal with
  | |- idle ?w (?f ?w1) => eapply (idle_trans w w1)
  end.

Lemma idle_toggle_after_rows t w : idle w (toggle_after_rows t w).
Proof.
  intros Hq. unfold toggle_after_rows.
  destruct (threads w !! t) as [[]|] eqn:E; try done.
  by specialize (Hq _ _ E).
Qed.

Lemma idle_loader_return tid r caller w :
  idle w (loader_return tid r caller w).
Proof.
  unfold loader_return.
  destruct caller; [eapply idle_trans; [|apply idle_toggle_after_rows]|];
    by apply idle_set_thread.
Qed.

Lemma idle_loader_throw tid e caller w :
  idle w (loader_throw tid e caller w).
Proof.
  unfold loader_throw. cbn zeta.
  set (w1 := set_thread tid (ThFailed e) w).
  assert (H1 : idle w w1) by (by apply idle_set_thread).
  eapply idle_trans; [exact H1|]. clearbody w1.
  eapply (idle_trans _ (match caller with Some t => _ | None => _ end));
    [|by apply idle_threads].
  destruct caller as [t|]; [|apply idle_refl].
  destruct (threads w1 !! t) as [[]|] eqn:Ht; try apply idle_refl.
  by apply idle_set_thread.
Qed.

Lemma idle_join_complete tid hs caller w :
  idle w (join_complete tid hs caller w).
Proof.
  unfold join_complete.
  eapply idle_trans; [|apply idle_loader_return]. by apply idle_threads.
Qed.

Lemma idle_try_join tid w : idle w (try_join tid w).
Proof.
  unfold try_join. repeat case_match; try apply idle_refl.
  apply idle_join_complete.
Qed.

Lemma idle_fill_slot tid idx h w : idle w (fill_slot tid idx h w).
Proof.
  unfold fill_slot. repeat case_match; try apply idle_refl.
  eapply idle_trans; [|apply idle_try_join]. by apply idle_set_thread.
Qed.

Lemma row_threads_not_toggling tid l :
  Forall (fun th => is_toggling th = false) (row_threads tid l).
Proof.
  apply Forall_forall. intros t (k & Hk)%list_elem_of_lookup.
  unfold row_threads in Hk. rewrite list_lookup_imap in Hk.
  destruct (l !! k); by simplify_eq/=.
Qed.

Lemma idle_load_rows_items tid items caller w :
  idle w (load_rows_items tid items caller w).
Proof.
  unfold load_rows_items.
  repeat case_match; try (by apply idle_loader_throw); try apply idle_refl.
  eapply idle_trans; [|apply idle_try_join].
  match goal with
  | |- idle _ (set_thread _ _ ?w1) => eapply (idle_trans _ w1)
  end.
  - eapply idle_app; [done|done|apply row_threads_not_toggling].
  - by apply idle_set_thread.
Qed.

Lemma idle_load_rows_group tid head caller w :
  idle w (load_rows_group tid head caller w).
Proof.
  unfold load_rows_group. cbn zeta.
  set (w1 := set_c_hassResolve None w).
  assert (H1 : idle w w1) by (by apply idle_threads).
  eapply idle_trans; [exact H1|]. clearbody w1.
  case_match; [apply idle_loader_throw|apply idle_load_rows_items].
Qed.

Lemma idle_load_rows caller w : idle w (load_rows caller w).
Proof.
  unfold load_rows. cbn zeta.
  assert (Hs : idle w (spawn ThRunning w))
    by (eapply idle_app; [done|done|by repeat constructor]).
  eapply idle_trans; [exact Hs|].
  repeat case_match;
    try apply idle_loader_throw; try apply idle_loader_return;
    try apply idle_load_rows_group; try apply idle_load_rows_items.
  by apply idle_set_thread_of.
Qed.

Lemma idle_update_handle h f w : idle w (update_handle h f w).
Proof. by apply idle_threads. Qed.

Lemma idle_push_hass h w : idle w (push_hass h w).
Proof. by apply idle_threads. Qed.

Lemma idle_run_head_cb h w cb : idle w (run_head_cb h w cb).
Proof.
  destruct cb as [| |t]; simpl.
  - eapply idle_app; [done|done|by repeat constructor].
  - apply idle_push_hass.
  - intros Hq. destruct (threads w !! t) as [[]|] eqn:E; try done.
    by specialize (Hq _ _ E).
Qed.

Lemma idle_foldl_head_cb h cbs w : idle w (foldl (run_head_cb h) w cbs).
Proof.
  revert w. induction cbs as [|cb cbs IH]; intros w; [apply idle_refl|].
  simpl. eapply idle_trans; [apply idle_run_head_cb|apply IH].
Qed.

Lemma idle_resolve_head p h w : idle w (resolve_head p h w).
Proof.
  unfold resolve_head. repeat case_match; try apply idle_refl.
  eapply idle_trans; [|apply idle_foldl_head_cb]. by apply idle_threads.
Qed.

Lemma idle_then_head p cb w : idle w (then_head p cb w).
Proof.
  unfold then_head.
  destruct (heads w !! p) as [[cbs|h]|];
    [|apply idle_run_head_cb|apply idle_refl].
  by apply idle_threads.
Qed.

Lemma idle_create_row_finish tid config d w :
  idle w (create_row_finish tid config d w).
Proof.
  unfold create_row_finish. cbn zeta.
  match goal with
  | |- idle _ (match d with DHead p => resolve_head p ?h ?w1
                          | DRow l i => fill_slot l i ?h' ?w2 end) =>
      assert (idle w w1) as Hk
  end.
  { apply idle_set_thread_of; [by case_match|by case_match|done]. }
  destruct d; (eapply idle_trans; [exact Hk|]);
    [apply idle_resolve_head|apply idle_fill_slot].
Qed.

Lemma idle_head_setup_finish tid h b w :
  idle w (head_setup_finish tid h b w).
Proof. unfold head_setup_finish. by apply idle_set_thread_of. Qed.

Lemma idle_load_head w : idle w (load_head w).
Proof.
  destruct (truthy (head_descriptor (c_config w))) eqn:E.
  - rewrite load_head_present by done.
    eapply idle_app; [done|done|by repeat constructor].
  - rewrite load_head_missing by done. by apply idle_threads.
Qed.

Lemma idle_external tid w : idle w (external tid w).
Proof.
  unfold external. repeat case_match; try apply idle_refl.
  - by apply idle_set_thread.
  - apply idle_create_row_finish.
  - by apply idle_set_thread.
  - apply idle_head_setup_finish.
  - apply idle_head_setup_finish.
Qed.

Lemma idle_timer w : idle w (timer w).
Proof.
  intros Hq. unfold timer.
  destruct (timers w) as [|[t|] rest]; [done| |done].
  destruct (threads w !! t) as [[]|] eqn:E; try done.
  by specialize (Hq _ _ E).
Qed.

Lemma idle_updated_hass w : idle w (updated_hass w).
Proof.
  rewrite updated_hass_unfold.
  assert (Hp : idle w (pushed w)).
  { destruct (pushed_spec w) as (_ & _ & Ht & _).
    apply idle_threads; [|done].
    unfold pushed. cbn zeta.
    set (w1 := match c_rows w with Some _ => _ | None => _ end).
    assert (H1 : c_open w1 = c_open w)
      by (subst w1; destruct (c_rows w); [rewrite push_all|]; done).
    clearbody w1. destruct (c_head w1); [|done].
    rewrite then_head_push. by repeat case_match. }
  repeat case_match; try done.
  eapply idle_trans; [exact Hp|apply idle_load_rows_group].
Qed.

Lemma idle_setConfig config w :
  nullish (c_open w) = false → idle w (setConfig config w).
Proof.
  intros Hn. rewrite setConfig_unfold.
  assert (Hr : idle w (reset_rows config w)).
  { unfold reset_rows.
    eapply (idle_trans _ (load_head (configured config w)));
      [|by apply idle_threads].
    eapply idle_trans; [|apply idle_load_head].
    apply idle_threads; [|done].
    unfold configured. simpl. unfold coalesce at 2. rewrite Hn.
    unfold coalesce. by rewrite Hn. }
  case_match; [|done]. eapply idle_trans; [exact Hr|apply idle_load_rows].
Qed.

(** Every turn but a toggle, and but a first [setConfig]. *)
Lemma idle_step w ev :
  ev ≠ EvToggle → (nullish (c_open w) = true → ∀ c, ev ≠ EvSetConfig c) →
  idle w (step w ev).
Proof.
  intros Ht Hc. destruct ev as [config|v| | | |tid|]; simpl.
  - apply idle_setConfig. destruct (nullish (c_open w)) eqn:E; [|done].
    by destruct (Hc eq_refl config).
  - eapply (idle_trans _ (set_c_hass v w)); [by apply idle_threads|].
    apply idle_updated_hass.
  - done.
  - apply idle_load_rows.
  - by apply idle_threads.
  - apply idle_external.
  - apply idle_timer.
Qed.

Lemma idle_run es : ∀ w,
  quiet w →
  Forall (fun ev => ev ≠ EvToggle
                    ∧ (nullish (c_open w) = true → ∀ c, ev ≠ EvSetConfig c))
    es →
  quiet (run w es) ∧ c_open (run w es) = c_open w.
Proof.
  induction es as [|ev es IH]; intros w Hq Hes; [done|].
  apply Forall_cons in Hes as [[Hev Hc] Hes].
  destruct (idle_step w ev Hev Hc Hq) as [Hq1 Ho1].
  destruct (IH (step w ev) Hq1) as [Hq2 Ho2]; [by rewrite Ho1|].
  split; [done|]. simpl. congruence.
Qed.

(** X4: while no [toggle] is in flight and [open] is set, nothing but a
    toggle changes [open]: not a reconfiguration, an assignment of [hass], a
    direct load of the rows, the end of a transition, a promise of the host
    or a timer; and none of them leaves a [toggle] in flight. *)
Theorem open_changes_only_by_toggle (w : World) (es : list Event) :
  quiet w → nullish (c_open w) = false →
  Forall (fun ev => ev ≠ EvToggle) es →
  c_open (run w es) = c_open w ∧ quiet (run w es).
Proof.
  intros Hq Hn Hes.
  destruct (idle_run es w Hq) as [Hq' Ho]; [|done].
  eapply Forall_impl; [exact Hes|]. intros ev Hev. split; [done|congruence].
Qed.

(** ** Opening a fold whose rows cannot be loaded *)

Lemma toggle_opening w :
  truthy (c_open w) = false →
  toggle w = load_rows (Some (length (threads w))) (opening w).
Proof. intros Ho. unfold toggle, opening. simpl. by rewrite Ho. Qed.

Lemma opening_threads w : threads (opening w) = threads w ++ [ThToggleRows].
Proof. unfold opening. simpl. apply (insert_at_length _ []). Qed.

Lemma loader_throw_toggle w2 l e x :
  threads w2 = l ++ [ThToggleRows; x] →
  loader_throw (S (length l)) e (Some (length l)) w2
  = emit (EUnhandled e) (set_threads (l ++ [ThFailed e; ThFailed e]) w2).
Proof.
  intros Ht. unfold loader_throw, set_thread. simpl.
  rewrite Ht, insert_after_length, lookup_at_length. simpl.
  by rewrite insert_at_length.
Qed.

Lemma toggle_throw w e w2 :
  w2 = spawn ThRunning (opening w)
  ∨ w2 = set_c_hassResolve None (spawn ThRunning (opening w)) →
  failed_open e w
    (loader_throw (S (length (threads w))) e (Some (length (threads w))) w2).
Proof.
  intros Hw2.
  assert (Ht : threads w2 = threads w ++ [ThToggleRows; ThRunning]).
  { destruct Hw2 as [-> | ->];
      change (threads (opening w) ++ [ThRunning]
              = threads w ++ [ThToggleRows; ThRunning]);
      by rewrite opening_threads, <-app_assoc. }
  rewrite (loader_throw_toggle w2 (threads w) e ThRunning Ht).
  by destruct Hw2 as [-> | ->].
Qed.




(** ** Loading rows without a configuration or without a head *)

Lemma load_rows_unset caller w :
  c_rows w = None →
  load_rows caller w
  = loader_throw (length (threads w)) JsTypeError caller (spawn ThRunning w).
Proof. intros Hr. unfold load_rows. simpl. by rewrite Hr. Qed.

Lemma load_rows_headless caller w a :
  c_rows w = Some (mkRowArray a []) →
  nullish (head_descriptor (c_config w)) = true →
  load_rows caller w
  = loader_throw (length (threads w)) JsTypeError caller (spawn ThRunning w).
Proof.
  intros Hr Hn. unfold load_rows. simpl. rewrite Hr. simpl.
  unfold get_prop. by rewrite Hn.
Qed.

(** X6: the loader reads [this.rows.length] and [head.entity] unguarded:
    called before any [setConfig], or after one with neither [entity] nor
    [head] (whatever its [entities]), it is rejected with a [TypeError] and
    creates nothing; and in a fold configured without a head a [toggle] that
    is to open it fails with that error and leaves it closed. *)
Theorem load_rows_needs_config_and_head (w : World) (config : JsVal) :
  let headless w :=
    (∃ a, c_rows w = Some (mkRowArray a []))
    ∧ nullish (head_descriptor (c_config w)) = true in
  let rejected :=
    emit (EUnhandled JsTypeError) (spawn (ThFailed JsTypeError) w) in
  (c_rows w = None → load_rows None w = rejected)
  ∧ (headless w →
     load_rows None w = rejected
     ∧ (truthy (c_open w) = false → failed_open JsTypeError w (toggle w)))
  ∧ (field (own_props config) "entity" = VUndef →
     field (own_props config) "head" = VUndef →
     headless (setConfig config w)).
Proof.
  intros headless rejected. split; [|split].
  - intros Hr. subst rejected.
    by rewrite load_rows_unset, loader_throw_spawned.
  - intros [[a Hr] Hn].
    assert (Hl : ∀ caller w1,
              c_rows w1 = c_rows w → c_config w1 = c_config w →
              load_rows caller w1
              = loader_throw (length (threads w1)) JsTypeError caller
                  (spawn ThRunning w1)).
    { intros caller w1 Er Ec. apply (load_rows_headless _ _ a); congruence. }
    split; [subst rejected; by rewrite Hl, loader_throw_spawned|].
    intros Ho. rewrite toggle_opening by done.
    rewrite (Hl _ (opening w)) by done.
    rewrite opening_threads, length_app, Nat.add_1_r.
    apply toggle_throw. by left.
  - intros He Hhd.
    assert (Hd : head_descriptor (merge_config config) = VUndef).
    { unfold head_descriptor, js_or.
      rewrite !merge_config_field_new by done. by rewrite He, Hhd. }
    pose proof (reset_rows_rows config w) as Hrr.
    assert (Hcc : c_config (reset_rows config w) = merge_config config).
    { change (c_config (reset_rows config w))
        with (c_config (load_head (configured config w))).
      rewrite load_head_config.
      change (c_config (configured config w)) with (merge_config config).
      by rewrite Hd. }
    rewrite setConfig_unfold.
    revert Hrr Hcc. generalize (reset_rows config w). intros w1 Hrr Hcc.
    assert (Hn1 : nullish (head_descriptor (c_config w1)) = true)
      by (by rewrite Hcc, Hd).
    destruct (truthy (field (c_config w1) "open")).
    + rewrite (load_rows_no_head _ _ Hrr Hn1).
      split; [exists (next_arr w); exact Hrr|exact Hn1].
    + split; [exists (next_arr w); exact Hrr|exact Hn1].
Qed.

(** ** A fold of the members of a group *)

(** X7: how a fold without [entities] and [items], whose head names the
    entity [s], reads the members of that group from a [hass] that is there
    (line 109).  A [hass] that is [null] or has no [states] makes the loader
    fail with a [TypeError]; an entity that [states] does not know, or one
    without [attributes] or without [entity_id], with "No entities
    specified."; an [entity_id] that is not a list with "Entities must be a
    list."; and a list becomes the item list.  In every case the waiter for
    [hass] is cleared. *)
Theorem group_members_resolution (w : World) (a : nat) (s : string) :
  c_rows w = Some (mkRowArray a []) →
  let head := head_descriptor (c_config w) in
  get_own head "entity" = VStr s → s ≠ "" →
  explicit_items (c_config w) = VUndef →
  is_undefined (c_hass w) = false →
  let states := get_own (c_hass w) "states" in
  let st := get_own states s in
  let members := opt_get (opt_get st "attributes") "entity_id" in
  let w0 := set_c_hassResolve None w in
  let fail e := emit (EUnhandled e) (spawn (ThFailed e) w0) in
  (nullish (c_hass w) = true ∨ nullish states = true →
   load_rows None w = fail JsTypeError)
  ∧ (nullish (c_hass w) = false → nullish states = false →
     (members = VUndef →
      load_rows None w = fail (JsError "No entities specified."))
     ∧ (members ≠ VUndef → is_array members = false →
        load_rows None w = fail (JsError "Entities must be a list."))
     ∧ (∀ l, members = VArr l → load_rows None w = loading l w0)
     ∧ (nullish st = true ∨ nullish (get_own st "attributes") = true →
        members = VUndef)).
Proof.
  intros Hr head Hs Hne Hi Hu states st members w0 fail.
  assert (He : truthy (get_own head "entity") = true).
  { rewrite Hs. simpl. apply negb_true_iff. by apply String.eqb_neq. }
  rewrite (load_rows_of_group None w a Hr He Hi), Hu.
  unfold load_rows_group. cbn zeta.
  change (c_hass (set_c_hassResolve None (spawn ThRunning w)))
    with (c_hass w).
  fold head. rewrite group_members_unfold, Hs. cbn [to_string].
  fold states st members. split.
  - intros Hn.
    assert (Hg : (if nullish (c_hass w) then inl JsTypeError
                  else if nullish states then inl JsTypeError
                       else inr (A:=Exn) members) = inl JsTypeError).
    { destruct Hn as [-> | ->]; [done|]. by case_match. }
    rewrite Hg. apply (loader_throw_spawned JsTypeError w0).
  - intros Hn1 Hn2. rewrite Hn1, Hn2.
    split; [|split; [|split]].
    + intros ->. apply (loader_throw_spawned _ w0).
    + intros Hm Ha. unfold load_rows_items.
      destruct members; try done; cbn [is_undefined is_array negb truthy];
        rewrite ?orb_true_r; apply (loader_throw_spawned _ w0).
    + intros l ->. apply (load_rows_items_array w0).
    + subst members. intros [Hs'|Hs'].
      * unfold opt_get at 2. by rewrite Hs'.
      * unfold opt_get at 2. destruct (nullish st); [done|].
        unfold opt_get. by rewrite Hs'.
Qed.

(** ** Waiting for the shared context *)



(** The rows of a validated item list, however the schedule of the host
    interleaves their creation. *)
Lemma loading_rows_match w l sched :
  sched ≡ₚ seq (S (length (threads w))) (length l)
           ++ seq (S (length (threads w))) (length l) →
  rows_match (c_config w) (parentCard w) l
    (run (loading l w) (EvExternal <$> sched)).
Proof.
  intros Hp. destruct l as [|i l].
  - apply Permutation_nil_r in Hp as ->. simpl.
    exists (next_arr w), []. by split.
  - destruct (schedule_of_rows (length (threads w)) _ sched Hp) as [Hs Hcnt].
    apply (join_inv_done _ _ (length (threads w))), join_inv_run; [done|].
    pose proof (join_inv_loading w (i :: l) ltac:(done)) as Hinv.
    destruct Hinv as (Hc & Hpc & slots & Hlen & Hrows & Hloader).
    split; [done|]. split; [done|]. exists slots. split; [done|].
    split; [|done]. intros k item Hk.
    rewrite Hcnt by (by eapply lookup_lt_Some). by apply Hrows.
Qed.


(** ** The one waiter for the shared context *)

(** Who writes [this._hassResolve]: the loader alone. *)
Lemma hr_toggle_after_rows t w :
  c_hassResolve (toggle_after_rows t w) = c_hassResolve w.
Proof. unfold toggle_after_rows. by repeat case_match. Qed.

Lemma hr_loader_return tid r caller w :
  c_hassResolve (loader_return tid r caller w) = c_hassResolve w.
Proof.
  unfold loader_return. destruct caller; [rewrite hr_toggle_after_rows|]; done.
Qed.

Lemma hr_loader_throw tid e caller w :
  c_hassResolve (loader_throw tid e caller w) = c_hassResolve w.
Proof. unfold loader_throw. simpl. by repeat case_match. Qed.

Lemma hr_join_complete tid hs caller w :
  c_hassResolve (join_complete tid hs caller w) = c_hassResolve w.
Proof. unfold join_complete. by rewrite hr_loader_return. Qed.

Lemma hr_try_join tid w : c_hassResolve (try_join tid w) = c_hassResolve w.
Proof.
  unfold try_join. repeat case_match; try done. apply hr_join_complete.
Qed.

Lemma hr_fill_slot tid idx h w :
  c_hassResolve (fill_slot tid idx h w) = c_hassResolve w.
Proof.
  unfold fill_slot. repeat case_match; try done. by rewrite hr_try_join.
Qed.

Lemma hr_load_rows_items tid items caller w :
  c_hassResolve (load_rows_items tid items caller w) = c_hassResolve w.
Proof.
  unfold load_rows_items.
  repeat case_match; rewrite ?hr_loader_throw, ?hr_try_join; done.
Qed.

Lemma hr_load_rows caller w :
  c_hassResolve (load_rows caller w) = c_hassResolve w
  ∨ c_hassResolve (load_rows caller w) = None
  ∨ c_hassResolve (load_rows caller w) = Some (length (threads w)).
Proof.
  unfold load_rows. cbn zeta.
  repeat case_match;
    rewrite ?hr_loader_throw, ?hr_loader_return, ?hr_load_rows_items,
      ?load_rows_group_hassResolve; auto.
Qed.

Lemma hr_toggle_aria t h w :
  c_hassResolve (toggle_aria t h w) = c_hassResolve w.
Proof. done. Qed.

Lemma hr_toggle_await_head t w :
  c_hassResolve (toggle_await_head t w) = c_hassResolve w.
Proof. unfold toggle_await_head. by repeat case_match. Qed.

Lemma hr_toggle_commit t b w :
  c_hassResolve (toggle_commit t b w) = c_hassResolve w.
Proof.
  unfold toggle_commit. cbn zeta.
  case_match; rewrite ?hr_toggle_await_head; by destruct b.
Qed.

Lemma hr_run_head_cb h w cb :
  c_hassResolve (run_head_cb h w cb) = c_hassResolve w.
Proof. destruct cb; simpl; try done. by repeat case_match. Qed.

Lemma hr_foldl_head_cb h cbs : ∀ w,
  c_hassResolve (foldl (run_head_cb h) w cbs) = c_hassResolve w.
Proof.
  induction cbs as [|cb cbs IH]; intros w; [done|].
  simpl. by rewrite IH, hr_run_head_cb.
Qed.

Lemma hr_resolve_head p h w :
  c_hassResolve (resolve_head p h w) = c_hassResolve w.
Proof.
  unfold resolve_head. repeat case_match; try done.
  by rewrite hr_foldl_head_cb.
Qed.

Lemma hr_then_head p cb w :
  c_hassResolve (then_head p cb w) = c_hassResolve w.
Proof.
  unfold then_head. repeat case_match; try done. apply hr_run_head_cb.
Qed.

Lemma hr_create_row_finish tid config d w :
  c_hassResolve (create_row_finish tid config d w) = c_hassResolve w.
Proof.
  unfold create_row_finish. cbn zeta.
  destruct d; rewrite ?hr_resolve_head, ?hr_fill_slot; simpl;
    by case_match.
Qed.

Lemma hr_load_head w : c_hassResolve (load_head w) = c_hassResolve w.
Proof.
  destruct (truthy (head_descriptor (c_config w))) eqn:E.
  - by rewrite load_head_present.
  - by rewrite load_head_missing.
Qed.

Lemma hr_external tid w : c_hassResolve (external tid w) = c_hassResolve w.
Proof.
  unfold external.
  repeat case_match; rewrite ?hr_create_row_finish; done.
Qed.

Lemma hr_timer w : c_hassResolve (timer w) = c_hassResolve w.
Proof.
  unfold timer. repeat case_match; rewrite ?hr_toggle_commit; done.
Qed.

Lemma hr_updated_hass w :
  c_hassResolve (updated_hass w) = c_hassResolve w
  ∨ c_hassResolve (updated_hass w) = None.
Proof.
  rewrite updated_hass_unfold.
  destruct (pushed_spec w) as (_ & _ & _ & Hr & _).
  destruct (c_hassResolve (pushed w)) as [tid|] eqn:E; [|left; congruence].
  destruct (threads (pushed w) !! tid) as [[]|]; try (left; congruence).
  right. apply load_rows_group_hassResolve.
Qed.

(** What the resumed loader does not depend on: its own suspended state. *)
Lemma loader_throw_overwrites tid e caller w x :
  loader_throw tid e caller (set_thread tid x w) = loader_throw tid e caller w.
Proof.
  unfold loader_throw, set_thread. simpl.
  by rewrite list_insert_insert_eq.
Qed.

Lemma load_rows_items_overwrites tid items caller w x :
  tid < length (threads w) →
  load_rows_items tid items caller (set_thread tid x w)
  = load_rows_items tid items caller w.
Proof.
  intros Hlt. unfold load_rows_items.
  destruct (is_undefined items); [apply loader_throw_overwrites|].
  destruct (negb (truthy items) || negb (is_array items)) eqn:E;
    [apply loader_throw_overwrites|].
  destruct items as [| | | | |l|]; simpl in E; rewrite ?orb_true_r in E;
    try done.
  unfold set_thread. simpl.
  rewrite !insert_app_l by (by rewrite ?length_insert).
  by rewrite list_insert_insert_eq.
Qed.

Lemma load_rows_group_overwrites tid head caller w x :
  tid < length (threads w) →
  load_rows_group tid head caller (set_thread tid x w)
  = load_rows_group tid head caller w.
Proof.
  intros Hlt. unfold load_rows_group. cbn zeta.
  change (c_hass (set_c_hassResolve None (set_thread tid x w)))
    with (c_hass (set_c_hassResolve None w)).
  destruct (group_members _ head).
  - apply (loader_throw_overwrites _ _ _ (set_c_hassResolve None w)).
  - by apply (load_rows_items_overwrites _ _ _ (set_c_hassResolve None w)).
Qed.

Lemma stranded_updated_hass t th w :
  stranded t th w → threads (updated_hass w) !! t = Some th.
Proof.
  intros (Ht & Hw & Hr). rewrite updated_hass_unfold.
  destruct (pushed_spec w) as (_ & _ & Hth & Hhr & _).
  rewrite Hhr, Hth.
  destruct (c_hassResolve w) as [tid|] eqn:E; [|by rewrite Hth].
  destruct (threads w !! tid) as [[]|] eqn:Etid; rewrite ?Hth; try done.
  assert (Hlt : tid < length (threads (pushed w)))
    by (rewrite Hth; by eapply lookup_lt_Some).
  rewrite <-(load_rows_group_overwrites _ _ _ _ ThRunning Hlt).
  apply kw_load_rows_group; [| |done].
  - eapply nwa_lookup; [by apply set_thread_lookup|done].
  - unfold set_thread. simpl. rewrite list_lookup_insert_ne, Hth; [done|].
    congruence.
Qed.

Lemma stranded_step t th w ev : stranded t th w → stranded t th (step w ev).
Proof.
  intros Hs. pose proof Hs as (Ht & Hw & Hr).
  assert (Hkw : threads (step w ev) !! t = Some th).
  { destruct ev as [config|v| | | |tid|];
      try (apply (kw_step w); [by intros ?|done|done]).
    by apply (stranded_updated_hass t th (set_c_hass v w)). }
  split; [done|]. split; [done|].
  assert (Hload : ∀ caller w1,
            c_hassResolve w1 = c_hassResolve w →
            t < length (threads w1) →
            c_hassResolve (load_rows caller w1) ≠ Some t).
  { intros caller w1 E1 Hlt.
    destruct (hr_load_rows caller w1) as [-> | [-> | ->]];
      [congruence|done|]. intros [= <-]. lia. }
  assert (Hlt : t < length (threads w)) by (by eapply lookup_lt_Some).
  destruct ev as [config|v| | | |tid|]; simpl.
  - rewrite setConfig_unfold.
    assert (E1 : c_hassResolve (reset_rows config w) = c_hassResolve w).
    { unfold reset_rows. simpl. by rewrite hr_load_head. }
    case_match; [|congruence]. apply Hload; [done|].
    assert (keeps_waiting w (reset_rows config w)) as Hk.
    { unfold reset_rows. eapply kw_trans; [|by apply kw_threads].
      eapply kw_trans; [|apply kw_load_head]. by apply kw_threads. }
    eapply lookup_lt_Some, Hk; done.
  - destruct (hr_updated_hass (set_c_hass v w)) as [-> | ->]; done.
  - unfold toggle. cbn zeta. case_match.
    + apply Hload; [done|]. simpl. rewrite length_insert, length_app. lia.
    + by rewrite hr_toggle_commit.
  - by apply Hload.
  - done.
  - by rewrite hr_external.
  - by rewrite hr_timer.
Qed.

Lemma stranded_run t th es : ∀ w, stranded t th w → stranded t th (run w es).
Proof.
  induction es as [|ev es IH]; intros w Hs; [done|].
  simpl. by apply IH, stranded_step.
Qed.

(** X9: there is one waiter for [hass].  When a loader starts to wait
    while another one is waiting already, it takes the waiter over, and the
    loader that waited first is never resumed: whatever turns follow, be they
    assignments of [hass], toggles or reconfigurations, it stays suspended
    where it is. *)
Theorem displaced_waiter_is_never_resumed (w : World) (a t : nat)
    (th : Thread) (caller : option nat) (es : list Event) :
  c_rows w = Some (mkRowArray a []) →
  truthy (get_own (head_descriptor (c_config w)) "entity") = true →
  explicit_items (c_config w) = VUndef →
  c_hass w = VUndef →
  threads w !! t = Some th → is_waiting th = true →
  let w1 := load_rows caller w in
  c_hassResolve w1 = Some (length (threads w))
  ∧ threads w1 !! length (threads w)
    = Some (ThLoadRowsHass (head_descriptor (c_config w)) caller)
  ∧ threads (run w1 es) !! t = Some th.
Proof.
  intros Hr He Hi Hh Ht Hw w1.
  assert (Hlt : t < length (threads w)) by (by eapply lookup_lt_Some).
  assert (H1 : w1 = set_thread (length (threads w))
                      (ThLoadRowsHass (head_descriptor (c_config w)) caller)
                      (set_c_hassResolve (Some (length (threads w)))
                         (spawn ThRunning w))).
  { subst w1. by rewrite (load_rows_of_group caller w a Hr He Hi), Hh. }
  assert (Hth : threads w1
                = threads w
                  ++ [ThLoadRowsHass (head_descriptor (c_config w)) caller]).
  { rewrite H1. simpl. apply (insert_at_length _ []). }
  split; [by rewrite H1|]. split; [by rewrite Hth, lookup_at_length|].
  apply (stranded_run t th es w1). split; [|split; [done|]].
  - rewrite Hth. by apply lookup_app_l_Some.
  - rewrite H1. simpl. intros [= <-]. lia.
Qed.

(** ** The container along a toggle *)

(** Awaiting the header touches the activation, the header's reactions and
    the header element only. *)
Lemma toggle_await_head_frame t w :
  let w' := toggle_await_head t w in
  k_overflow w' = k_overflow w ∧ k_height w' = k_height w
  ∧ timers w' = timers w ∧ c_showContent w' = c_showContent w
  ∧ c_rows w' = c_rows w ∧ length (threads w') = length (threads w)
  ∧ ∀ t', t' ≠ t → threads w' !! t' = threads w !! t'.
Proof.
  unfold toggle_await_head, toggle_aria, set_thread.
  repeat case_match; simpl; rewrite ?length_insert;
    repeat split; try done; intros t' Hne; by rewrite list_lookup_insert_ne.
Qed.

Lemma toggle_commit_frame t b w :
  let w' := toggle_commit t b w in
  k_overflow w' = k_overflow w
  ∧ k_height w'
    = Some (if (k_scrollHeight w =? 0)%Z then HeightAuto
            else HeightPx (k_scrollHeight w))
  ∧ timers w' = timers w ++ (if b then [] else [TimerCollapse])
  ∧ c_showContent w' = c_showContent w
  ∧ c_rows w' = c_rows w ∧ length (threads w') = length (threads w)
  ∧ ∀ t', t' ≠ t → threads w' !! t' = threads w !! t'.
Proof.
  unfold toggle_commit. cbn zeta. case_match.
  - match goal with
    | |- context [toggle_await_head t ?w1] =>
        destruct (toggle_await_head_frame t w1)
          as (-> & -> & -> & -> & -> & -> & Hth)
    end.
    destruct b; simpl; rewrite ?app_nil_r; repeat split; try done;
      intros t' Hne; by rewrite Hth.
  - unfold set_thread. destruct b; simpl;
      rewrite ?app_nil_r, ?length_insert; repeat split; try done;
      intros t' Hne; by rewrite list_lookup_insert_ne.
Qed.

Lemma toggle_closing w :
  truthy (c_open w) = true →
  toggle w
  = toggle_commit (length (threads w)) false
      (set_k_overflow (Some "hidden") (spawn ThRunning w)).
Proof. intros Ho. unfold toggle. simpl. by rewrite Ho. Qed.

(** A toggle that opens a fold whose rows are cached: the loader returns the
    cache and the activation waits for the tick of line 191. *)
Lemma toggle_open_cached w arr :
  truthy (c_open w) = false → c_rows w = Some arr → arr_elems arr ≠ [] →
  toggle w
  = set_timers (timers w ++ [TimerToggle (length (threads w))])
      (set_threads (threads w ++ [ThToggleTimer; ThDone (RRows arr)])
         (set_c_showContent (VBool true)
            (set_k_overflow (Some "hidden") w))).
Proof.
  intros Ho Hr Hne. rewrite toggle_opening by done.
  rewrite (load_rows_cached _ (opening w) arr) by done.
  rewrite opening_threads.
  unfold loader_return, toggle_after_rows, set_thread, spawn. simpl.
  rewrite (insert_at_length (threads w) [] ThRunning ThToggleRows).
  rewrite (insert_at_length (threads w ++ [ThToggleRows]) [] ThRunning).
  rewrite <-!app_assoc. cbn [app]. rewrite lookup_at_length.
  simpl. by rewrite insert_at_length.
Qed.


(** X11: opening a fold whose rows are cached.  Inside the call the
    overflow is hidden and the content mounted, with no call of the row
    factory and the height and [open] still as they were; the tick commits
    [open] and gives the container its measured height ("auto" when that is
    0); and the end of the transition removes the inline height and makes the
    overflow "initial". *)
Theorem opening_expands_container (w : World) :
  truthy (c_open w) = false → cached_rows w ≠ [] → timers w = [] →
  let measured := if (k_scrollHeight w =? 0)%Z then HeightAuto
                  else HeightPx (k_scrollHeight w) in
  let w1 := toggle w in
  let w2 := step w1 EvTimer in
  let w3 := step w2 EvTransitionEnd in
  (k_overflow w1 = Some "hidden" ∧ c_showContent w1 = VBool true
   ∧ k_height w1 = k_height w ∧ c_open w1 = c_open w
   ∧ c_rows w1 = c_rows w ∧ handles w1 = handles w ∧ trace w1 = trace w
   ∧ timers w1 = [TimerToggle (length (threads w))])
  ∧ (k_height w2 = Some measured ∧ k_overflow w2 = Some "hidden"
     ∧ c_open w2 = VBool true ∧ c_showContent w2 = VBool true
     ∧ timers w2 = [])
  ∧ (k_height w3 = None ∧ k_overflow w3 = Some "initial"
     ∧ c_showContent w3 = VBool true ∧ c_rows w3 = c_rows w).
Proof.
  intros Ho Hrows Htm measured w1 w2 w3.
  unfold cached_rows in Hrows.
  destruct (c_rows w) as [arr|] eqn:Er; [|done].
  assert (E1 : w1 = set_timers [TimerToggle (length (threads w))]
                      (set_threads
                         (threads w ++ [ThToggleTimer; ThDone (RRows arr)])
                         (set_c_showContent (VBool true)
                            (set_k_overflow (Some "hidden") w)))).
  { subst w1. rewrite (toggle_open_cached w arr) by done. by rewrite Htm. }
  assert (E2 : w2 = toggle_commit (length (threads w)) true
                      (set_timers [] w1)).
  { subst w2. cbn [step]. unfold timer. rewrite E1.
    cbn [timers set_timers threads set_threads]. by rewrite lookup_at_length. }
  assert (H2 : k_height w2 = Some measured ∧ k_overflow w2 = Some "hidden"
               ∧ c_open w2 = VBool true ∧ c_showContent w2 = VBool true
               ∧ timers w2 = [] ∧ c_rows w2 = Some arr).
  { rewrite E2, toggle_commit_open.
    match goal with
    | |- context [toggle_commit ?t true ?w0] =>
        destruct (toggle_commit_frame t true w0)
          as (-> & -> & -> & -> & -> & _)
    end.
    by rewrite E1. }
  destruct H2 as (Hh2 & Hov2 & Ho2 & Hs2 & Ht2 & Hr2).
  split; [by rewrite E1|]. split; [done|].
  subst w3. clear E2. clearbody w2. cbn [step]. unfold transitionEnd. cbn.
  by rewrite Ho2, Hr2.
Qed.

(** ** Two toggles in one turn *)

Lemma lookup_after2 {A} (l : list A) (a b c : A) (r : list A) :
  (l ++ a :: b :: c :: r) !! S (S (length l)) = Some c.
Proof.
  rewrite lookup_app_r by lia.
  by replace (S (S (length l)) - length l) with 2 by lia.
Qed.

Lemma timer_toggle t rest w :
  timers w = TimerToggle t :: rest → threads w !! t = Some ThToggleTimer →
  timer w = toggle_commit t true (set_timers rest w).
Proof. intros Ht Hth. unfold timer. by rewrite Ht, Hth. Qed.

(** X12: [toggle] has no guard against a second call while the first is
    suspended.  Two toggles in one turn on a fold whose rows are cached leave
    it open once the two ticks have passed, whether it was closed (both
    activations read [open] before either commits, and both open it) or open
    (the first closes it inside the call, the second opens it again). *)
Theorem two_toggles_in_one_turn_open (w : World) :
  cached_rows w ≠ [] → timers w = [] →
  c_open (run w [EvToggle; EvToggle; EvTimer; EvTimer]) = VBool true
  ∧ (truthy (c_open w) = false →
     c_open (run w [EvToggle; EvToggle]) = c_open w
     ∧ timers (run w [EvToggle; EvToggle])
       = [TimerToggle (length (threads w));
          TimerToggle (2 + length (threads w))]).
Proof.
  intros Hrows Htm. unfold cached_rows in Hrows.
  destruct (c_rows w) as [arr|] eqn:Er; [|done].
  cbn [run foldl step].
  destruct (truthy (c_open w)) eqn:Ho.
  - split; [|done].
    set (w1 := toggle w).
    assert (H1 : c_open w1 = VBool false ∧ c_rows w1 = Some arr
                 ∧ timers w1 = [TimerCollapse]).
    { subst w1. rewrite toggle_closing by done. rewrite toggle_commit_open.
      match goal with
      | |- context [toggle_commit ?t false ?w0] =>
          destruct (toggle_commit_frame t false w0)
            as (_ & _ & -> & _ & -> & _)
      end.
      simpl. by rewrite Htm. }
    destruct H1 as (Ho1 & Hr1 & Ht1). clearbody w1.
    rewrite (toggle_open_cached w1 arr) by (by rewrite ?Ho1).
    rewrite Ht1. unfold timer at 2. cbn [timers set_timers app].
    erewrite timer_toggle; [apply toggle_commit_open|done|].
    simpl. apply lookup_at_length.
  - set (w1 := toggle w).
    assert (E1 : w1 = set_timers [TimerToggle (length (threads w))]
                        (set_threads
                           (threads w ++ [ThToggleTimer; ThDone (RRows arr)])
                           (set_c_showContent (VBool true)
                              (set_k_overflow (Some "hidden") w)))).
    { subst w1. rewrite (toggle_open_cached w arr) by done. by rewrite Htm. }
    assert (H1 : truthy (c_open w1) = false ∧ c_rows w1 = Some arr
                 ∧ timers w1 = [TimerToggle (length (threads w))]
                 ∧ threads w1
                   = threads w ++ [ThToggleTimer; ThDone (RRows arr)]
                 ∧ c_open w1 = c_open w)
      by (by rewrite E1).
    destruct H1 as (Ho1 & Hr1 & Ht1 & Hth1 & Hoo1). clear E1. clearbody w1.
    set (w2 := toggle w1).
    assert (E2 : w2 = set_timers
                        [TimerToggle (length (threads w));
                         TimerToggle (2 + length (threads w))]
                        (set_threads
                           (threads w
                            ++ [ThToggleTimer; ThDone (RRows arr);
                                ThToggleTimer; ThDone (RRows arr)])
                           (set_c_showContent (VBool true)
                              (set_k_overflow (Some "hidden") w1)))).
    { subst w2. rewrite (toggle_open_cached w1 arr) by done.
      rewrite Ht1, Hth1, length_app, <-app_assoc. simpl.
      by rewrite Nat.add_comm. }
    split; [|by rewrite E2].
    set (T := length (threads w)) in *.
    set (w3 := timer w2).
    assert (E3 : w3 = toggle_commit T true
                        (set_timers [TimerToggle (2 + T)] w2)).
    { subst w3. apply timer_toggle; rewrite E2; [done|].
      simpl. subst T. apply lookup_at_length. }
    assert (H3 : timers w3 = [TimerToggle (2 + T)]
                 ∧ threads w3 !! (2 + T) = Some ThToggleTimer).
    { rewrite E3.
      match goal with
      | |- context [toggle_commit T true ?w0] =>
          destruct (toggle_commit_frame T true w0)
            as (_ & _ & -> & _ & _ & _ & Hth)
      end.
      rewrite Hth by lia. rewrite E2. split; [done|]. simpl.
      subst T. apply lookup_after2. }
    destruct H3 as (Ht3 & Hth3). clearbody w3.
    erewrite timer_toggle; [apply toggle_commit_open|done..].
Qed.

(** ** The header element and the toggle button *)

Lemma alter_at_length {A} (f : A → A) (l : list A) (x : A) (r : list A) :
  alter f (length l) (l ++ x :: r) = l ++ f x :: r.
Proof.
  pose proof (alter_app_r f l (x :: r) 0) as H.
  by rewrite Nat.add_0_r in H.
Qed.

(** The [_createRow] of a header, run to its end: the element is made and
    the reactions on the header promise run with it. *)
Lemma head_row_created W ts head p cbs :
  threads W = ts ++ [ThCreateRow AwaitHelpers head (DHead p)] →
  heads W !! p = Some (HPending cbs) →
  let h := length (handles W) in
  let config := row_config (c_config W) (parentCard W) true head in
  let el := mkElement config (if truthy (c_hass W) then c_hass W else VUndef)
              None None None None Unbound in
  run W [EvExternal (length ts); EvExternal (length ts)]
  = foldl (run_head_cb h)
      (set_heads (<[p := HResolved h]> (heads W))
         (set_threads (ts ++ [ThDone (RHandle h)])
            (set_trace
               (trace W ++ EFactory config h
                  :: (if truthy (c_hass W) then [ESetHass h (c_hass W)]
                      else []))
               (set_handles (handles W ++ [el]) W))))
      cbs.
Proof.
  intros Ht Hp h config el.
  cbn [run foldl step].
  unfold external at 2. rewrite Ht, lookup_at_length.
  unfold set_thread. rewrite Ht, insert_at_length.
  unfold external. cbn [threads set_threads]. rewrite lookup_at_length.
  unfold create_row_finish. cbn zeta. cbn [is_head].
  cbn [c_config parentCard handles c_hass set_threads].
  fold config h. unfold set_thread, emit, resolve_head.
  cbn [c_hass set_handles set_trace set_threads threads heads handles trace].
  destruct (truthy (c_hass W)) eqn:Eh;
    cbn [c_hass set_handles set_trace set_threads threads heads handles
         trace];
    rewrite insert_at_length, Hp, <-?app_assoc; reflexivity.
Qed.

Lemma field_size c k : field c k ≠ VUndef → size c ≠ 0.
Proof.
  intros Hf Hs. apply map_size_empty_iff in Hs. subst c.
  unfold field in Hf. by rewrite lookup_empty in Hf.
Qed.

Lemma head_descriptor_size c : truthy (head_descriptor c) = true → size c ≠ 0.
Proof.
  intros Ht Hs. apply map_size_empty_iff in Hs. subst c.
  by vm_compute in Ht.
Qed.

Lemma resolve_clickable_size c head :
  size c ≠ 0 → size (resolve_clickable c head) ≠ 0.
Proof.
  intros Hc. unfold resolve_clickable. repeat case_match; try done.
  intros Hs%map_size_empty_iff. by apply insert_non_empty in Hs.
Qed.

Lemma render_configured w :
  size (c_config w) ≠ 0 →
  ∃ v, render w = inr v
       ∧ v_head v = head (resolved_head w)
       ∧ v_role v = (if truthy (field (c_config w) "clickable") then None
                     else Some "switch")
       ∧ v_tabindex v = (if truthy (field (c_config w) "clickable") then "-1"
                         else "0")
       ∧ v_aria_checked v = (if truthy (c_open w) then "true" else "false")
       ∧ v_aria_label v
         = (if truthy (field (c_config w) "clickable") then ""
            else if truthy (c_open w) then "Toggle fold closed"
                 else "Toggle fold open").
Proof.
  intros Hs. unfold render. destruct (decide (size (c_config w) = 0)); [done|].
  eexists. split; [done|]. simpl. split; [|done].
  unfold resolved_head. by repeat case_match.
Qed.

(** X14: a clickable header becomes the switch.  Once the host has made
    the header element and looked up its inner row, the element is the one the
    header promise holds; it was made from the head descriptor without
    [group_config]; it can take the focus, has the role "switch" and the
    label and [aria-checked] that tell whether the fold is open; and the tap
    is delegated to the inner row when that has an action handler, and bound
    to the element otherwise.  The toggle button then has no role, cannot
    take the focus and has an empty label. *)
Theorem clickable_header_becomes_switch (w : World) :
  let head := head_descriptor (c_config w) in
  let c' := resolve_clickable (c_config w) head in
  truthy head = true → truthy (field c' "clickable") = true →
  let L := length (threads w) in
  let h := length (handles w) in
  let p := length (heads w) in
  let inner := head_has_action_handler w in
  let w' := run (load_head w)
              ([EvExternal L; EvExternal L; EvExternal (S L)]
               ++ (if inner then [EvExternal (S L)] else [])) in
  c_head w' = Some p ∧ heads w' !! p = Some (HResolved h)
  ∧ handles w'
    = handles w
      ++ [mkElement (row_config c' (parentCard w) true head)
            (if truthy (c_hass w) then c_hass w else VUndef)
            (Some 0%Z) (Some "switch")
            (Some (if truthy (c_open w) then "Toggle fold closed"
                   else "Toggle fold open"))
            (Some (if truthy (c_open w) then "true" else "false"))
            (if inner then DelegatedTap else ActionListener)]
  ∧ threads w' = threads w ++ [ThDone (RHandle h); ThDone RUndef]
  ∧ ∃ v, render w' = inr v ∧ v_head v = Some h ∧ v_role v = None
         ∧ v_tabindex v = "-1" ∧ v_aria_label v = "".
Proof.
  intros head c' Hh Hc L h p inner w'. subst L h p inner w'.
  set (W := load_head w).
  assert (EW : W = set_c_head (Some (length (heads w)))
                     (spawn (ThCreateRow AwaitHelpers head
                               (DHead (length (heads w))))
                        (set_heads (heads w ++ [HPending [CbSetup]])
                           (set_c_config c' w)))).
  { subst W. rewrite load_head_present by done. fold head c'. by rewrite Hc. }
  assert (Ht : threads W
               = threads w
                 ++ [ThCreateRow AwaitHelpers head (DHead (length (heads w)))])
    by (by rewrite EW).
  assert (Hp : heads W !! length (heads w) = Some (HPending [CbSetup])).
  { rewrite EW. simpl. apply lookup_at_length. }
  pose proof (head_row_created W (threads w) head _ [CbSetup] Ht Hp) as H2.
  cbn zeta in H2.
  assert (FW : handles W = handles w ∧ c_config W = c'
               ∧ parentCard W = parentCard w ∧ c_hass W = c_hass w
               ∧ heads W = heads w ++ [HPending [CbSetup]]
               ∧ c_head W = Some (length (heads w)) ∧ c_open W = c_open w
               ∧ head_has_action_handler W = head_has_action_handler w)
    by (by rewrite EW).
  destruct FW as (Fh & Fc & Fp & Fhass & Fheads & Fhead & Fopen & Finner).
  rewrite Fh, Fc, Fp, Fhass, Fheads in H2.
  clear EW Ht Hp. clearbody W.
  unfold run in *. rewrite foldl_app.
  change (foldl step W [EvExternal (length (threads w));
                        EvExternal (length (threads w));
                        EvExternal (S (length (threads w)))])
    with (step (foldl step W [EvExternal (length (threads w));
                              EvExternal (length (threads w))])
            (EvExternal (S (length (threads w))))).
  rewrite H2. clear H2. cbn [foldl run_head_cb].
  set (el := mkElement _ _ None None None None Unbound).
  set (W2 := spawn _ _).
  assert (T2 : threads W2
               = threads w ++ [ThDone (RHandle (length (handles w)));
                               ThHeadSetup SelectDiv (length (handles w))])
    by (subst W2; simpl; by rewrite <-app_assoc).
  assert (F2 : handles W2 = handles w ++ [el]
               ∧ heads W2 = heads w ++ [HResolved (length (handles w))]
               ∧ c_head W2 = Some (length (heads w))
               ∧ c_open W2 = c_open w ∧ c_config W2 = c'
               ∧ head_has_action_handler W2 = head_has_action_handler w).
  { subst W2. simpl. by rewrite insert_at_length. }
  destruct F2 as (G1 & G2 & G3 & G4 & G5 & G6). clearbody W2.
  assert (Hfin : ∀ b W3 x,
            threads W3
            = threads w ++ [ThDone (RHandle (length (handles w))); x] →
            handles W3 = handles W2 →
            heads W3 = heads W2 → c_head W3 = c_head W2 →
            c_open W3 = c_open W2 → c_config W3 = c_config W2 →
            let w' := head_setup_finish (S (length (threads w)))
                        (length (handles w)) b W3 in
            c_head w' = Some (length (heads w))
            ∧ heads w' !! length (heads w)
              = Some (HResolved (length (handles w)))
            ∧ handles w'
              = handles w
                ++ [el_set_aria (truthy (c_open w)) (el_set_switch b el)]
            ∧ threads w'
              = threads w ++ [ThDone (RHandle (length (handles w)));
                              ThDone RUndef]
            ∧ ∃ v, render w' = inr v
                   ∧ v_head v = Some (length (handles w))
                   ∧ v_role v = None ∧ v_tabindex v = "-1"
                   ∧ v_aria_label v = "").
  { intros b W3 x E1 E2 E3 E4 E5 E6 w'. subst w'.
    unfold head_setup_finish, update_handle, set_thread.
    cbn [threads set_threads handles set_handles c_open c_head heads
         c_config set_heads set_trace].
    rewrite E1, E2, E3, E4, E5, G1, G2, G3, G4.
    rewrite insert_after_length, lookup_at_length, alter_at_length.
    repeat split; try done.
    match goal with
    | |- ∃ v, render ?w' = _ ∧ _ =>
        destruct (render_configured w') as (v & Hv & Hhd & Hro & Hta & _ & Hl)
    end.
    { cbn. rewrite E6, G5. apply (field_size _ "clickable").
      intros E. by rewrite E in Hc. }
    exists v. split; [done|]. revert Hhd Hro Hta Hl.
    unfold resolved_head. cbn. rewrite E3, E4, E6, G2, G3, G5, Hc.
    rewrite lookup_at_length. by intros -> -> -> ->. }
  cbn [step].
  assert (E3 : external (S (length (threads w))) W2
               = if head_has_action_handler w
                 then set_thread (S (length (threads w)))
                        (ThHeadSetup SelectRow (length (handles w))) W2
                 else head_setup_finish (S (length (threads w)))
                        (length (handles w)) ActionListener W2).
  { unfold external. by rewrite T2, lookup_after_length, G6. }
  rewrite E3. clear E3.
  destruct (head_has_action_handler w).
  - cbn [foldl step]. unfold external.
    change (threads (set_thread ?t ?x W2)) with (<[t := x]> (threads W2)).
    rewrite T2, insert_after_length, lookup_after_length.
    eapply Hfin; try done. simpl.
    by rewrite T2, insert_after_length.
  - cbn [foldl]. by eapply Hfin.
Qed.

(** X15: a header that is not clickable is left as the row factory made
    it: once the host has made the element, the header promise holds it, it
    was made from the head descriptor without [group_config], and it has no
    role, no tab index, no accessibility state and no binding to [toggle]; no
    reaction is left on the promise and no activation is started.  The
    toggle button is then the switch: it has the role, can take the focus and
    carries the label and [aria-checked] that tell whether the fold is
    open. *)
Theorem plain_header_is_left_alone (w : World) :
  let head := head_descriptor (c_config w) in
  let c' := resolve_clickable (c_config w) head in
  truthy head = true → truthy (field c' "clickable") = false →
  let L := length (threads w) in
  let h := length (handles w) in
  let p := length (heads w) in
  let w' := run (load_head w) [EvExternal L; EvExternal L] in
  c_head w' = Some p ∧ heads w' !! p = Some (HResolved h)
  ∧ handles w'
    = handles w
      ++ [mkElement (row_config c' (parentCard w) true head)
            (if truthy (c_hass w) then c_hass w else VUndef)
            None None None None Unbound]
  ∧ threads w' = threads w ++ [ThDone (RHandle h)]
  ∧ ∃ v, render w' = inr v ∧ v_head v = Some h
         ∧ v_role v = Some "switch" ∧ v_tabindex v = "0"
         ∧ v_aria_checked v = (if truthy (c_open w) then "true" else "false")
         ∧ v_aria_label v = (if truthy (c_open w) then "Toggle fold closed"
                             else "Toggle fold open").
Proof.
  intros head c' Hh Hc L h p w'. subst L h p w'.
  set (W := load_head w).
  assert (EW : W = set_c_head (Some (length (heads w)))
                     (spawn (ThCreateRow AwaitHelpers head
                               (DHead (length (heads w))))
                        (set_heads (heads w ++ [HPending []])
                           (set_c_config c' w)))).
  { subst W. rewrite load_head_present by done. fold head c'. by rewrite Hc. }
  assert (Ht : threads W
               = threads w
                 ++ [ThCreateRow AwaitHelpers head (DHead (length (heads w)))])
    by (by rewrite EW).
  assert (Hp : heads W !! length (heads w) = Some (HPending [])).
  { rewrite EW. simpl. apply lookup_at_length. }
  rewrite (head_row_created W (threads w) head _ [] Ht Hp). cbn [foldl].
  assert (FW : handles W = handles w ∧ c_config W = c'
               ∧ parentCard W = parentCard w ∧ c_hass W = c_hass w
               ∧ heads W = heads w ++ [HPending []]
               ∧ c_head W = Some (length (heads w)) ∧ c_open W = c_open w)
    by (by rewrite EW).
  destruct FW as (Fh & Fc & Fp & Fhass & Fheads & Fhead & Fopen).
  clear EW Ht Hp. clearbody W.
  cbn [c_head heads handles threads set_heads set_threads set_trace
       set_handles].
  rewrite Fh, Fc, Fp, Fhass, Fheads, Fhead, insert_at_length, lookup_at_length.
  repeat split; try done.
  match goal with
  | |- ∃ v, render ?w' = _ ∧ _ =>
      destruct (render_configured w') as (v & Hv & Hhd & Hro & Hta & Hch & Hl)
  end.
  { cbn. rewrite Fc. by apply resolve_clickable_size, head_descriptor_size. }
  exists v. split; [done|]. revert Hhd Hro Hta Hch Hl.
  unfold resolved_head. cbn.
  rewrite ?Fc, ?Fheads, ?Fhead, ?Fopen, ?Hc, ?insert_at_length,
    ?lookup_at_length.
  by intros -> -> -> -> ->.
Qed.

(** ** What is rendered after a configuration *)

Lemma rows_loader_throw tid e caller w :
  c_rows (loader_throw tid e caller w) = c_rows w.
Proof. unfold loader_throw. simpl. by repeat case_match. Qed.

Lemma no_rows_load_rows_items tid items caller w :
  no_rows w → no_rows (load_rows_items tid items caller w).
Proof.
  intros Hn. unfold load_rows_items.
  destruct (is_undefined items);
    [unfold no_rows; by rewrite rows_loader_throw|].
  destruct (negb (truthy items) || negb (is_array items));
    [unfold no_rows; by rewrite rows_loader_throw|].
  destruct items as [| | | | |l|]; try done.
  unfold try_join. set (w1 := set_thread _ _ _).
  assert (H1 : c_rows w1 = c_rows w) by done.
  assert (Hth : ∀ x, threads w1 !! tid = Some x →
            x = ThLoadRowsAll (replicate (length l) None) caller).
  { intros x. subst w1. unfold set_thread. simpl.
    intros [[_ [<- _]]|[? _]]%list_lookup_insert_Some; done. }
  destruct (threads w1 !! tid) as [x|] eqn:Ex;
    [|unfold no_rows; by rewrite H1].
  rewrite (Hth x eq_refl).
  destruct l as [|i l];
    [|cbn [length]; rewrite mapM_replicate_None;
      unfold no_rows; by rewrite H1].
  simpl. unfold join_complete, loader_return. simpl.
  destruct caller; [unfold toggle_after_rows; repeat case_match|];
    by eexists.
Qed.

Lemma no_rows_load_rows caller w : no_rows w → no_rows (load_rows caller w).
Proof.
  intros [a Hr]. unfold load_rows. cbn zeta.
  change (c_rows (spawn ThRunning w)) with (c_rows w). rewrite Hr. simpl.
  assert (Hn : no_rows (spawn ThRunning w)) by (by exists a).
  destruct (get_prop _ _);
    [unfold no_rows; rewrite rows_loader_throw; by eauto|].
  destruct (truthy _ && is_undefined _);
    [|by apply no_rows_load_rows_items].
  destruct (is_undefined _); [by exists a|].
  unfold load_rows_group. cbn zeta.
  destruct (group_members _ _);
    [unfold no_rows; rewrite rows_loader_throw; by eauto|].
  apply no_rows_load_rows_items. by exists a.
Qed.

Lemma no_rows_setConfig config w : no_rows (setConfig config w).
Proof.
  rewrite setConfig_unfold.
  assert (Hn : no_rows (reset_rows config w)) by (by eexists).
  case_match; [by apply no_rows_load_rows|done].
Qed.

(** X16: [render] needs a configuration: before the first [setConfig]
    it fails with a [TypeError].  Right after any [setConfig] it succeeds and
    shows no child row, whatever rows were shown before and also when the
    rows are loaded at once; the container's [--row-padding] is 24px when
    the configuration has no [padding], and the configured [padding] when
    that is a safe integer or a string; and [aria-expanded], [aria-hidden]
    and the container's class all follow the component's [open], which is
    never nullish then. *)
Theorem render_after_setConfig (config : JsVal) (w : World) (pc : JsVal)
    (scroll : Z) (inner : bool) :
  render (fresh pc scroll inner) = inl JsTypeError
  ∧ ∃ v, render (setConfig config w) = inr v
         ∧ v_rows v = Some []
         ∧ (own_props config !! "padding" = None →
            v_style v = "--row-padding: 24px;")
         ∧ (∀ n, own_props config !! "padding" = Some (VNum n) →
                 safe_integer n →
                 v_style v = "--row-padding: " +:+ pretty n +:+ "px;")
         ∧ (∀ s, own_props config !! "padding" = Some (VStr s) →
                 v_style v = "--row-padding: " +:+ s +:+ "px;")
         ∧ v_aria_expanded v
           = coalesce (coalesce (c_open w) (field (merge_config config) "open"))
               (VBool false)
         ∧ nullish (v_aria_expanded v) = false
         ∧ v_aria_hidden v = negb (truthy (v_aria_expanded v))
         ∧ v_container_class v
           = (if truthy (v_aria_expanded v) then "container expanded"
              else "container ").
Proof.
  split; [done|].
  set (w' := setConfig config w).
  assert (Hc : field (c_config w') "padding"
               = match own_props config !! "padding" with
                 | Some x => x
                 | None => VNum 24
                 end).
  { subst w'. rewrite setConfig_config, load_head_field by done.
    change (c_config (configured config w)) with (merge_config config).
    rewrite merge_config_field. by case_match. }
  assert (Hs : size (c_config w') ≠ 0).
  { subst w'. rewrite setConfig_config, load_head_config.
    change (c_config (configured config w)) with (merge_config config).
    assert (size (merge_config config) ≠ 0).
    { intros E%map_size_empty_iff.
      assert (Hl : merge_config config !! "padding" = None)
        by (by rewrite E).
      unfold merge_config in Hl. apply lookup_union_None in Hl as [_ Hl].
      done. }
    destruct (truthy (head_descriptor (merge_config config)));
      [by apply resolve_clickable_size|done]. }
  destruct (no_rows_setConfig config w) as [a Hr]. fold w' in Hr.
  assert (Ho : c_open w'
               = coalesce
                   (coalesce (c_open w) (field (merge_config config) "open"))
                   (VBool false)) by apply setConfig_open.
  clearbody w'. unfold render.
  destruct (decide (size (c_config w') = 0)); [done|].
  eexists. split; [done|]. cbn.
  rewrite Hr, Hc, Ho. repeat split; try done.
  - by intros ->.
  - by intros k -> _.
  - by intros s ->.
  - unfold coalesce.
    destruct (nullish (c_open w)) eqn:E1; [|by rewrite E1].
    by destruct (nullish (field (merge_config config) "open")) eqn:E2.
  - by destruct (truthy _).
Qed.

(** ** The states between two toggles *)

Lemma thread_ok_mono w w' th :
  (length (handles w) ≤ length (handles w'))%nat →
  thread_ok w th → thread_ok w' th.
Proof.
  intros Hle. destruct th; simpl; try done.
  - intros H h Hh. specialize (H h Hh). lia.
  - lia.
Qed.

(** A change that leaves the header promises, [this.head] and [this.rows]
    alone, and the waiter in place or cleared. *)
Lemma wf_frame w w' :
  well_formed w →
  heads w' = heads w → c_head w' = c_head w → c_rows w' = c_rows w →
  (c_hassResolve w' = c_hassResolve w ∨ c_hassResolve w' = None) →
  (length (handles w) ≤ length (handles w'))%nat →
  (length (threads w) ≤ length (threads w'))%nat →
  (∀ t th, threads w' !! t = Some th →
           threads w !! t = Some th ∨ thread_ok w' th) →
  well_formed w'.
Proof.
  intros [H1 H2 H3 H4 H5 H6] Eh Ec Er Ew Lh Lt Hth. split.
  - intros p h. rewrite Eh. intros Hp. specialize (H1 p h Hp). lia.
  - intros p cbs t. rewrite Eh. intros Hp Hin.
    specialize (H2 p cbs t Hp Hin). lia.
  - intros p. rewrite Ec, Eh. apply H3.
  - intros h. unfold cached_rows. rewrite Er. intros Hin.
    specialize (H4 h Hin). lia.
  - intros t th Ht. destruct (Hth t th Ht) as [Hold|Hok]; [|done].
    eapply thread_ok_mono; [exact Lh|]. by eapply H5.
  - intros t Ht. destruct Ew as [Ew|Ew]; [|congruence].
    rewrite Ew in Ht. specialize (H6 t Ht). lia.
Qed.

Lemma wf_set_thread tid th w w1 :
  well_formed w →
  heads w1 = heads w → c_head w1 = c_head w → c_rows w1 = c_rows w →
  (c_hassResolve w1 = c_hassResolve w ∨ c_hassResolve w1 = None) →
  (length (handles w) ≤ length (handles w1))%nat →
  threads w1 = threads w →
  thread_ok w1 th →
  well_formed (set_thread tid th w1).
Proof.
  intros Hw Eh Ec Er Ew Lh Et Hok.
  apply (wf_frame w); try done.
  - simpl. rewrite length_insert, Et. lia.
  - intros t x. simpl. rewrite Et.
    intros [[_ [<- _]]|[_ Hx]]%list_lookup_insert_Some; [by right|by left].
Qed.

Lemma wf_app new w w1 :
  well_formed w →
  heads w1 = heads w → c_head w1 = c_head w → c_rows w1 = c_rows w →
  (c_hassResolve w1 = c_hassResolve w ∨ c_hassResolve w1 = None) →
  (length (handles w) ≤ length (handles w1))%nat →
  threads w1 = threads w ++ new →
  Forall (thread_ok w1) new →
  well_formed w1.
Proof.
  intros Hw Eh Ec Er Ew Lh Et Hok.
  apply (wf_frame w); try done.
  - rewrite Et, length_app. lia.
  - intros t x. rewrite Et.
    intros [Hx|[_ Hx]]%lookup_app_Some; [by left|right].
    rewrite Forall_forall in Hok. eapply Hok, list_elem_of_lookup_2, Hx.
Qed.

Lemma wf_toggle_after_rows t w :
  well_formed w → well_formed (toggle_after_rows t w).
Proof.
  intros Hw. unfold toggle_after_rows.
  destruct (threads w !! t) as [[]|]; try done.
  apply (wf_set_thread _ _ w); by auto.
Qed.

Lemma wf_loader_return tid r caller w :
  well_formed w → well_formed (loader_return tid r caller w).
Proof.
  intros Hw. unfold loader_return.
  assert (well_formed (set_thread tid (ThDone r) w))
    by (apply (wf_set_thread _ _ w); by auto).
  destruct caller; [by apply wf_toggle_after_rows|done].
Qed.

Lemma wf_loader_throw tid e caller w :
  well_formed w → well_formed (loader_throw tid e caller w).
Proof.
  intros Hw. unfold loader_throw. cbn zeta.
  set (w1 := set_thread tid (ThFailed e) w).
  assert (H1 : well_formed w1)
    by (apply (wf_set_thread _ _ w); by auto).
  clearbody w1.
  set (w2 := match caller with Some t => _ | None => _ end).
  assert (H2 : well_formed w2).
  { subst w2. destruct caller as [t|]; [|done].
    destruct (threads w1 !! t) as [[]|]; try done.
    apply (wf_set_thread _ _ w1); by auto. }
  clearbody w2. apply (wf_frame w2); by auto.
Qed.

Lemma mapM_id_elem (slots : list (option nat)) hs h :
  mapM id slots = Some hs → h ∈ hs → Some h ∈ slots.
Proof.
  intros Hm Hin. apply mapM_Some in Hm.
  apply list_elem_of_lookup in Hin as [k Hk].
  destruct (Forall2_lookup_r _ _ _ _ _ Hm Hk) as (x & Hx & E).
  simpl in E. subst x. by eapply list_elem_of_lookup_2.
Qed.

Lemma wf_try_join tid w : well_formed w → well_formed (try_join tid w).
Proof.
  intros Hw. unfold try_join.
  destruct (threads w !! tid) as [[]|] eqn:Et; try done.
  destruct (mapM id slots) as [hs|] eqn:Em; [|done].
  unfold join_complete. apply wf_loader_return.
  pose proof (wf_threads _ Hw _ _ Et) as Hok. simpl in Hok.
  destruct Hw as [H1 H2 H3 H4 H5 H6]. split; try done.
  intros h Hin. apply Hok. by eapply mapM_id_elem.
Qed.

Lemma wf_fill_slot tid idx h w :
  well_formed w → h < length (handles w) →
  well_formed (fill_slot tid idx h w).
Proof.
  intros Hw Hh. unfold fill_slot.
  destruct (threads w !! tid) as [[]|] eqn:Et; try done.
  apply wf_try_join. apply (wf_set_thread _ _ w); try by auto.
  pose proof (wf_threads _ Hw _ _ Et) as Hok. simpl in Hok. simpl.
  intros h' Hin.
  apply list_elem_of_lookup in Hin as [k Hk].
  destruct (decide (k = idx)) as [->|Hne].
  - assert (idx < length slots).
    { apply lookup_lt_Some in Hk. by rewrite length_insert in Hk. }
    rewrite list_lookup_insert_eq in Hk by done. by simplify_eq.
  - rewrite list_lookup_insert_ne in Hk by done.
    eapply Hok, list_elem_of_lookup_2, Hk.
Qed.

Lemma row_threads_ok w tid l : Forall (thread_ok w) (row_threads tid l).
Proof.
  apply Forall_forall. intros t (k & Hk)%list_elem_of_lookup.
  unfold row_threads in Hk. rewrite list_lookup_imap in Hk.
  destruct (l !! k); by simplify_eq/=.
Qed.

Lemma wf_load_rows_items tid items caller w :
  well_formed w → well_formed (load_rows_items tid items caller w).
Proof.
  intros Hw. unfold load_rows_items.
  destruct (is_undefined items); [by apply wf_loader_throw|].
  destruct (negb (truthy items) || negb (is_array items));
    [by apply wf_loader_throw|].
  destruct items as [| | | | |l|]; try done.
  apply wf_try_join.
  set (w1 := set_threads _ w).
  assert (H1 : well_formed w1).
  { apply (wf_app (row_threads tid l) w); try by auto.
    apply row_threads_ok. }
  clearbody w1. apply (wf_set_thread _ _ w1); try by auto.
  simpl. intros h Hin. apply elem_of_replicate in Hin as [? _]. done.
Qed.

Lemma wf_load_rows_group tid head caller w :
  well_formed w → well_formed (load_rows_group tid head caller w).
Proof.
  intros Hw. unfold load_rows_group. cbn zeta.
  set (w1 := set_c_hassResolve None w).
  assert (H1 : well_formed w1) by (apply (wf_frame w); by auto).
  clearbody w1.
  destruct (group_members _ _);
    [by apply wf_loader_throw|by apply wf_load_rows_items].
Qed.

Lemma wf_load_rows caller w : well_formed w → well_formed (load_rows caller w).
Proof.
  intros Hw. unfold load_rows. cbn zeta.
  set (w1 := spawn ThRunning w).
  assert (H1 : well_formed w1).
  { apply (wf_app [ThRunning] w); try by auto. by repeat constructor. }
  assert (Ht1 : threads w1 = threads w ++ [ThRunning]) by done.
  assert (Hc1 : c_rows w1 = c_rows w ∧ c_config w1 = c_config w
                ∧ c_hass w1 = c_hass w) by done.
  destruct Hc1 as (-> & -> & ->). clearbody w1.
  destruct (c_rows w) as [rows|]; [|by apply wf_loader_throw].
  destruct (negb _); [by apply wf_loader_return|].
  destruct (get_prop _ _); [by apply wf_loader_throw|].
  destruct (truthy _ && is_undefined _); [|by apply wf_load_rows_items].
  destruct (is_undefined _); [|by apply wf_load_rows_group].
  set (w2 := set_c_hassResolve _ w1).
  assert (H2 : well_formed w2).
  { destruct H1 as [G1 G2 G3 G4 G5 G6]. split; try done.
    intros t [= <-]. simpl. rewrite Ht1, length_app. simpl. lia. }
  clearbody w2. apply (wf_set_thread _ _ w2); by auto.
Qed.

Lemma wf_update_handle h f w :
  well_formed w → well_formed (update_handle h f w).
Proof.
  intros Hw. apply (wf_frame w); try by auto.
  simpl. by rewrite length_alter.
Qed.

Lemma wf_push_hass h w : well_formed w → well_formed (push_hass h w).
Proof.
  intros Hw. unfold push_hass.
  apply (wf_frame (update_handle h (el_set_hass (c_hass w)) w));
    try by auto.
  by apply wf_update_handle.
Qed.

Lemma wf_toggle_aria t h w : well_formed w → well_formed (toggle_aria t h w).
Proof.
  intros Hw. unfold toggle_aria.
  apply (wf_set_thread _ _ (update_handle h (el_set_aria (truthy (c_open w))) w));
    try by auto.
  by apply wf_update_handle.
Qed.

Lemma wf_toggle_await_head t w :
  well_formed w → t < length (threads w) →
  well_formed (toggle_await_head t w).
Proof.
  intros Hw Ht. unfold toggle_await_head.
  assert (Hfail : well_formed
            (emit (EUnhandled JsTypeError)
               (set_thread t (ThFailed JsTypeError) w))).
  { apply (wf_frame (set_thread t (ThFailed JsTypeError) w)); try by auto.
    apply (wf_set_thread _ _ w); by auto. }
  destruct (c_head w) as [p|] eqn:Ec; [|done].
  destruct (heads w !! p) as [[cbs|h]|] eqn:Ep; [|by apply wf_toggle_aria|done].
  set (w1 := set_heads _ w).
  assert (H1 : well_formed w1).
  { destruct Hw as [G1 G2 G3 G4 G5 G6]. split; try done.
    - intros p' h'. simpl.
      intros [[_ [? _]]|[_ Hx]]%list_lookup_insert_Some; [done|].
      by eapply G1.
    - intros p' cbs' t'. simpl.
      intros [[_ [[= <-] _]]|[_ Hx]]%list_lookup_insert_Some.
      + intros [Hin|Hin%list_elem_of_singleton]%elem_of_app.
        * by eapply G2.
        * by simplify_eq.
      + by eapply G2.
    - intros p'. simpl. rewrite length_insert. apply G3. }
  clearbody w1. apply (wf_set_thread _ _ w1); by auto.
Qed.

Lemma wf_toggle_commit t b w :
  well_formed w → t < length (threads w) →
  well_formed (toggle_commit t b w).
Proof.
  intros Hw Ht. unfold toggle_commit. cbn zeta.
  set (w1 := set_c_open _ _).
  assert (H1 : well_formed w1)
    by (subst w1; destruct b; apply (wf_frame w); by auto).
  assert (Ht1 : threads w1 = threads w) by (by destruct b).
  assert (Hc1 : c_config w1 = c_config w) by (by destruct b).
  rewrite Hc1. clearbody w1.
  destruct (truthy _).
  - apply wf_toggle_await_head; [done|]. by rewrite Ht1.
  - apply (wf_set_thread _ _ w1); by auto.
Qed.

Lemma wf_run_head_cb h w cb :
  well_formed w → h < length (handles w) →
  well_formed (run_head_cb h w cb)
  ∧ length (handles (run_head_cb h w cb)) = length (handles w).
Proof.
  intros Hw Hh. destruct cb as [| |t]; simpl.
  - split; [|done].
    apply (wf_app [ThHeadSetup SelectDiv h] w); try (by auto);
      by repeat constructor.
  - split; [by apply wf_push_hass|]. by rewrite length_alter.
  - destruct (threads w !! t) as [[]|]; try done.
    split; [by apply wf_toggle_aria|]. simpl. by rewrite length_alter.
Qed.

Lemma wf_foldl_head_cb h cbs : ∀ w,
  well_formed w → h < length (handles w) →
  well_formed (foldl (run_head_cb h) w cbs).
Proof.
  induction cbs as [|cb cbs IH]; intros w Hw Hh; [done|].
  simpl. destruct (wf_run_head_cb h w cb Hw Hh) as [H1 H2].
  apply IH; [done|]. by rewrite H2.
Qed.

Lemma wf_resolve_head p h w :
  well_formed w → h < length (handles w) →
  well_formed (resolve_head p h w).
Proof.
  intros Hw Hh. unfold resolve_head.
  destruct (heads w !! p) as [[cbs|h']|] eqn:Ep; try done.
  apply wf_foldl_head_cb; [|done].
  destruct Hw as [G1 G2 G3 G4 G5 G6]. split; try done.
  - intros p' h'. simpl.
    intros [[_ [[= <-] _]]|[_ Hx]]%list_lookup_insert_Some; [done|].
    by eapply G1.
  - intros p' cbs' t'. simpl.
    intros [[_ [? _]]|[_ Hx]]%list_lookup_insert_Some; [done|].
    by eapply G2.
  - intros p'. simpl. rewrite length_insert. apply G3.
Qed.

Lemma wf_then_head p cb w :
  well_formed w → (∀ t, cb ≠ CbToggleAria t) →
  well_formed (then_head p cb w).
Proof.
  intros Hw Hcb. unfold then_head.
  destruct (heads w !! p) as [[cbs|h]|] eqn:Ep; [| |done].
  - destruct Hw as [G1 G2 G3 G4 G5 G6]. split; try done.
    + intros p' h'. simpl.
      intros [[_ [? _]]|[_ Hx]]%list_lookup_insert_Some; [done|].
      by eapply G1.
    + intros p' cbs' t'. simpl.
      intros [[_ [[= <-] _]]|[_ Hx]]%list_lookup_insert_Some.
      * intros [Hin|Hin%list_elem_of_singleton]%elem_of_app.
        -- by eapply G2.
        -- by destruct (Hcb t').
      * by eapply G2.
    + intros p'. simpl. rewrite length_insert. apply G3.
  - apply wf_run_head_cb; [done|]. by eapply (wf_heads _ Hw).
Qed.

Lemma wf_create_row_finish tid config d w :
  well_formed w → well_formed (create_row_finish tid config d w).
Proof.
  intros Hw. unfold create_row_finish. cbn zeta.
  set (el := mkElement _ _ None None None None Unbound).
  set (w0 := emit _ (set_handles (handles w ++ [el]) w)).
  assert (H0 : well_formed w0).
  { apply (wf_frame w); try by auto.
    simpl. rewrite length_app. lia. }
  assert (L0 : length (handles w) < length (handles w0)).
  { subst w0. simpl. rewrite length_app. simpl. lia. }
  change (c_hass w0) with (c_hass w). clearbody w0.
  set (w0' := if truthy (c_hass w) then _ else w0).
  assert (H0' : well_formed w0' ∧ handles w0' = handles w0).
  { subst w0'. destruct (truthy (c_hass w)); [|done].
    split; [|done]. apply (wf_frame w0); by auto. }
  destruct H0' as [H0' E0']. clearbody w0'.
  set (w1 := set_thread tid _ w0').
  assert (H1 : well_formed w1) by (apply (wf_set_thread _ _ w0'); by auto).
  assert (L1 : length (handles w) < length (handles w1))
    by (subst w1; simpl; by rewrite E0').
  clearbody w1.
  destruct d; [by apply wf_resolve_head|by apply wf_fill_slot].
Qed.

Lemma wf_head_setup_finish tid h b w :
  well_formed w → well_formed (head_setup_finish tid h b w).
Proof.
  intros Hw. unfold head_setup_finish.
  match goal with
  | |- well_formed (set_thread _ _ ?w0) =>
      apply (wf_set_thread _ _ w0); try by auto
  end.
  by apply wf_update_handle.
Qed.

Lemma wf_load_head w : well_formed w → well_formed (load_head w).
Proof.
  intros Hw.
  destruct (truthy (head_descriptor (c_config w))) eqn:E.
  - rewrite load_head_present by done.
    destruct Hw as [G1 G2 G3 G4 G5 G6]. split.
    + intros p h. simpl. intros [Hp|[_ Hp]]%lookup_app_Some; [by eapply G1|].
      destruct (p - length (heads w)) as [|]; by simplify_eq/=.
    + intros p cbs t. simpl. rewrite length_app.
      intros [Hp|[_ Hp]]%lookup_app_Some.
      * intros Hin. specialize (G2 p cbs t Hp Hin). lia.
      * destruct (p - length (heads w)) as [|]; simplify_eq/=.
        destruct (truthy (field _ "clickable")); intros Hin;
          [by apply list_elem_of_singleton in Hin
          |by apply elem_of_nil in Hin].
    + intros p [= <-]. simpl. rewrite length_app. simpl. lia.
    + done.
    + intros t th. simpl. intros [Ht|[_ Ht]]%lookup_app_Some; [by eapply G5|].
      destruct (t - length (threads w)) as [|]; by simplify_eq/=.
    + intros t Ht. simpl. rewrite length_app. specialize (G6 t Ht). lia.
  - rewrite load_head_missing by done. apply (wf_frame w); by auto.
Qed.

Lemma wf_external tid w : well_formed w → well_formed (external tid w).
Proof.
  intros Hw. unfold external.
  destruct (threads w !! tid) as [[| | |[] | | | | | |[]]|] eqn:Et; try done.
  - apply (wf_set_thread _ _ w); by auto.
  - by apply wf_create_row_finish.
  - pose proof (wf_threads _ Hw _ _ Et) as Hok.
    destruct (head_has_action_handler w);
      [apply (wf_set_thread _ _ w); by auto|by apply wf_head_setup_finish].
  - by apply wf_head_setup_finish.
Qed.

Lemma wf_timer w : well_formed w → well_formed (timer w).
Proof.
  intros Hw. unfold timer.
  destruct (timers w) as [|[t|] rest]; [done| |].
  - assert (H1 : well_formed (set_timers rest w))
      by (apply (wf_frame w); by auto).
    destruct (threads w !! t) as [th|] eqn:Et; [|done].
    destruct th; try done.
    apply wf_toggle_commit; [done|]. by eapply lookup_lt_Some.
  - apply (wf_frame w); by auto.
Qed.

Lemma wf_pushed w : well_formed w → well_formed (pushed w).
Proof.
  intros Hw. unfold pushed. cbn zeta.
  set (w1 := match c_rows w with Some _ => _ | None => _ end).
  assert (H1 : well_formed w1).
  { subst w1. destruct (c_rows w) as [rows|]; [|done].
    generalize (arr_elems rows). intros hs. revert w Hw.
    induction hs as [|h hs IH]; intros w Hw; [done|].
    simpl. by apply IH, wf_push_hass. }
  clearbody w1. destruct (c_head w1); [|done].
  by apply wf_then_head.
Qed.

Lemma wf_updated_hass w : well_formed w → well_formed (updated_hass w).
Proof.
  intros Hw. rewrite updated_hass_unfold.
  pose proof (wf_pushed w Hw) as Hp.
  destruct (c_hassResolve (pushed w)) as [tid|]; [|done].
  destruct (threads (pushed w) !! tid) as [[]|]; try done.
  by apply wf_load_rows_group.
Qed.

Lemma wf_setConfig config w : well_formed w → well_formed (setConfig config w).
Proof.
  intros Hw. rewrite setConfig_unfold.
  assert (Hr : well_formed (reset_rows config w)).
  { unfold reset_rows.
    assert (H1 : well_formed (load_head (configured config w))).
    { apply wf_load_head. apply (wf_frame w); by auto. }
    destruct H1 as [G1 G2 G3 G4 G5 G6]. split; try done.
    intros h Hin. by apply elem_of_nil in Hin. }
  case_match; [by apply wf_load_rows|done].
Qed.

Lemma wf_toggle w : well_formed w → well_formed (toggle w).
Proof.
  intros Hw. unfold toggle. cbn zeta.
  set (w1 := set_k_overflow _ (spawn ThRunning w)).
  assert (H1 : well_formed w1).
  { apply (wf_app [ThRunning] w); try by auto. by repeat constructor. }
  assert (Ht1 : length (threads w) < length (threads w1)).
  { subst w1. simpl. rewrite length_app. simpl. lia. }
  change (c_open (spawn ThRunning w)) with (c_open w).
  clearbody w1. destruct (negb _).
  - apply wf_load_rows. apply (wf_set_thread _ _ w1); by auto.
  - by apply wf_toggle_commit.
Qed.

Lemma wf_step w ev : well_formed w → well_formed (step w ev).
Proof.
  intros Hw. destruct ev as [config|v| | | |tid|]; simpl.
  - by apply wf_setConfig.
  - apply wf_updated_hass. apply (wf_frame w); by auto.
  - by apply wf_toggle.
  - by apply wf_load_rows.
  - apply (wf_frame w); by auto.
  - by apply wf_external.
  - by apply wf_timer.
Qed.

Lemma wf_fresh pc scroll inner : well_formed (fresh pc scroll inner).
Proof.
  split.
  - intros p h Hp. simpl in Hp. by rewrite lookup_nil in Hp.
  - intros p cbs t Hp. simpl in Hp. by rewrite lookup_nil in Hp.
  - done.
  - intros h Hin. by apply elem_of_nil in Hin.
  - intros t th Ht. simpl in Ht. by rewrite lookup_nil in Ht.
  - done.
Qed.

(** Every state the component can reach from its construction, by whatever
    turns of the loop, refers to nothing that is missing; so such a state is
    one between two toggles as soon as no [toggle] is suspended in it. *)
Lemma reachable_well_formed (pc : JsVal) (scroll : Z) (inner : bool)
    (es : list Event) :
  let w := run (fresh pc scroll inner) es in
  well_formed w ∧ (quiet w → settled w).
Proof.
  intros w.
  assert (Hw : well_formed w).
  { subst w. generalize (wf_fresh pc scroll inner).
    generalize (fresh pc scroll inner). induction es as [|ev es IH];
      intros w0 H0; [done|]. simpl. by apply IH, wf_step. }
  split; [done|]. intros Hq. split; [done|]. split; apply Hw.
Qed.

(** ** A fold that is configured open *)

(** X20: a configuration with [open: true] and an explicit item list
    makes [setConfig] load the rows at once, without any toggle: whatever the
    component was before and whatever the order in which the host ends the
    row creations, the cached rows are then those of the items, in order, made
    from the configuration [setConfig] has stored, and [render] shows exactly
    these rows. *)
Theorem open_configuration_loads_rows (config : JsVal) (w : World)
    (l : list JsVal) (sched : list nat) :
  let c := merge_config config in
  truthy (head_descriptor c) = true →
  explicit_items c = VArr l →
  truthy (field c "open") = true →
  let L := length (threads (reset_rows config w)) in
  sched ≡ₚ seq (S L) (length l) ++ seq (S L) (length l) →
  let w' := run (setConfig config w) (EvExternal <$> sched) in
  rows_match (c_config (setConfig config w)) (parentCard w) l w'
  ∧ length (cached_rows w') = length l
  ∧ ∃ v, render w' = inr v ∧ v_rows v = Some (cached_rows w').
Proof.
  intros c Hh He Ho L Hs w'. subst L w'.
  rewrite setConfig_unfold, reset_rows_open. fold c. rewrite Ho.
  pose proof (reset_rows_rows config w) as Hrr.
  assert (Hc0 : c_config (reset_rows config w)
                = resolve_clickable c (head_descriptor c)).
  { change (c_config (reset_rows config w))
      with (c_config (load_head (configured config w))).
    rewrite load_head_config.
    change (c_config (configured config w)) with c. by rewrite Hh. }
  assert (Hpc : parentCard (reset_rows config w) = parentCard w).
  { change (parentCard (reset_rows config w))
      with (parentCard (load_head (configured config w))).
    by rewrite load_head_present. }
  revert Hs Hrr Hc0 Hpc. generalize (reset_rows config w).
  intros w0 Hs Hrr Hc0 Hpc.
  assert (Hhd : head_descriptor (c_config w0) = head_descriptor c).
  { rewrite Hc0. unfold head_descriptor.
    by rewrite !resolve_clickable_other. }
  assert (Hit : explicit_items (c_config w0) = VArr l).
  { rewrite Hc0. unfold explicit_items.
    by rewrite !resolve_clickable_other. }
  rewrite (load_rows_explicit w0 (next_arr w) l Hrr)
    by (by rewrite ?Hhd; try apply truthy_not_nullish).
  assert (Hcc : c_config (loading l w0) = c_config w0) by (by destruct l).
  rewrite Hcc, <-Hpc.
  pose proof (loading_rows_match w0 l sched Hs) as Hm.
  split; [done|].
  destruct Hm as (a & hs & Hrows & Hf).
  split; [unfold cached_rows; rewrite Hrows; by eapply Forall2_length|].
  assert (Hcfg : c_config (run (loading l w0) (EvExternal <$> sched))
                 = c_config w0).
  { destruct l as [|i l].
    - apply Permutation_nil_r in Hs as ->. done.
    - destruct (schedule_of_rows (length (threads w0)) _ sched Hs)
        as [Hs1 Hcnt].
      pose proof (join_inv_loading w0 (i :: l) ltac:(done)) as Hinv.
      assert (Hinv' : join_inv (c_config w0) (parentCard w0)
                        (length (threads w0)) (i :: l)
                        (fun k => count_occ Nat.eq_dec sched
                                    (S (length (threads w0)) + k))
                        (loading (i :: l) w0)).
      { destruct Hinv as (Hc & Hp & slots & Hlen & Hrws & Hloader).
        split; [done|]. split; [done|]. exists slots. split; [done|].
        split; [|done]. intros k item Hk.
        rewrite Hcnt by (by eapply lookup_lt_Some). by apply Hrws. }
      by destruct (join_inv_run _ _ _ _ sched _ Hs1 Hinv') as [Hc _]. }
  destruct (render_configured (run (loading l w0) (EvExternal <$> sched)))
    as (v & Hv & _).
  { rewrite Hcfg, Hc0. apply resolve_clickable_size.
    by apply head_descriptor_size. }
  exists v. split; [done|].
  unfold render in Hv.
  destruct (decide (size _ = 0)); [done|]. injection Hv as <-. simpl.
  unfold cached_rows. by rewrite Hrows.
Qed.

(** ** Toggles that do not negate, assignments that are not pushed *)

(** The toggle of [fold_xyz_ready], a closed fold whose rows are to be
    loaded, does come to negate [open]. *)
Lemma toggle_of_ready_fold_negates : toggle_commits_negation fold_xyz_ready.
Proof.
  exists z_x_y_then_tick. split; [repeat constructor|].
  vm_compute. reflexivity.
Qed.


(** A single assignment that is a change is pushed, once. *)
Lemma single_assignment_is_pushed :
  each_assignment_pushed xyz_reactive [lights_hass].
Proof.
  assert (Hl : cached_rows (component xyz_reactive)
               ++ resolved_head (component xyz_reactive) = [2; 3; 1; 0])
    by (vm_compute; reflexivity).
  intros h Hin. cbn zeta in Hin. rewrite Hl in Hin.
  apply list_elem_of_In in Hin.
  destruct Hin as [<-|[<-|[<-|[<-|[]]]]]; vm_compute; reflexivity.
Qed.

(** C9 does not hold of every assignment.  Two assignments of [hass] to
    the open fold [fold_xyz_open] before the update cycle give one write to
    each row, of the value assigned last; and an assignment of the value
    already held ([undefined] here) gives none. *)
Lemma assignments_are_pushed_per_update :
  ¬ each_assignment_pushed xyz_reactive [some_hass; lights_hass]
  ∧ ¬ each_assignment_pushed xyz_reactive [VUndef].
Proof.
  split; intros H.
  - specialize (H 2 ltac:(apply list_elem_of_In; vm_compute; auto 10)).
    vm_compute in H. discriminate H.
  - specialize (H 2 ltac:(apply list_elem_of_In; vm_compute; auto 10)).
    vm_compute in H. discriminate H.
Qed.

(** ** Further instances *)

Lemma entity_id_is_shorthand_witness :
  load_rows_items 1 (VArr (ensureObject <$> [VStr "light.a"])) None fold_ab
  = load_rows_items 1 (VArr [VStr "light.a"]) None fold_ab.
Proof.
  exact (proj2 (proj2 (proj2
           (entity_id_is_shorthand VUndef [VStr "light.a"] 1 None fold_ab)))).
Defined.

Lemma row_config_precedence_witness :
  get_own (row_config grouped_config VUndef false light_a_row)
    "secondary_info" = VStr "none".
Proof.
  destruct (row_config_precedence grouped_config VUndef light_a_row false
              "secondary_info") as [H _].
  apply H. vm_compute. reflexivity.
Defined.

Lemma setConfig_replaces_config_witness :
  field (c_config (setConfig (obj [("head", section_head)])
                     (fresh VUndef 0 false))) "padding" = VNum 24.
Proof.
  destruct (setConfig_replaces_config (obj [("head", section_head)])
              (fresh VUndef 0 false) (fresh VUndef 0 false) "padding")
    as (_ & _ & H & _).
  apply H. vm_compute. reflexivity.
Defined.

Lemma open_changes_only_by_toggle_witness :
  c_open (run fold_xyz_open
            [EvSetHass some_hass; EvTransitionEnd; EvLoadRows])
  = c_open fold_xyz_open.
Proof.
  destruct (open_changes_only_by_toggle fold_xyz_open
              [EvSetHass some_hass; EvTransitionEnd; EvLoadRows])
    as [H _].
  - apply (settledb_spec fold_xyz_open). vm_compute. reflexivity.
  - vm_compute. reflexivity.
  - repeat constructor; discriminate.
  - exact H.
Defined.


Lemma load_rows_needs_config_and_head_witness :
  failed_open JsTypeError
    (setConfig (obj [("entities", VArr [VStr "light.a"])])
       (fresh VUndef 0 false))
    (toggle (setConfig (obj [("entities", VArr [VStr "light.a"])])
               (fresh VUndef 0 false))).
Proof.
  destruct (load_rows_needs_config_and_head
              (setConfig (obj [("entities", VArr [VStr "light.a"])])
                 (fresh VUndef 0 false))
              (obj [("entities", VArr [VStr "light.a"])])) as (_ & H & _).
  destruct H as [_ H].
  - split; [exists 0|]; vm_compute; reflexivity.
  - apply H. vm_compute. reflexivity.
Defined.

Lemma group_members_resolution_witness :
  load_rows None fold_group_known
  = loading [VStr "light.a"; VStr "light.b"]
      (set_c_hassResolve None fold_group_known).
Proof.
  destruct (group_members_resolution fold_group_known 0 "group.lights")
    as [_ H].
  - vm_compute. reflexivity.
  - vm_compute. reflexivity.
  - discriminate.
  - vm_compute. reflexivity.
  - vm_compute. reflexivity.
  - destruct H as (_ & _ & H & _).
    + vm_compute. reflexivity.
    + vm_compute. reflexivity.
    + apply H. vm_compute. reflexivity.
Defined.


Lemma displaced_waiter_is_never_resumed_witness :
  threads (run (load_rows None fold_group_waiting) [EvSetHass lights_hass])
    !! 1
  = Some (ThLoadRowsHass (head_descriptor (c_config fold_group)) None).
Proof.
  destruct (displaced_waiter_is_never_resumed fold_group_waiting 0 1
              (ThLoadRowsHass (head_descriptor (c_config fold_group)) None)
              None [EvSetHass lights_hass]) as (_ & _ & H).
  - vm_compute. reflexivity.
  - vm_compute. reflexivity.
  - vm_compute. reflexivity.
  - vm_compute. reflexivity.
  - vm_compute. reflexivity.
  - reflexivity.
  - exact H.
Defined.


Lemma opening_expands_container_witness :
  k_overflow
    (step (step (toggle fold_xyz_closed) EvTimer) EvTransitionEnd)
  = Some "initial".
Proof.
  destruct (opening_expands_container fold_xyz_closed) as (_ & _ & H).
  - vm_compute. reflexivity.
  - vm_compute. discriminate.
  - vm_compute. reflexivity.
  - apply H.
Defined.

Lemma two_toggles_in_one_turn_open_witness :
  c_open (run fold_xyz_closed [EvToggle; EvToggle; EvTimer; EvTimer])
  = VBool true.
Proof.
  destruct (two_toggles_in_one_turn_open fold_xyz_closed) as [H _].
  - vm_compute. discriminate.
  - vm_compute. reflexivity.
  - exact H.
Defined.

Lemma style_class_of_type_witness :
  cls (obj [("type", VStr "custom:slider-entity-row")])
  = inr "type-fold-entity-row-custom-slider-entity-row".
Proof.
  destruct (style_class_of_type
              (obj [("type", VStr "custom:slider-entity-row")]))
    as (_ & H & _).
  apply (H "slider-entity-row"). vm_compute. reflexivity.
Defined.

Lemma clickable_header_becomes_switch_witness :
  heads (run (load_head section_fold)
           ([EvExternal (length (threads section_fold));
             EvExternal (length (threads section_fold));
             EvExternal (S (length (threads section_fold)))]
            ++ (if head_has_action_handler section_fold
                then [EvExternal (S (length (threads section_fold)))]
                else [])))
    !! length (heads section_fold)
  = Some (HResolved (length (handles section_fold))).
Proof.
  destruct (clickable_header_becomes_switch section_fold) as (_ & H & _).
  - vm_compute. reflexivity.
  - vm_compute. reflexivity.
  - exact H.
Defined.

Lemma plain_header_is_left_alone_witness :
  threads (run (load_head entity_fold)
             [EvExternal (length (threads entity_fold));
              EvExternal (length (threads entity_fold))])
  = threads entity_fold ++ [ThDone (RHandle (length (handles entity_fold)))].
Proof.
  destruct (plain_header_is_left_alone entity_fold) as (_ & _ & _ & H & _).
  - vm_compute. reflexivity.
  - vm_compute. reflexivity.
  - exact H.
Defined.

Lemma render_after_setConfig_witness :
  ∃ v, render (setConfig (obj [("head", section_head); ("padding", VNum 8)])
                 (fresh VUndef 0 false)) = inr v
       ∧ v_style v = "--row-padding: 8px;".
Proof.
  destruct (render_after_setConfig
              (obj [("head", section_head); ("padding", VNum 8)])
              (fresh VUndef 0 false) VUndef 0 false)
    as (_ & v & Hv & _ & _ & H & _).
  exists v. split; [exact Hv|].
  apply (H 8%Z).
  - vm_compute. reflexivity.
  - unfold safe_integer. lia.
Defined.

Lemma open_configuration_loads_rows_witness :
  length (cached_rows
            (run (setConfig
                    (obj [("head", section_head);
                          ("entities", VArr [VStr "light.a"]);
                          ("open", VBool true)])
                    (fresh VUndef 0 false))
               (EvExternal <$> [2; 2])))
  = length [VStr "light.a"].
Proof.
  destruct (open_configuration_loads_rows
              (obj [("head", section_head);
                    ("entities", VArr [VStr "light.a"]);
                    ("open", VBool true)])
              (fresh VUndef 0 false) [VStr "light.a"] [2; 2])
    as (_ & H & _).
  - vm_compute. reflexivity.
  - vm_compute. reflexivity.
  - vm_compute. reflexivity.
  - apply (bool_decide_unpack _). vm_compute. reflexivity.
  - exact H.
Defined.
